(** * MilkCheck engine: the Action entity, its event handler and resolver

    A shallow embedding of [lib/MilkCheck/Engine/Action.py] together with the
    properties of the Action state machine, of the command resolver and of the
    Action Manager's fan-out that the specification states, and with further
    properties of the same code: what a run of [prepare] writes and hands
    over, the retry budget, the timer event and the duration.

    Python objects are mutable and shared: actions live in a store indexed by
    their identity, and every method threads the store, the log of the calls
    made to collaborators (callback sink, action manager, owning service) and
    the exception that may be raised.  What a collaborator does when it is
    called belongs to other modules: here a call is an entry of the log. *)

From Stdlib Require Import ZArith QArith Ascii String List Lia.
From Stdlib Require PrimFloat Uint63.
From stdpp Require Import base functions gmap strings list.

(** ** Values of the engine *)

(** The status symbols imported from [MilkCheck.Engine.BaseEntity]; Python
    lets any object be passed where a status is expected, [OTHER_VALUE]
    stands for those. *)
Inductive Status :=
| NO_STATUS
| WAITING_STATUS
| DONE
| TIMED_OUT
| TOO_MANY_ERRORS
| ERROR
| OTHER_VALUE (v : nat).

#[global] Instance Status_eq_dec : EqDecision Status.
Proof. solve_decision. Defined.

(** The event symbols imported from [MilkCheck.Callback]. *)
Inductive EvKind :=
| EV_COMPLETE
| EV_DELAYED
| EV_STATUS_CHANGED
| EV_STARTED
| EV_TRIGGER_DEP.

#[global] Instance EvKind_eq_dec : EqDecision EvKind.
Proof. solve_decision. Defined.

(** Object identities. *)
Definition aid := nat.
Definition sid := nat.

(** An attribute value as [re.sub] sees it: a string, or anything else. *)
Inductive PyVal :=
| PyStr (s : string)
| PyOther.

(** The worker handed back by ClusterShell: the groups of nodes per return
    code ([iter_retcodes]) and the timeout flag ([did_timeout]). *)
Record Worker := {
  iter_retcodes : list (Z * list string);
  did_timeout : bool
}.

(** A dependency record; the Action uses its [target] only, the action at
    the other end of the edge. *)
Record Dependency := { target : aid }.

(** The part of an Action that [BaseEntity] owns.  [parents] and [children]
    are dictionaries, kept in their iteration order; [attrs] answers
    [hasattr]/[getattr] for the names that [Action.py] neither defines nor
    reads (the name and the target of the entity among them). *)
Record BaseEntity := {
  status : Status;
  parents : list (string * Dependency);
  children : list (string * Dependency);
  variables : gmap string PyVal;
  errors : Z;
  attrs : string -> option PyVal
}.

(** The attributes set by [Action.__init__]. *)
Record Action := {
  base : BaseEntity;
  timeout : Q;
  delay : Q;
  _retry : Z;
  _retry_backup : Z;
  command : option string;
  worker : option Worker;
  service : option sid;
  start_time : option Z;
  stop_time : option Z
}.

(** What the resolver reads of a Service and of the Service Manager. *)
Record Service := {
  svc_attrs : string -> option PyVal;
  svc_variables : gmap string PyVal
}.

Record ServiceManager := {
  mgr_attrs : string -> option PyVal;
  mgr_variables : gmap string PyVal
}.

(** Calls that leave the module, in program order. *)
Inductive Effect :=
| notify (obj : aid) (ev : EvKind)
| notify_dep (obj : aid) (tgt : aid) (ev : EvKind)
| perform_action (a : aid)
| perform_delayed_action (a : aid)
| remove_task (a : aid)
| service_update_status (svc : sid) (s : Status).

#[global] Instance Effect_eq_dec : EqDecision Effect.
Proof. solve_decision. Defined.

Inductive Exn :=
| AssertionError (msg : string)
| AttributeError
| UndefinedVariableError (msg : string).

(** The store: every identity denotes an action object; [now] is the value
    that [datetime.now()] reads, the methods never write it. *)
Record World := {
  actions : aid -> Action;
  services : sid -> Service;
  service_manager : ServiceManager;
  trace : list Effect;
  now : Z
}.

(** ** Field updates *)

Definition base_with_status (s : Status) (b : BaseEntity) : BaseEntity :=
  {| status := s; parents := parents b; children := children b;
     variables := variables b; errors := errors b; attrs := attrs b |}.

Definition with_status (s : Status) (a : Action) : Action :=
  {| base := base_with_status s (base a); timeout := timeout a;
     delay := delay a; _retry := _retry a; _retry_backup := _retry_backup a;
     command := command a; worker := worker a; service := service a;
     start_time := start_time a; stop_time := stop_time a |}.

Definition with_retry (r : Z) (a : Action) : Action :=
  {| base := base a; timeout := timeout a;
     delay := delay a; _retry := r; _retry_backup := _retry_backup a;
     command := command a; worker := worker a; service := service a;
     start_time := start_time a; stop_time := stop_time a |}.

Definition with_retry_backup (r : Z) (a : Action) : Action :=
  {| base := base a; timeout := timeout a;
     delay := delay a; _retry := _retry a; _retry_backup := r;
     command := command a; worker := worker a; service := service a;
     start_time := start_time a; stop_time := stop_time a |}.

Definition with_worker (k : option Worker) (a : Action) : Action :=
  {| base := base a; timeout := timeout a;
     delay := delay a; _retry := _retry a; _retry_backup := _retry_backup a;
     command := command a; worker := k; service := service a;
     start_time := start_time a; stop_time := stop_time a |}.

Definition with_start_time (t : option Z) (a : Action) : Action :=
  {| base := base a; timeout := timeout a;
     delay := delay a; _retry := _retry a; _retry_backup := _retry_backup a;
     command := command a; worker := worker a; service := service a;
     start_time := t; stop_time := stop_time a |}.

Definition with_stop_time (t : option Z) (a : Action) : Action :=
  {| base := base a; timeout := timeout a;
     delay := delay a; _retry := _retry a; _retry_backup := _retry_backup a;
     command := command a; worker := worker a; service := service a;
     start_time := start_time a; stop_time := t |}.

Definition with_actions (f : aid -> Action) (w : World) : World :=
  {| actions := f; services := services w;
     service_manager := service_manager w; trace := trace w; now := now w |}.

Definition with_trace (t : list Effect) (w : World) : World :=
  {| actions := actions w; services := services w;
     service_manager := service_manager w; trace := t; now := now w |}.

(** ** The monad of methods: store passing with exceptions

    [OutOfFuel] is the answer of a recursion that was cut; Python has no such
    outcome. *)
Inductive Res (A : Type) :=
| Ret (x : A)
| Raise (e : Exn)
| OutOfFuel.
Arguments Ret {A} x.
Arguments Raise {A} e.
Arguments OutOfFuel {A}.

Definition M (A : Type) : Type := World -> Res A * World.

Definition ret {A} (x : A) : M A := fun w => (Ret x, w).

Definition bind {A B} (m : M A) (k : A -> M B) : M B :=
  fun w => match m w with
           | (Ret x, w') => k x w'
           | (Raise e, w') => (Raise e, w')
           | (OutOfFuel, w') => (OutOfFuel, w')
           end.

Definition raise {A} (e : Exn) : M A := fun w => (Raise e, w).

Declare Scope py_scope.
Delimit Scope py_scope with py.
Notation "x <- m ;; k" := (bind m (fun x => k))
  (at level 100, m at next level, right associativity) : py_scope.
Notation "m ;; k" := (bind m (fun _ => k))
  (at level 100, right associativity) : py_scope.
Local Open Scope py_scope.

(** [assert cond, msg] *)
Definition assert (cond : bool) (msg : string) : M unit :=
  if cond then ret tt else raise (AssertionError msg).

(** Reading an object, updating it in place, logging a call and reading the
    clock. *)
Definition read {A} (self : aid) (f : Action -> A) : M A :=
  fun w => (Ret (f (actions w self)), w).

Definition update (self : aid) (f : Action -> Action) : M unit :=
  fun w => (Ret tt, with_actions (<[self := f (actions w self)]> (actions w)) w).

Definition call (e : Effect) : M unit :=
  fun w => (Ret tt, with_trace (trace w ++ [e]) w).

Definition datetime_now : M Z := fun w => (Ret (now w), w).

(** [for x in l: body(x)] *)
Fixpoint for_each {X} (l : list X) (body : X -> M unit) : M unit :=
  match l with
  | [] => ret tt
  | x :: l' => body x ;; for_each l' body
  end.

(** ** BaseEntity *)

Definition action_status (a : Action) : Status := status (base a).
Definition status_of (w : World) (a : aid) : Status := action_status (actions w a).
Definition parents_of (w : World) (a : aid) : list (string * Dependency) :=
  parents (base (actions w a)).
Definition children_of (w : World) (a : aid) : list (string * Dependency) :=
  children (base (actions w a)).

Definition dep_status (w : World) (d : string * Dependency) : Status :=
  status_of w (target (snd d)).

Definition status_in (s : Status) (l : list Status) : bool := bool_decide (s ∈ l).

(** Modelled from the spec: [BaseEntity.eval_deps_status] is not in the
    sources at hand.  Section 4.2 step 1: DONE iff all parents are DONE, ERROR
    iff a parent is in a terminal state other than DONE, WAITING iff a parent
    is WAITING_STATUS, NO_STATUS otherwise; the cases are tried in the order
    the specification lists them. *)
Definition eval_deps_status (w : World) (self : aid) : Status :=
  let sts := map (dep_status w) (parents_of w self) in
  if forallb (fun s => bool_decide (s = DONE)) sts then DONE
  else if existsb (fun s => status_in s [TIMED_OUT; TOO_MANY_ERRORS; ERROR]) sts then ERROR
  else if existsb (fun s => bool_decide (s = WAITING_STATUS)) sts then WAITING_STATUS
  else NO_STATUS.

(** Modelled from the spec: [BaseEntity.search_deps] is not in the sources at
    hand.  Section 4.2 step 5 uses it for the parents whose status is one of
    the given symbols. *)
Definition search_deps (w : World) (self : aid) (symbols : list Status)
  : list (string * Dependency) :=
  filter (fun d => status_in (dep_status w d) symbols = true) (parents_of w self).

(** Modelled from the spec: [BaseEntity.is_ready] is not in the sources at
    hand.  Sections 3 and 4.1: the dependencies of a successor are satisfied
    when every parent is in a terminal state. *)
Definition is_ready (w : World) (self : aid) : bool :=
  forallb (fun d => negb (status_in (dep_status w d) [NO_STATUS; WAITING_STATUS]))
          (parents_of w self).

(** Modelled from the spec: [BaseEntity.reset] is not in the sources at hand.
    Section 3: a terminal status is kept until an explicit reset, which
    brings the entity back to its initial status. *)
Definition BaseEntity_reset (self : aid) : M unit :=
  update self (with_status NO_STATUS).

(** ** Action *)

(** [Action.__init__]; [b] is the object as [BaseEntity.__init__] leaves it. *)
Definition Action_init (b : BaseEntity) (command : option string)
    (timeout delay : Q) : Action :=
  {| base := b; timeout := timeout; delay := delay;
     _retry := 0; _retry_backup := -1;
     command := command; worker := None; service := None;
     start_time := None; stop_time := None |}.

Definition reset (self : aid) : M unit :=
  BaseEntity_reset self ;;
  update self (with_start_time None) ;;
  update self (with_stop_time None) ;;
  update self (with_worker None) ;;
  backup <- read self _retry_backup ;;
  update self (with_retry backup).

(** [delay > 0] *)
Definition delay_positive (a : Action) : bool := negb (Qle_bool (delay a) 0).

Definition has_timed_out (self : aid) : M bool :=
  k <- read self worker ;;
  match k with
  | None => ret false
  | Some wk => ret (did_timeout wk)
  end.

(** The loop of [has_too_many_errors] over [worker.iter_retcodes()], with its
    two local variables. *)
Fixpoint retcodes_loop (errors : Z) (groups : list (Z * list string))
    (error_count : Z) (too_many_errors : bool) : bool :=
  match groups with
  | [] => too_many_errors
  | (retcode, nds) :: rest =>
      if negb (retcode =? 0)%Z then
        let error_count := (error_count + Z.of_nat (length nds))%Z in
        if (error_count >? errors)%Z
        then retcodes_loop errors rest error_count true
        else retcodes_loop errors rest error_count too_many_errors
      else retcodes_loop errors rest error_count too_many_errors
  end.

Definition has_too_many_errors (self : aid) : M bool :=
  k <- read self worker ;;
  errs <- read self (fun a => errors (base a)) ;;
  match k with
  | None => ret false
  | Some wk => ret (retcodes_loop errs (iter_retcodes wk) 0 false)
  end.

Definition set_retry (self : aid) (retry : Z) : M unit :=
  positive <- read self delay_positive ;;
  assert positive "No way to specify retry without a delay" ;;
  assert (0 <=? retry)%Z "No way to specify a negative retry" ;;
  update self (with_retry retry) ;;
  backup <- read self _retry_backup ;;
  if (backup =? -1)%Z then update self (with_retry_backup retry) else ret tt.

Definition get_retry (self : aid) : M Z := read self _retry.

Definition schedule (self : aid) (allow_delay : bool) : M unit :=
  started <- read self start_time ;;
  (match started with
   | None => t <- datetime_now ;; update self (with_start_time (Some t))
   | Some _ => ret tt
   end) ;;
  positive <- read self delay_positive ;;
  if positive && allow_delay then
    call (notify self EV_DELAYED) ;;
    call (perform_delayed_action self)
  else
    call (notify self EV_STARTED) ;;
    call (perform_action self).

(** The loop of [update_status] over the children; [prepare] is the method
    of the successors. *)
Definition trigger_children (prepare : aid -> M unit) (self : aid)
    (deps : list (string * Dependency)) : M unit :=
  for_each deps (fun dep =>
    ready <- (fun w => (Ret (is_ready w (target (snd dep))), w)) ;;
    if ready : bool then
      call (notify_dep self (target (snd dep)) EV_TRIGGER_DEP) ;;
      prepare (target (snd dep))
    else ret tt).

(** [update_status], open in the [prepare] it calls on the successors. *)
Definition update_status_with (prepare : aid -> M unit) (self : aid)
    (status : Status) : M unit :=
  assert (status_in status [NO_STATUS; WAITING_STATUS; DONE; TOO_MANY_ERRORS; TIMED_OUT])
         "Bad action status" ;;
  update self (with_status status) ;;
  call (notify self EV_STATUS_CHANGED) ;;
  if negb (status_in status [NO_STATUS; WAITING_STATUS]) then
    call (notify self EV_COMPLETE) ;;
    deps <- read self (fun a => children (base a)) ;;
    match deps with
    | _ :: _ => trigger_children prepare self deps
    | [] =>
        svc <- read self service ;;
        st <- read self action_status ;;
        match svc with
        | None => raise AttributeError
        | Some s => call (service_update_status s st)
        end
    end
  else ret tt.

(** [prepare]; the fuel bounds the depth of the nested calls to [prepare]. *)
Fixpoint prepare (fuel : nat) (self : aid) : M unit :=
  match fuel with
  | O => fun w => (OutOfFuel, w)
  | S fuel' =>
      deps_status <- (fun w => (Ret (eval_deps_status w self), w)) ;;
      st <- read self action_status ;;
      if bool_decide (st = NO_STATUS) && negb (bool_decide (deps_status = WAITING_STATUS)) then
        ps <- read self (fun a => parents (base a)) ;;
        if bool_decide (deps_status = ERROR) || bool_decide (ps = []) then
          update_status_with (prepare fuel') self WAITING_STATUS ;;
          schedule self true
        else if bool_decide (deps_status = DONE) then
          update_status_with (prepare fuel') self DONE
        else
          deps <- (fun w => (Ret (search_deps w self [NO_STATUS]), w)) ;;
          for_each deps (fun dep => prepare fuel' (target (snd dep)))
      else ret tt
  end.

Definition update_status (fuel : nat) (self : aid) (status : Status) : M unit :=
  update_status_with (prepare fuel) self status.

(** ** ActionEventHandler *)

(** [ev_close]; the handler's [_action] is [self]. *)
Definition ev_close (fuel : nat) (self : aid) (worker : Worker) : M unit :=
  t <- datetime_now ;;
  update self (with_stop_time (Some t)) ;;
  call (remove_task self) ;;
  update self (with_worker (Some worker)) ;;
  error <- has_too_many_errors self ;;
  timed_out <- has_timed_out self ;;
  retry <- get_retry self ;;
  if (error || timed_out) && (retry >? 0)%Z then
    retry <- get_retry self ;;
    set_retry self (retry - 1)%Z ;;
    schedule self true
  else if error then update_status fuel self TOO_MANY_ERRORS
  else if timed_out then update_status fuel self TIMED_OUT
  else update_status fuel self DONE.

(** ** The command resolver *)

Module Resolver.

(** [\w] of a byte-string pattern: ASCII letters, digits and the underscore. *)
Definition is_word (c : ascii) : bool :=
  let n := nat_of_ascii c in
  ((48 <=? n) && (n <=? 57)) || ((65 <=? n) && (n <=? 90))
  || ((97 <=? n) && (n <=? 122)) || (n =? 95).

Definition is_dollar (c : ascii) : bool := Ascii.eqb c "$".

(** The longest prefix of word characters, what [[\w]+] takes. *)
Fixpoint word_prefix (s : string) : string :=
  match s with
  | String c s' => if is_word c then String c (word_prefix s') else EmptyString
  | EmptyString => EmptyString
  end.

(** [findall('\${1}[\w]+', s)].  A match starts at a [$] that a word
    character follows and takes the whole run of word characters.  The run
    holds no [$], so that scanning on from the character after the [$] finds
    the matches that scanning on from the end of the match finds. *)
Fixpoint findall (s : string) : list string :=
  match s with
  | EmptyString => []
  | String c s' =>
      if is_dollar c then
        match word_prefix s' with
        | EmptyString => findall s'
        | w => String c w :: findall s'
        end
      else findall s'
  end.

(** [s.lstrip(c)] *)
Fixpoint lstrip (c : ascii) (s : string) : string :=
  match s with
  | String c' s' => if Ascii.eqb c' c then lstrip c s' else s
  | EmptyString => EmptyString
  end.

(** [s.lower()] on ASCII. *)
Definition lower_char (c : ascii) : ascii :=
  let n := nat_of_ascii c in
  if (65 <=? n) && (n <=? 90) then ascii_of_nat (n + 32) else c.

Fixpoint lower (s : string) : string :=
  match s with
  | String c s' => String (lower_char c) (lower s')
  | EmptyString => EmptyString
  end.

Fixpoint starts_with (p s : string) : bool :=
  match p with
  | EmptyString => true
  | String a p' =>
      match s with
      | String b s' => Ascii.eqb a b && starts_with p' s'
      | EmptyString => false
      end
  end.

(** Replacing, from left to right, the occurrences of the text [pat] (not
    empty) by [repl]; [skip] counts the characters of a replaced occurrence
    that are still to be dropped. *)
Fixpoint sub_literal (pat repl : string) (skip : nat) (s : string) : string :=
  match s with
  | EmptyString => EmptyString
  | String c s' =>
      match skip with
      | S k => sub_literal pat repl k s'
      | O =>
          if starts_with pat s
          then repl +:+ sub_literal pat repl (String.length pat - 1) s'
          else String c (sub_literal pat repl 0 s')
      end
  end.

Fixpoint has_backslash (s : string) : bool :=
  match s with
  | String c s' => Ascii.eqb c "092" || has_backslash s'
  | EmptyString => false
  end.

(** [sub('\%s' % symbol, repl, s)] for a [symbol] that [findall] returned: the
    pattern is the text of the symbol.  [re] reads a backslash in [repl] as
    the start of an escape; such replacements are left out ([None]). *)
Definition sub (symbol repl s : string) : option string :=
  if has_backslash repl then None else Some (sub_literal symbol repl 0 s).

(** The names that [Action.py] gives to an Action, apart from [command]:
    numbers, objects and methods. *)
Definition action_names : list string :=
  ["timeout"; "delay"; "_retry"; "_retry_backup"; "worker"; "service";
   "start_time"; "stop_time"; "reset"; "run"; "prepare"; "update_status";
   "has_timed_out"; "has_too_many_errors"; "set_retry"; "get_retry"; "retry";
   "duration"; "schedule"; "resolved_command"].

(** The attributes of [BaseEntity] that [Action.py] reads: a status, two
    dictionaries of dependencies, the dictionary of variables, a number. *)
Definition base_names : list string :=
  ["status"; "parents"; "children"; "variables"; "errors"].

(** [getattr(self, n)] when [hasattr(self, n)]. *)
Definition getattr_action (a : Action) (n : string) : option PyVal :=
  if bool_decide (n = "command") then
    Some (match command a with Some c => PyStr c | None => PyOther end)
  else if bool_decide (n ∈ action_names ++ base_names) then Some PyOther
  else attrs (base a) n.

(** [getattr(self.service, n)]; the names that [None] itself answers to are
    not represented. *)
Definition getattr_service (w : World) (a : Action) (n : string) : option PyVal :=
  match service a with
  | Some s => svc_attrs (services w s) n
  | None => None
  end.

Definition service_variable (w : World) (a : Action) (n : string) : option PyVal :=
  match service a with
  | Some s => svc_variables (services w s) !! n
  | None => None
  end.

(** The value that the [if]/[elif] chain of [resolved_command] hands to
    [sub] for [varname]; [None] when the chain reaches its [else]. *)
Definition lookup_symbol (w : World) (a : Action) (varname : string) : option PyVal :=
  match getattr_action a (lower varname) with
  | Some v => Some v
  | None =>
  match variables (base a) !! varname with
  | Some v => Some v
  | None =>
  match getattr_service w a (lower varname) with
  | Some v => Some v
  | None =>
  match service_variable w a varname with
  | Some v => Some v
  | None =>
  match mgr_attrs (service_manager w) (lower varname) with
  | Some v => Some v
  | None => mgr_variables (service_manager w) !! varname
  end end end end end.

(** [UndefinedVariableError.__init__] *)
Definition undefined_variable (varname cmd : string) : Exn :=
  UndefinedVariableError
    ("Variable [" +:+ varname +:+ "] undefined in [" +:+ cmd +:+ "]").

(** What a call of [resolved_command] comes to; [Unmodelled] when a
    replacement is not a string or holds a backslash, or when the command is
    [None]. *)
Inductive Outcome :=
| Returns (s : string)
| Raises (e : Exn)
| Unmodelled.

(** The [for] loop of [resolved_command]. *)
Fixpoint resolve_symbols (w : World) (a : Action) (cmd : string)
    (symbols : list string) (final_cmd : string) : Outcome :=
  match symbols with
  | [] => Returns final_cmd
  | symbol :: rest =>
      let varname := lstrip "$" symbol in
      match lookup_symbol w a varname with
      | Some (PyStr v) =>
          match sub symbol v final_cmd with
          | Some final_cmd => resolve_symbols w a cmd rest final_cmd
          | None => Unmodelled
          end
      | Some PyOther => Unmodelled
      | None => Raises (undefined_variable varname cmd)
      end
  end.

Definition resolved_command (w : World) (self : aid) : Outcome :=
  let a := actions w self in
  match command a with
  | Some cmd => resolve_symbols w a cmd (findall cmd) cmd
  | None => Unmodelled
  end.

(** *** Notions used to state the properties of the resolver *)

(** The six places where a name is looked for, in the order of section 4.5
    of the specification, and the first of them that answers. *)
Definition scopes (w : World) (a : Action) (varname : string) : list (option PyVal) :=
  [ getattr_action a (lower varname);
    variables (base a) !! varname;
    getattr_service w a (lower varname);
    service_variable w a varname;
    mgr_attrs (service_manager w) (lower varname);
    mgr_variables (service_manager w) !! varname ].

Fixpoint first_match (l : list (option PyVal)) : option PyVal :=
  match l with
  | [] => None
  | Some v :: _ => Some v
  | None :: l' => first_match l'
  end.

(** A name: word characters, at least one. *)
Fixpoint all_word (s : string) : bool :=
  match s with
  | String c s' => is_word c && all_word s'
  | EmptyString => true
  end.

Definition is_name (s : string) : Prop := s <> EmptyString /\ all_word s = true.

(** What follows the longest prefix of word characters. *)
Fixpoint word_rest (s : string) : string :=
  match s with
  | String c s' => if is_word c then word_rest s' else s
  | EmptyString => EmptyString
  end.

Fixpoint has_dollar (s : string) : bool :=
  match s with
  | String c s' => is_dollar c || has_dollar s'
  | EmptyString => false
  end.

(** No [$] right after a [$]. *)
Fixpoint no_double_dollar (s : string) : bool :=
  match s with
  | String c s' =>
      (if is_dollar c
       then match s' with
            | String c' _ => negb (is_dollar c')
            | EmptyString => true
            end
       else true) && no_double_dollar s'
  | EmptyString => true
  end.

(** The text that the chain finds for a name, when it is a string that [sub]
    takes as it is. *)
Definition symbol_value (w : World) (a : Action) (varname : string) : option string :=
  match lookup_symbol w a varname with
  | Some (PyStr v) => if has_backslash v then None else Some v
  | _ => None
  end.

(** Written from section 4.5 of the specification: one pass over the
    template in which every token is replaced by the value of its name, the
    values being copied and not read again.  [skip] counts the characters of
    the token at hand that remain to be passed. *)
Fixpoint expand_tokens (value : string -> string) (skip : nat) (s : string) : string :=
  match s with
  | EmptyString => EmptyString
  | String c s' =>
      match skip with
      | S k => expand_tokens value k s'
      | O =>
          if is_dollar c then
            match word_prefix s' with
            | EmptyString => String c (expand_tokens value 0 s')
            | name => value name +:+ expand_tokens value (String.length name) s'
            end
          else String c (expand_tokens value 0 s')
      end
  end.

(** The same pass when only some names have a value yet: the tokens of the
    others stay. *)
Fixpoint expand_partial (f : string -> option string) (skip : nat) (s : string) : string :=
  match s with
  | EmptyString => EmptyString
  | String c s' =>
      match skip with
      | S k => expand_partial f k s'
      | O =>
          if is_dollar c then
            match word_prefix s' with
            | EmptyString => String c (expand_partial f 0 s')
            | name =>
                match f name with
                | Some v => v +:+ expand_partial f (String.length name) s'
                | None => String c (expand_partial f 0 s')
                end
            end
          else String c (expand_partial f 0 s')
      end
  end.


(** The values found so far: those of the names in [seen]. *)
Definition values_of (w : World) (a : Action) (seen : list string)
  : string -> option string :=
  fun n => if bool_decide (n ∈ seen) then symbol_value w a n else None.

End Resolver.

(** ** The Action Manager's fan-out *)

Module ActionManager.

(** Modelled from the spec: [MilkCheck.ActionManager] is not in the sources
    at hand, only its tests are.  Sections 3 and 4.4: the manager keeps the
    set of running actions (membership is by identity) and its fan-out, which
    [add_task] and [remove_task] compute again from the members; the fan-out
    of the manager is the minimum of the fan-outs that the running actions
    have set, and is unset when none has one.  The counters of the manager
    are left out. *)
Record Manager := {
  running : list aid;
  fanout : option Z
}.

Definition initial : Manager := {| running := []; fanout := None |}.

Section Fanout.

(** [action.fanout], unset ([None]) or a number. *)
Variable fan : aid -> option Z.

Fixpoint effective_fanout (l : list aid) : option Z :=
  match l with
  | [] => None
  | a :: l' =>
      match fan a, effective_fanout l' with
      | Some x, Some y => Some (Z.min x y)
      | Some x, None => Some x
      | None, r => r
      end
  end.

Definition is_running_task (a : aid) (m : Manager) : bool :=
  bool_decide (a ∈ running m).

Definition add_task (a : aid) (m : Manager) : Manager :=
  let r := if is_running_task a m then running m else running m ++ [a] in
  {| running := r; fanout := effective_fanout r |}.

Definition remove_task (a : aid) (m : Manager) : Manager :=
  let r := filter (fun b => b ≠ a) (running m) in
  {| running := r; fanout := effective_fanout r |}.

Inductive Op :=
| Add (a : aid)
| Remove (a : aid).

Definition step (m : Manager) (o : Op) : Manager :=
  match o with
  | Add a => add_task a m
  | Remove a => remove_task a m
  end.

Definition run (ops : list Op) : Manager := fold_left step ops initial.

(** [r] is the minimum of the fan-outs set among [l], unset when no member
    has one. *)
Definition min_of_set_fanouts (l : list aid) (r : option Z) : Prop :=
  match r with
  | Some k =>
      (exists a, a ∈ l /\ fan a = Some k) /\
      (forall a j, a ∈ l -> fan a = Some j -> (k <= j)%Z)
  | None => forall a, a ∈ l -> fan a = None
  end.

End Fanout.

End ActionManager.

(** ** Auxiliary notions used to state the properties *)

(** The number of nodes in the groups whose return code is not zero. *)
Fixpoint error_nodes (groups : list (Z * list string)) : Z :=
  match groups with
  | [] => 0
  | (retcode, nds) :: rest =>
      if negb (retcode =? 0)%Z
      then (Z.of_nat (length nds) + error_nodes rest)%Z
      else error_nodes rest
  end.

Definition has_error_group (groups : list (Z * list string)) : bool :=
  existsb (fun g => negb (fst g =? 0)%Z) groups.

Definition worker_error_nodes (a : Action) : Z :=
  match worker a with
  | Some wk => error_nodes (iter_retcodes wk)
  | None => 0
  end.

(** The number of nodes that the worker reports, whatever their code. *)
Definition worker_nodes (a : Action) : nat :=
  match worker a with
  | Some wk => length (concat (map snd (iter_retcodes wk)))
  | None => 0
  end.

(** A sequence of assignments [action.retry = v], each in its own statement:
    an assignment that raises leaves the next one to run. *)
Fixpoint assignments (self : aid) (vs : list Z) (w : World) : World :=
  match vs with
  | [] => w
  | v :: vs' => assignments self vs' (snd (set_retry self v w))
  end.

(** The notifications and manager calls by which [schedule] dispatches [x]. *)
Definition is_dispatch_of (x : aid) (e : Effect) : Prop :=
  e = perform_action x \/ e = perform_delayed_action x \/
  e = notify x EV_STARTED \/ e = notify x EV_DELAYED.

(** [w'] comes after [w] in a run of [prepare]: only statuses and start times
    were written, no action that had a status lost or changed it, and the
    calls logged since [w] triggered ready successors only, and dispatched
    and notified only actions that had no status in [w]. *)
Record extends (w w' : World) : Prop := {
  ext_services : services w' = services w;
  ext_manager : service_manager w' = service_manager w;
  ext_now : now w' = now w;
  ext_frame : forall x, exists s t,
      actions w' x = with_status s (with_start_time t (actions w x));
  ext_sticky : forall x,
      status_of w x <> NO_STATUS -> status_of w' x = status_of w x;
  ext_trace : exists new,
      trace w' = trace w ++ new /\
      (forall x c, notify_dep x c EV_TRIGGER_DEP ∈ new -> is_ready w' c = true) /\
      (forall x e, e ∈ new -> is_dispatch_of x e -> status_of w x = NO_STATUS) /\
      (forall x ev, notify x ev ∈ new -> status_of w x = NO_STATUS)
}.

(** The store once [update_status] has passed its assertion, written the
    status and notified the change. *)
Definition status_written (self : aid) (s : Status) (w : World) : World :=
  with_trace (trace w ++ [notify self EV_STATUS_CHANGED])
    (with_actions (<[self := with_status s (actions w self)]> (actions w)) w).

(** What [update_status] goes on with once the completion is notified: the
    successors, or the service. *)
Definition hand_over (prepare : aid -> M unit) (self : aid) : M unit :=
  (deps <- read self (fun a => children (base a)) ;;
   match deps with
   | _ :: _ => trigger_children prepare self deps
   | [] =>
       svc <- read self service ;;
       st <- read self action_status ;;
       match svc with
       | None => raise AttributeError
       | Some s => call (service_update_status s st)
       end
   end)%py.

(** The store once a terminal status is written and both notifications are
    out. *)
Definition completion_notified (self : aid) (s : Status) (w : World) : World :=
  with_trace (trace w ++ [notify self EV_STATUS_CHANGED; notify self EV_COMPLETE])
    (with_actions (<[self := with_status s (actions w self)]> (actions w)) w).

Definition accepted (s : Status) : bool :=
  status_in s [NO_STATUS; WAITING_STATUS; DONE; TOO_MANY_ERRORS; TIMED_OUT].

Definition terminal (s : Status) : bool :=
  negb (status_in s [NO_STATUS; WAITING_STATUS]).

(** The only exception that [prepare] lets out. *)
Definition only_attribute_error {A} (r : Res A) : Prop :=
  match r with
  | Raise e => e = AttributeError
  | _ => True
  end.

(** The number of actions of [dom] that have no status yet. *)
Definition pending (dom : list aid) (w : World) : nat :=
  length (filter (fun x => status_of w x = NO_STATUS) dom).

(** The dependency graph that the loader is to build, over the actions
    [dom]: closed under the parent and child links, acyclic along the parent
    links ([rank] decreases, and is at most [bound]), every action owned by a
    service. *)
Record well_formed (dom : list aid) (rank : aid -> nat) (bound : nat)
    (w : World) : Prop := {
  wf_parents : forall x d, x ∈ dom -> d ∈ parents_of w x -> target (snd d) ∈ dom;
  wf_children : forall x d, x ∈ dom -> d ∈ children_of w x -> target (snd d) ∈ dom;
  wf_rank : forall x d, x ∈ dom -> d ∈ parents_of w x -> rank (target (snd d)) < rank x;
  wf_bound : forall x, x ∈ dom -> rank x <= bound;
  wf_service : forall x, x ∈ dom -> is_Some (service (actions w x))
}.

(** Fuel that is enough for [prepare] on an action of rank [r]. *)
Definition enough (dom : list aid) (bound : nat) (w : World) (r : nat) : nat :=
  pending dom w * S bound + S r.

(** The invariant of the data model: a retry counter, or a shadow, above
    zero goes with a positive delay. *)
Definition retry_invariant (w : World) : Prop :=
  forall x,
    (0 < _retry (actions w x))%Z \/ (0 < _retry_backup (actions w x))%Z ->
    (0 < delay (actions w x))%Q.

(** ** A small configuration used in the examples *)

Definition no_attrs : string -> option PyVal := fun _ => None.

Definition sample_base (st : Status) (ps cs : list (string * Dependency))
    (vars : gmap string PyVal) : BaseEntity :=
  {| status := st; parents := ps; children := cs; variables := vars;
     errors := 0; attrs := no_attrs |}.

(** An action as [service.add_action] leaves it: owned. *)
Definition owned (svc : sid) (a : Action) : Action :=
  {| base := base a; timeout := timeout a;
     delay := delay a; _retry := _retry a; _retry_backup := _retry_backup a;
     command := command a; worker := worker a; service := Some svc;
     start_time := start_time a; stop_time := stop_time a |}.

(** Action 0 has action 1 as its successor, both belong to service 0; the
    other identities are fresh actions that no service owns. *)
Definition sample_actions (x : aid) : Action :=
  match x with
  | 0 => owned 0 (Action_init
                    (sample_base NO_STATUS [] [("second", {| target := 1 |})] ∅)
                    (Some "echo first") 0 0)
  | 1 => owned 0 (Action_init
                    (sample_base NO_STATUS [("first", {| target := 0 |})] [] ∅)
                    (Some "echo second") 0 1)
  | _ => Action_init (sample_base NO_STATUS [] [] ∅) None 0 0
  end.

Definition sample_world : World :=
  {| actions := sample_actions;
     services := fun _ => {| svc_attrs := no_attrs; svc_variables := ∅ |};
     service_manager := {| mgr_attrs := no_attrs; mgr_variables := ∅ |};
     trace := [];
     now := 0 |}.

(** A worker over three nodes, one of which failed. *)
Definition sample_worker : Worker :=
  {| iter_retcodes := [(0%Z, ["n1"; "n2"]); (1%Z, ["n3"])]; did_timeout := false |}.

(** The store of [ev_close] once the action is stamped, taken off the
    manager and given its worker. *)
Definition closed (self : aid) (wk : Worker) (w : World) : World :=
  let stamped := with_stop_time (Some (now w)) (actions w self) in
  with_actions
    (<[self := with_worker (Some wk) stamped]> (<[self := stamped]> (actions w)))
    (with_trace (trace w ++ [remove_task self]) w).

(** The two classifications of [ev_close] for the worker [wk]. *)
Definition classified_error (a : Action) (wk : Worker) : bool :=
  retcodes_loop (errors (base a)) (iter_retcodes wk) 0 false.

Definition classified_timed_out (wk : Worker) : bool := did_timeout wk.

(** The fan-outs of the actions of [ActionManagerTest]: the tasks are
    numbered in the order the tests create them. *)
Definition fan_test_add_task (a : aid) : option Z :=
  match a with
  | 1 => Some 60%Z | 2 => Some 12%Z | 3 => Some 50%Z | 4 => Some 3%Z
  | _ => None
  end.

Definition fan_test_weird_values (a : aid) : option Z :=
  match a with
  | 1 => Some 60%Z | 3 => Some 50%Z
  | _ => None
  end.

Definition fan_test_remove_task (a : aid) : option Z :=
  match a with
  | 1 => Some 260%Z | 2 => Some 85%Z | 3 => Some 85%Z | 4 => Some 148%Z
  | _ => None
  end.



(** An action whose command takes a value at each of the levels. *)
Definition layered_action : Action :=
  owned 0 (Action_init
    (sample_base NO_STATUS [] [] (<["X" := PyStr "from action"]> ∅))
    (Some "$X") 0 0).

Definition layered_world : World :=
  {| actions := fun _ => layered_action;
     services := fun _ => {| svc_attrs := no_attrs;
                             svc_variables := <["X" := PyStr "from service"]> ∅ |};
     service_manager := {| mgr_attrs := no_attrs;
                           mgr_variables := <["X" := PyStr "from manager"]> ∅ |};
     trace := [];
     now := 0 |}.

(** The same action when it does not define [X] itself, and when no service
    owns it. *)
Definition layered_world_service : World :=
  with_actions
    (fun _ => owned 0 (Action_init (sample_base NO_STATUS [] [] ∅) (Some "$X") 0 0))
    layered_world.

Definition layered_world_manager : World :=
  with_actions
    (fun _ => Action_init (sample_base NO_STATUS [] [] ∅) (Some "$X") 0 0)
    layered_world.



(** An action whose command names a variable that nothing defines. *)
Definition dangling_action : Action :=
  Action_init
    (sample_base NO_STATUS [] [] (<["A" := PyStr "x"]> ∅))
    (Some "echo $A $NOPE") 0 0.

Definition dangling_world : World :=
  with_actions (fun _ => dangling_action) sample_world.

(** An action whose command names two variables with plain values. *)
Definition plain_action : Action :=
  Action_init
    (sample_base NO_STATUS [] []
       (<["HOST" := PyStr "n1"]> (<["PORT" := PyStr "22"]> ∅)))
    (Some "ssh -p $PORT $HOST") 0 0.

Definition plain_world : World :=
  with_actions (fun _ => plain_action) sample_world.

(** ** The timer event *)

(** The clock as it stands at a later moment. *)
Definition with_now (t : Z) (w : World) : World :=
  {| actions := actions w; services := services w;
     service_manager := service_manager w; trace := trace w; now := t |}.

Section Timer.

(** The owning service belongs to [MilkCheck.Engine.Service]: its [simulate]
    flag and the answer of its [eval_deps_status] are taken as they come. *)
Variable simulate : sid -> bool.
Variable service_eval_deps_status : sid -> Status.

(** [MilkCheckEventHandler.ev_timer]; the handler's [_action] is [self], the
    timer that fired is not read. *)
Definition ev_timer (self : aid) : M unit :=
  svc <- read self service ;;
  match svc with
  | None => raise AttributeError
  | Some s =>
      if simulate s then
        call (service_update_status s (service_eval_deps_status s))
      else schedule self false
  end.

End Timer.

(** ** The duration *)

(** A [datetime] is counted in microseconds, its resolution.  The difference
    of two of them is a [timedelta], which Python keeps normalised: the
    seconds within the day and the microseconds within the second are not
    negative, the sign is carried by the days. *)
Record timedelta := {
  days : Z;
  seconds : Z;
  microseconds : Z
}.

Definition datetime_sub (stop start : Z) : timedelta :=
  let d := (stop - start)%Z in
  {| days := d / 86400000000;
     seconds := (d mod 86400000000) / 1000000;
     microseconds := d mod 1000000 |}.

(** An [int] where a [float] is expected; the two numbers that [duration]
    converts are below 2^53, the conversion is exact. *)
Definition float_of_int (n : Z) : PrimFloat.float :=
  PrimFloat.of_uint63 (Uint63.of_Z n).

Section Duration.
Import PrimFloat.

(** The property [duration]: a binary64 number, as Python's [float] is. *)
Definition duration (a : Action) : option PrimFloat.float :=
  match start_time a, stop_time a with
  | Some start, Some stop =>
      let delta := datetime_sub stop start in
      Some (PrimFloat.add (float_of_int (seconds delta))
              (PrimFloat.div (float_of_int (microseconds delta))
                             1000000%float))
  | _, _ => None
  end.

End Duration.

(** ** Notions used to state the further properties *)

(** The calls that hand [x] to the action manager for execution. *)
Definition is_perform (x : aid) (e : Effect) : Prop :=
  e = perform_action x \/ e = perform_delayed_action x.

#[global] Instance is_perform_dec (x : aid) (e : Effect) : Decision (is_perform x e).
Proof. unfold is_perform. apply _. Defined.

(** How many times [x] is handed over in a log. *)
Definition performed (x : aid) (l : list Effect) : nat :=
  length (filter (is_perform x) l).

(** [w'] comes after [w] in a run of [prepare], with what [extends] leaves
    open: a start time that was set is kept, a status only moves to
    WAITING_STATUS or DONE, and the actions handed to the manager since [w]
    are those that went from no status to WAITING_STATUS, each once. *)
Record advances (w w' : World) : Prop := {
  adv_extends : extends w w';
  adv_start : forall x t,
      start_time (actions w x) = Some t -> start_time (actions w' x) = Some t;
  adv_status : forall x,
      status_of w' x = status_of w x \/
      status_of w' x = WAITING_STATUS \/ status_of w' x = DONE;
  adv_once : exists new,
      trace w' = trace w ++ new /\
      forall x,
        performed x new <= 1 /\
        (performed x new = 1 <->
           status_of w x = NO_STATUS /\ status_of w' x = WAITING_STATUS)
}.

(** The close events of the successive attempts of one action. *)
Definition closes (fuel : nat) (self : aid) (wks : list Worker) (w : World) : World :=
  fold_left (fun w wk => snd (ev_close fuel self wk w)) wks w.

(** An attempt that [ev_close] counts as failed. *)
Definition failed (a : Action) (wk : Worker) : bool :=
  classified_error a wk || classified_timed_out wk.

(** What one failed attempt logs when a retry is left. *)
Definition retry_log (self : aid) : list Effect :=
  [remove_task self; notify self EV_DELAYED; perform_delayed_action self].

(** Two actions, each the parent of the other. *)
Definition cyclic_actions (x : aid) : Action :=
  match x with
  | 0 => owned 0 (Action_init
                    (sample_base NO_STATUS [("second", {| target := 1 |})] [] ∅)
                    (Some "echo first") 0 0)
  | _ => owned 0 (Action_init
                    (sample_base NO_STATUS [("first", {| target := 0 |})] [] ∅)
                    (Some "echo second") 0 0)
  end.

Definition cyclic_world : World := with_actions cyclic_actions sample_world.

(** An action whose delay was taken away after its retry counter was set. *)
Definition stale_retry_world : World :=
  with_actions
    (fun _ => with_retry 2 (owned 0 (Action_init (sample_base WAITING_STATUS [] [] ∅)
                                       (Some "true") 0 0)))
    sample_world.

Module ResolverNotions.
Import Resolver.

(** Every [$] of the text is followed by something that is not a word
    character, or by nothing. *)
Fixpoint no_token (s : string) : bool :=
  match s with
  | String c s' =>
      (if is_dollar c
       then match s' with
            | String c' _ => negb (is_word c')
            | EmptyString => true
            end
       else true) && no_token s'
  | EmptyString => true
  end.

(** The names that [Action.py] itself gives to an Action. *)
Definition own_names : list string := "command" :: action_names ++ base_names.

End ResolverNotions.

(** The attributes of an action that no method of [Action.py] writes: the
    dependency links, the variables, the tolerance, the timeout, the delay,
    the command and the owning service. *)
Definition settings (a : Action)
  : list (string * Dependency) * list (string * Dependency) * gmap string PyVal
    * Z * Q * Q * option string * option sid :=
  (parents (base a), children (base a), variables (base a), errors (base a),
   timeout a, delay a, command a, service a).

(** The attributes that record the attempts of an action: the retry counter
    and its shadow, the last worker and the stop time. *)
Definition attempt (a : Action) : Z * Z * option Worker * option Z :=
  (_retry a, _retry_backup a, worker a, stop_time a).

(** An action whose command is shell text with [$] but without a token, and
    an action that defines a variable named as one of its attributes. *)
Definition shell_world : World :=
  with_actions
    (fun _ => Action_init (sample_base NO_STATUS [] [] ∅)
                (Some "echo ${HOME} $(date) $? $") 0 0)
    sample_world.

Definition shadowed_action : Action :=
  Action_init
    (sample_base NO_STATUS [] [] (<["TIMEOUT" := PyStr "30"]> ∅))
    (Some "sleep $TIMEOUT") 0 0.

(** The calls that [prepare] makes: it notifies, triggers and dispatches; it
    takes nothing off the action manager, and the status it passes to a
    service is DONE. *)
Definition prepare_call (e : Effect) : Prop :=
  match e with
  | remove_task _ => False
  | service_update_status _ st => st = DONE
  | notify _ ev => ev <> EV_TRIGGER_DEP
  | notify_dep _ _ ev => ev = EV_TRIGGER_DEP
  | perform_action _ | perform_delayed_action _ => True
  end.

(** The calls logged from [w] to [w'] all satisfy [P]. *)
Definition calls_only (P : Effect -> Prop) (w w' : World) : Prop :=
  exists new, trace w' = trace w ++ new /\ forall e, e ∈ new -> P e.

(** * Properties *)

(** ** The retry counter, the error count and reset *)

Lemma delay_positive_iff (a : Action) :
  delay_positive a = true <-> (0 < delay a)%Q.
Proof.
  unfold delay_positive. rewrite negb_true_iff.
  split.
  - intros H. apply Qnot_le_lt. intros Hle.
    apply Qle_bool_iff in Hle. congruence.
  - intros H. destruct (Qle_bool (delay a) 0) eqn:E; [|done].
    apply Qle_bool_iff in E. exfalso. eapply Qlt_not_le; eauto.
Qed.

Lemma delay_positive_false (a : Action) :
  delay_positive a = false <-> (delay a <= 0)%Q.
Proof.
  unfold delay_positive. rewrite negb_false_iff. apply Qle_bool_iff.
Qed.

Lemma error_nodes_nonneg groups : (0 <= error_nodes groups)%Z.
Proof.
  induction groups as [|[rc nds] rest IH]; simpl; [lia|].
  destruct (negb (rc =? 0)%Z); lia.
Qed.

Lemma error_nodes_no_group groups :
  has_error_group groups = false -> error_nodes groups = 0%Z.
Proof.
  induction groups as [|[rc nds] rest IH]; simpl; [done|].
  destruct (negb (rc =? 0)%Z); simpl; [done|auto].
Qed.

(** The flag of the loop: set on entry, or some group with a code other than
    zero brings the count above the tolerance. *)
Lemma retcodes_loop_spec errs groups count flag :
  retcodes_loop errs groups count flag =
  flag || (has_error_group groups && (errs <? count + error_nodes groups)%Z).
Proof.
  revert count flag.
  induction groups as [|[rc nds] rest IH]; intros count flag; simpl.
  - by rewrite orb_false_r.
  - destruct (negb (rc =? 0)%Z) eqn:Erc; simpl.
    + pose proof (error_nodes_nonneg rest) as Hpos.
      destruct (count + Z.of_nat (length nds) >? errs)%Z eqn:Egt.
      * rewrite IH. simpl.
        assert ((errs <? count + (Z.of_nat (length nds) + error_nodes rest))%Z = true)
          as -> by (apply Z.ltb_lt; lia).
        by rewrite orb_true_r.
      * rewrite IH. f_equal.
        destruct (has_error_group rest) eqn:Eg; simpl.
        -- f_equal. lia.
        -- rewrite (error_nodes_no_group rest Eg).
           symmetry. apply Z.ltb_ge. lia.
    + apply IH.
Qed.

Lemma error_nodes_le_nodes groups :
  (error_nodes groups <= Z.of_nat (length (concat (map snd groups))))%Z.
Proof.
  induction groups as [|[rc nds] rest IH]; simpl; [lia|].
  rewrite length_app. destruct (negb (rc =? 0)%Z); lia.
Qed.

(** C7: [has_too_many_errors] answers true exactly when the nodes of the
    groups with a return code other than zero outnumber the tolerance
    [errors] of the action (a non-negative number); it leaves the store as it
    is; with no worker, or with a worker that reports no node at all, the
    answer is false. *)
Theorem C7_has_too_many_errors (w : World) (self : aid) :
  (0 <= errors (base (actions w self)))%Z ->
  exists b : bool,
    has_too_many_errors self w = (Ret b, w) /\
    (b = true <->
       (errors (base (actions w self)) < worker_error_nodes (actions w self))%Z) /\
    (worker (actions w self) = None -> b = false) /\
    (worker_nodes (actions w self) = 0 -> b = false).
Proof.
  intros Herr.
  unfold has_too_many_errors, bind, read, ret, worker_error_nodes, worker_nodes.
  destruct (worker (actions w self)) as [wk|] eqn:Ewk.
  - eexists. split; [reflexivity|].
    rewrite retcodes_loop_spec. simpl.
    assert (Hiff : has_error_group (iter_retcodes wk)
                   && (errors (base (actions w self)) <? error_nodes (iter_retcodes wk))%Z = true
                   <-> (errors (base (actions w self)) < error_nodes (iter_retcodes wk))%Z).
    { rewrite andb_true_iff, Z.ltb_lt. split; [tauto|].
      intros Hlt. split; [|done].
      destruct (has_error_group (iter_retcodes wk)) eqn:Eg; [done|].
      rewrite (error_nodes_no_group _ Eg) in Hlt. lia. }
    split; [exact Hiff|]. split; [done|].
    intros Hzero.
    apply not_true_is_false. intros E. apply Hiff in E.
    pose proof (error_nodes_le_nodes (iter_retcodes wk)). lia.
  - exists false. repeat split; try done. lia.
Qed.

(** *** [set_retry] *)

Lemma set_retry_rejected (w : World) (self : aid) (v : Z) :
  (delay (actions w self) <= 0)%Q \/ (v < 0)%Z ->
  exists msg, set_retry self v w = (Raise (AssertionError msg), w).
Proof.
  intros H. unfold set_retry, bind, read, assert, ret, raise.
  destruct (delay_positive (actions w self)) eqn:Ed.
  - destruct H as [H|H].
    + apply delay_positive_false in H. congruence.
    + assert ((0 <=? v)%Z = false) as -> by (apply Z.leb_gt; lia).
      eauto.
  - eauto.
Qed.

Lemma set_retry_accepted (w : World) (self : aid) (v : Z) :
  (0 < delay (actions w self))%Q -> (0 <= v)%Z ->
  exists w',
    set_retry self v w = (Ret tt, w') /\
    trace w' = trace w /\
    (forall x, x <> self -> actions w' x = actions w x) /\
    delay (actions w' self) = delay (actions w self) /\
    base (actions w' self) = base (actions w self) /\
    start_time (actions w' self) = start_time (actions w self) /\
    _retry (actions w' self) = v /\
    _retry_backup (actions w' self) =
      (if (_retry_backup (actions w self) =? -1)%Z then v
       else _retry_backup (actions w self)).
Proof.
  intros Hd Hv. unfold set_retry, bind, read, assert, ret, raise, update.
  apply delay_positive_iff in Hd. rewrite Hd.
  assert ((0 <=? v)%Z = true) as -> by (apply Z.leb_le; lia).
  cbn [actions with_actions]. rewrite !fn_lookup_insert.
  cbn [_retry_backup with_retry].
  destruct (_retry_backup (actions w self) =? -1)%Z eqn:Eb.
  - eexists. split; [reflexivity|].
    cbn [actions with_actions trace]. rewrite !fn_lookup_insert.
    repeat split; try done.
    intros x Hx. by rewrite !fn_lookup_insert_ne.
  - eexists. split; [reflexivity|].
    cbn [actions with_actions trace]. rewrite !fn_lookup_insert.
    repeat split; try done.
    intros x Hx. by rewrite !fn_lookup_insert_ne.
Qed.

(** The shadow after a sequence of assignments on an action whose shadow
    still holds the initial [-1]: the first value that was accepted. *)
Lemma assignments_backup (self : aid) (vs : list Z) (w : World) :
  (0 < delay (actions w self))%Q ->
  _retry_backup (actions (assignments self vs w) self) =
    (if (_retry_backup (actions w self) =? -1)%Z
     then match List.find (fun v => (0 <=? v)%Z) vs with
          | Some v => v
          | None => -1
          end
     else _retry_backup (actions w self))%Z.
Proof.
  revert w. induction vs as [|v vs IH]; intros w Hd; simpl.
  - destruct (_retry_backup (actions w self) =? -1)%Z eqn:E; [|done].
    by apply Z.eqb_eq in E.
  - destruct (0 <=? v)%Z eqn:Ev.
    + apply Z.leb_le in Ev.
      destruct (set_retry_accepted w self v Hd Ev)
        as (w' & Hrun & _ & _ & Hdelay & _ & _ & _ & Hb).
      rewrite Hrun. cbn [snd]. rewrite IH by (by rewrite Hdelay).
      rewrite Hb.
      destruct (_retry_backup (actions w self) =? -1)%Z eqn:E.
      * assert ((v =? -1)%Z = false) as -> by (apply Z.eqb_neq; lia). done.
      * by rewrite E.
    + apply Z.leb_gt in Ev.
      destruct (set_retry_rejected w self v (or_intror Ev)) as (msg & Hrun).
      rewrite Hrun. cbn [snd]. by apply IH.
Qed.

(** C8: assigning [retry] raises an assertion error, and changes nothing,
    when the delay of the action is not above zero (zero in particular) or the
    value is negative; it succeeds when the delay is positive and the value is
    not negative, the counter then holds the value; the shadow
    [_retry_backup] takes the value of the first assignment that succeeds and
    keeps it through the later ones. *)
Theorem C8_set_retry (w : World) (self : aid) (v : Z) :
  ((delay (actions w self) <= 0)%Q \/ (v < 0)%Z ->
     exists msg, set_retry self v w = (Raise (AssertionError msg), w)) /\
  ((0 < delay (actions w self))%Q -> (0 <= v)%Z ->
     exists w',
       set_retry self v w = (Ret tt, w') /\
       _retry (actions w' self) = v /\
       _retry_backup (actions w' self) =
         (if (_retry_backup (actions w self) =? -1)%Z then v
          else _retry_backup (actions w self))) /\
  ((0 < delay (actions w self))%Q ->
   _retry_backup (actions w self) = (-1)%Z ->
   forall vs : list Z,
     _retry_backup (actions (assignments self vs w) self) =
       match List.find (fun v => (0 <=? v)%Z) vs with
       | Some v0 => v0
       | None => (-1)%Z
       end).
Proof.
  split; [apply set_retry_rejected|]. split.
  - intros Hd Hv.
    destruct (set_retry_accepted w self v Hd Hv)
      as (w' & Hrun & _ & _ & _ & _ & _ & Hr & Hb).
    eauto.
  - intros Hd Hb vs. rewrite assignments_backup by done.
    by rewrite Hb.
Qed.

(** *** [reset] *)

Lemma reset_run (w : World) (self : aid) :
  exists w',
    reset self w = (Ret tt, w') /\
    trace w' = trace w /\
    (forall x, x <> self -> actions w' x = actions w x) /\
    _retry (actions w' self) = _retry_backup (actions w self) /\
    _retry_backup (actions w' self) = _retry_backup (actions w self) /\
    start_time (actions w' self) = None /\
    stop_time (actions w' self) = None /\
    worker (actions w' self) = None /\
    status_of w' self = NO_STATUS.
Proof.
  unfold reset, BaseEntity_reset, bind, read, update, ret.
  eexists. split; [reflexivity|].
  unfold status_of, action_status.
  cbn [actions with_actions trace]. rewrite !fn_lookup_insert.
  repeat split; try done.
  intros x Hx. by rewrite !fn_lookup_insert_ne.
Qed.

(** C10: an Action as [__init__] builds it has a counter of 0 and a shadow
    of -1; an assignment of [retry] that raises changes neither; and
    [reset] on an action whose shadow still is -1 (no assignment succeeded)
    returns with the counter at -1, a negative number, and with
    [start_time], [stop_time] and [worker] at [None]. *)
Theorem C10_reset_without_retry (w : World) (self : aid) :
  (forall b cmd t d,
     _retry (Action_init b cmd t d) = 0%Z /\
     _retry_backup (Action_init b cmd t d) = (-1)%Z) /\
  (forall v e w', set_retry self v w = (Raise e, w') -> w' = w) /\
  (_retry_backup (actions w self) = (-1)%Z ->
   exists w',
     reset self w = (Ret tt, w') /\
     get_retry self w' = (Ret (-1)%Z, w') /\
     (_retry (actions w' self) < 0)%Z /\
     start_time (actions w' self) = None /\
     stop_time (actions w' self) = None /\
     worker (actions w' self) = None).
Proof.
  split; [done|]. split.
  - intros v e w' Hrun.
    destruct (Qlt_le_dec 0 (delay (actions w self))) as [Hd|Hd].
    + destruct (Z_lt_le_dec v 0) as [Hv|Hv].
      * destruct (set_retry_rejected w self v (or_intror Hv)) as (msg & H).
        congruence.
      * destruct (set_retry_accepted w self v Hd Hv) as (w2 & H & _).
        congruence.
    + destruct (set_retry_rejected w self v (or_introl Hd)) as (msg & H).
      congruence.
  - intros Hb.
    destruct (reset_run w self) as (w' & Hrun & _ & _ & Hr & _ & Hs & Ht & Hw & _).
    exists w'. rewrite Hb in Hr.
    unfold get_retry, read. rewrite Hr. repeat split; try done.
Qed.

(** ** Runs of [prepare] and [update_status] *)

(** The call at hand is none of the four by which an action is dispatched. *)
Ltac not_dispatch :=
  let x := fresh "x" in
  let H := fresh "H" in
  intros x H; destruct H as [H|[H|[H|H]]]; done.

Lemma action_eta (a : Action) :
  with_status (action_status a) (with_start_time (start_time a) a) = a.
Proof. by destruct a as [[] ? ? ? ? ? ? ? ? ?]. Qed.

Lemma extends_refl (w : World) : extends w w.
Proof.
  split; try done.
  - intros x. exists (status_of w x), (start_time (actions w x)).
    symmetry. apply action_eta.
  - exists []. rewrite app_nil_r. split; [done|].
    repeat split; intros; exfalso; eapply not_elem_of_nil; eauto.
Qed.

Lemma extends_parents (w w' : World) (x : aid) :
  extends w w' -> parents_of w' x = parents_of w x.
Proof.
  intros H. destruct (ext_frame _ _ H x) as (s & t & E).
  unfold parents_of. by rewrite E.
Qed.

Lemma extends_children (w w' : World) (x : aid) :
  extends w w' -> children_of w' x = children_of w x.
Proof.
  intros H. destruct (ext_frame _ _ H x) as (s & t & E).
  unfold children_of. by rewrite E.
Qed.

Lemma extends_service (w w' : World) (x : aid) :
  extends w w' -> service (actions w' x) = service (actions w x).
Proof.
  intros H. destruct (ext_frame _ _ H x) as (s & t & E). by rewrite E.
Qed.

Lemma extends_no_status (w w' : World) (x : aid) :
  extends w w' -> status_of w' x = NO_STATUS -> status_of w x = NO_STATUS.
Proof.
  intros H E. destruct (decide (status_of w x = NO_STATUS)) as [|Hne]; [done|].
  rewrite (ext_sticky _ _ H x Hne) in E. done.
Qed.

Lemma is_ready_extends (w w' : World) (c : aid) :
  extends w w' -> is_ready w c = true -> is_ready w' c = true.
Proof.
  intros H. unfold is_ready. rewrite (extends_parents w w' c H).
  rewrite !forallb_forall. intros Hall d Hd.
  specialize (Hall d Hd). unfold dep_status in *.
  rewrite (ext_sticky _ _ H); [done|].
  intros E. rewrite E in Hall. done.
Qed.

Lemma extends_trans (w1 w2 w3 : World) :
  extends w1 w2 -> extends w2 w3 -> extends w1 w3.
Proof.
  intros H12 H23. split.
  - by rewrite (ext_services _ _ H23), (ext_services _ _ H12).
  - by rewrite (ext_manager _ _ H23), (ext_manager _ _ H12).
  - by rewrite (ext_now _ _ H23), (ext_now _ _ H12).
  - intros x. destruct (ext_frame _ _ H12 x) as (s1 & t1 & E1).
    destruct (ext_frame _ _ H23 x) as (s2 & t2 & E2).
    exists s2, t2. rewrite E2, E1. by destruct (actions w1 x) as [[] ? ? ? ? ? ? ? ? ?].
  - intros x Hx. rewrite (ext_sticky _ _ H23).
    + by apply (ext_sticky _ _ H12).
    + by rewrite (ext_sticky _ _ H12).
  - destruct (ext_trace _ _ H12) as (n1 & T1 & A1 & B1 & C1).
    destruct (ext_trace _ _ H23) as (n2 & T2 & A2 & B2 & C2).
    exists (n1 ++ n2). split; [by rewrite T2, T1, app_assoc|].
    split; [|split].
    + intros x c [Hin|Hin]%elem_of_app; [|by eapply A2].
      eapply is_ready_extends; [exact H23|]. by eapply A1.
    + intros x e [Hin|Hin]%elem_of_app Hd; [by eapply B1|].
      eapply extends_no_status; [exact H12|]. by eapply B2.
    + intros x ev [Hin|Hin]%elem_of_app; [by eapply C1|].
      eapply extends_no_status; [exact H12|]. by eapply C2.
Qed.

Lemma extends_call (e : Effect) (w : World) :
  (forall x c, e = notify_dep x c EV_TRIGGER_DEP -> is_ready w c = true) ->
  (forall x, is_dispatch_of x e -> status_of w x = NO_STATUS) ->
  (forall x ev, e = notify x ev -> status_of w x = NO_STATUS) ->
  extends w (snd (call e w)).
Proof.
  intros Ha Hb Hc. unfold call. cbn [snd]. split; try done.
  - intros x. exists (status_of w x), (start_time (actions w x)).
    symmetry. apply action_eta.
  - exists [e]. split; [done|].
    split; [|split].
    + intros x c Hin%list_elem_of_singleton. by eapply Ha.
    + intros x e' ->%list_elem_of_singleton. apply Hb.
    + intros x ev Hin%list_elem_of_singleton. by eapply Hc.
Qed.

Lemma status_of_written_eq (self : aid) (s : Status) (w : World) :
  status_of (status_written self s w) self = s.
Proof.
  unfold status_of, status_written. cbn [actions with_actions with_trace].
  by rewrite fn_lookup_insert.
Qed.

Lemma status_of_written_ne (self x : aid) (s : Status) (w : World) :
  x <> self -> status_of (status_written self s w) x = status_of w x.
Proof.
  intros Hne. unfold status_of, status_written.
  cbn [actions with_actions with_trace].
  by rewrite fn_lookup_insert_ne.
Qed.

Lemma actions_written_ne (self x : aid) (s : Status) (w : World) :
  x <> self -> actions (status_written self s w) x = actions w x.
Proof.
  intros Hne. unfold status_written. cbn [actions with_actions with_trace].
  by rewrite fn_lookup_insert_ne.
Qed.

Lemma actions_written_eq (self : aid) (s : Status) (w : World) :
  actions (status_written self s w) self = with_status s (actions w self).
Proof.
  unfold status_written. cbn [actions with_actions with_trace].
  by rewrite fn_lookup_insert.
Qed.

Lemma written_frame (self : aid) (s : Status) (w : World) (x : aid) :
  exists s' t, actions (status_written self s w) x
               = with_status s' (with_start_time t (actions w x)).
Proof.
  destruct (decide (x = self)) as [->|Hne].
  - exists s, (start_time (actions w self)). rewrite actions_written_eq.
    by destruct (actions w self) as [[] ? ? ? ? ? ? ? ? ?].
  - exists (status_of w x), (start_time (actions w x)).
    rewrite actions_written_ne by done. symmetry. apply action_eta.
Qed.

Lemma completion_notified_call (self : aid) (s : Status) (w : World) :
  call (notify self EV_COMPLETE) (status_written self s w)
  = (Ret tt, completion_notified self s w).
Proof.
  unfold call, status_written, completion_notified.
  cbn [trace with_trace with_actions actions services service_manager now].
  by rewrite <- app_assoc.
Qed.

Lemma actions_completion_notified (self : aid) (s : Status) (w : World) :
  actions (completion_notified self s w) = actions (status_written self s w).
Proof. done. Qed.

Lemma status_of_completion_notified (self x : aid) (s : Status) (w : World) :
  status_of (completion_notified self s w) x = status_of (status_written self s w) x.
Proof. done. Qed.

Lemma extends_completion_notified (self : aid) (s : Status) (w : World) :
  status_of w self = NO_STATUS -> extends w (completion_notified self s w).
Proof.
  intros Hno. split; try done.
  - apply written_frame.
  - intros x Hx. rewrite status_of_completion_notified.
    apply status_of_written_ne. congruence.
  - eexists. split; [reflexivity|].
    split; [|split].
    + intros x c Hin.
      repeat (apply elem_of_cons in Hin as [Hin|Hin]; [discriminate|]).
      by apply elem_of_nil in Hin.
    + intros x e Hin [-> | [-> | [-> | ->]]];
        repeat (apply elem_of_cons in Hin as [Hin|Hin]; [discriminate|]);
        by apply elem_of_nil in Hin.
    + intros x ev Hin.
      repeat (apply elem_of_cons in Hin as [Hin|Hin]; [congruence|]).
      by apply elem_of_nil in Hin.
Qed.

Lemma extends_bind {A B} (m : M A) (k : A -> M B) (w0 w : World) :
  extends w0 (snd (m w)) ->
  (forall x w', extends w0 w' -> extends w0 (snd (k x w'))) ->
  extends w0 (snd (bind m k w)).
Proof.
  intros Hm Hk. unfold bind. destruct (m w) as [[x|e|] w']; cbn [snd] in *; auto.
Qed.

Lemma extends_for_each {X} (l : list X) (body : X -> M unit) (w0 w : World) :
  (forall x w', extends w' (snd (body x w'))) ->
  extends w0 w -> extends w0 (snd (for_each l body w)).
Proof.
  intros Hbody. revert w. induction l as [|x l IH]; intros w Hw; simpl.
  - done.
  - apply extends_bind.
    + eapply extends_trans; [exact Hw|]. apply Hbody.
    + intros _ w' Hw'. by apply IH.
Qed.

(** *** [update_status] *)

Lemma update_status_with_rejected (prep : aid -> M unit) (self : aid)
    (s : Status) (w : World) :
  accepted s = false ->
  update_status_with prep self s w = (Raise (AssertionError "Bad action status"), w).
Proof.
  intros H. unfold update_status_with, bind, assert. unfold accepted in H.
  by rewrite H.
Qed.

Lemma update_status_with_accepted (prep : aid -> M unit) (self : aid)
    (s : Status) (w : World) :
  accepted s = true ->
  update_status_with prep self s w =
    if terminal s then hand_over prep self (completion_notified self s w)
    else (Ret tt, status_written self s w).
Proof.
  intros H. unfold update_status_with, bind, assert. unfold accepted in H.
  rewrite H. unfold ret, update, call, terminal. cbn [fst snd].
  fold (status_written self s w).
  destruct (negb (status_in s [NO_STATUS; WAITING_STATUS])); [|done].
  unfold hand_over, bind, call, status_written, completion_notified.
  cbn [trace with_trace with_actions actions services service_manager now].
  by rewrite <- app_assoc.
Qed.

Lemma trigger_children_extends (prep : aid -> M unit) (self : aid)
    (deps : list (string * Dependency)) (w : World) :
  (forall c w', extends w' (snd (prep c w'))) ->
  extends w (snd (trigger_children prep self deps w)).
Proof.
  intros Hprep. unfold trigger_children.
  apply extends_for_each; [|apply extends_refl].
  intros dep w'. unfold bind. cbn [fst snd].
  destruct (is_ready w' (target (snd dep))) eqn:Er; [|apply extends_refl].
  unfold call. cbn [fst snd].
  eapply extends_trans; [|apply Hprep].
  apply (extends_call (notify_dep self (target (snd dep)) EV_TRIGGER_DEP) w').
  - intros x c [= <- <-]. done.
  - not_dispatch.
  - intros x ev H. done.
Qed.

Lemma hand_over_extends (prep : aid -> M unit) (self : aid) (w : World) :
  (forall c w', extends w' (snd (prep c w'))) ->
  extends w (snd (hand_over prep self w)).
Proof.
  intros Hprep. unfold hand_over, bind, read. cbn [fst snd].
  destruct (children (base (actions w self))) as [|d ds] eqn:Ec.
  - destruct (service (actions w self)) as [s|]; [|apply extends_refl].
    apply extends_call; intros; try done.
    destruct H as [H|[H|[H|H]]]; done.
  - by apply trigger_children_extends.
Qed.

(** *** [schedule] *)

Lemma schedule_run (self : aid) (allow_delay : bool) (w : World) :
  exists w',
    schedule self allow_delay w = (Ret tt, w') /\
    services w' = services w /\ service_manager w' = service_manager w /\
    now w' = now w /\
    (forall x, x <> self -> actions w' x = actions w x) /\
    actions w' self =
      with_start_time (match start_time (actions w self) with
                       | None => Some (now w)
                       | Some t => Some t
                       end) (actions w self) /\
    trace w' = trace w ++
      (if delay_positive (actions w self) && allow_delay
       then [notify self EV_DELAYED; perform_delayed_action self]
       else [notify self EV_STARTED; perform_action self]).
Proof.
  unfold schedule, bind, read, datetime_now, update, call, ret.
  destruct (start_time (actions w self)) as [t|] eqn:Et; cbn [fst snd actions with_actions].
  - destruct (delay_positive (actions w self) && allow_delay);
      (eexists; split; [reflexivity|]);
      cbn [actions with_actions with_trace trace services service_manager now];
      rewrite <- app_assoc; repeat split; try done;
      rewrite <- Et; by destruct (actions w self).
  - rewrite fn_lookup_insert.
    assert (delay_positive (with_start_time (Some (now w)) (actions w self))
            = delay_positive (actions w self)) as -> by done.
    destruct (delay_positive (actions w self) && allow_delay);
      (eexists; split; [reflexivity|]);
      cbn [actions with_actions with_trace trace services service_manager now];
      rewrite <- app_assoc, ?fn_lookup_insert; repeat split; try done;
      intros x Hx; by rewrite fn_lookup_insert_ne.
Qed.

(** *** [prepare] *)

Lemma prepare_S (fuel : nat) (self : aid) (w : World) :
  prepare (S fuel) self w =
    if bool_decide (status_of w self = NO_STATUS)
       && negb (bool_decide (eval_deps_status w self = WAITING_STATUS))
    then
      if bool_decide (eval_deps_status w self = ERROR)
         || bool_decide (parents_of w self = [])
      then (update_status_with (prepare fuel) self WAITING_STATUS ;;
            schedule self true)%py w
      else if bool_decide (eval_deps_status w self = DONE)
      then update_status_with (prepare fuel) self DONE w
      else for_each (search_deps w self [NO_STATUS])
                    (fun dep => prepare fuel (target (snd dep))) w
    else (Ret tt, w).
Proof.
  cbn [prepare]. unfold bind at 1 2. cbn [fst snd]. unfold read at 1.
  fold (status_of w self).
  destruct (bool_decide (status_of w self = NO_STATUS)
            && negb (bool_decide (eval_deps_status w self = WAITING_STATUS)));
    [|done].
  unfold bind at 1. unfold read at 1. fold (parents_of w self).
  destruct (bool_decide (eval_deps_status w self = ERROR)
            || bool_decide (parents_of w self = [])); [done|].
  destruct (bool_decide (eval_deps_status w self = DONE)); [done|].
  done.
Qed.

Lemma mark_waiting_and_schedule (prep : aid -> M unit) (self : aid) (w : World) :
  (update_status_with prep self WAITING_STATUS ;; schedule self true)%py w =
  schedule self true (status_written self WAITING_STATUS w).
Proof.
  unfold bind. by rewrite update_status_with_accepted.
Qed.

Lemma extends_schedule_written (self : aid) (w : World) :
  status_of w self = NO_STATUS ->
  extends w (snd (schedule self true (status_written self WAITING_STATUS w))).
Proof.
  intros Hno.
  destruct (schedule_run self true (status_written self WAITING_STATUS w))
    as (w' & -> & Hs & Hm & Hn & Hother & Hself & Htr).
  cbn [snd]. split; try done.
  - intros x. destruct (decide (x = self)) as [->|Hne].
    + rewrite Hself, actions_written_eq.
      exists WAITING_STATUS,
        (match start_time (actions w self) with
         | Some t => Some t
         | None => Some (now w)
         end).
      by destruct (actions w self) as [[] ? ? ? ? ? ? ? ? ?].
    + rewrite Hother, actions_written_ne by done.
      exists (status_of w x), (start_time (actions w x)).
      symmetry. apply action_eta.
  - intros x Hx. assert (x <> self) as Hne by congruence.
    unfold status_of. rewrite Hother, actions_written_ne; done.
  - eexists. split.
    { rewrite Htr. unfold status_written at 1. cbn [trace with_trace].
      rewrite <- app_assoc. reflexivity. }
    split; [|split].
    + intros x c Hin. exfalso.
      destruct (delay_positive _ && true);
        repeat (apply elem_of_cons in Hin as [Hin|Hin]; [discriminate|]);
        by apply elem_of_nil in Hin.
    + intros x e Hin Hd.
      assert (x = self) as ->; [|done].
      destruct Hd as [-> | [-> | [-> | ->]]];
        destruct (delay_positive _ && true);
        repeat (apply elem_of_cons in Hin as [Hin|Hin]; [congruence|]);
        by apply elem_of_nil in Hin.
    + intros x ev Hin.
      assert (x = self) as ->; [|done].
      destruct (delay_positive _ && true);
        repeat (apply elem_of_cons in Hin as [Hin|Hin]; [congruence|]);
        by apply elem_of_nil in Hin.
Qed.

(** Every run of [prepare], whatever its fuel and its outcome, only moves
    the store forward. *)
Lemma prepare_extends (fuel : nat) (self : aid) (w : World) :
  extends w (snd (prepare fuel self w)).
Proof.
  revert self w. induction fuel as [|fuel IH]; intros self w.
  - apply extends_refl.
  - rewrite prepare_S.
    destruct (bool_decide (status_of w self = NO_STATUS)
              && negb (bool_decide (eval_deps_status w self = WAITING_STATUS)))
      eqn:Eguard; [|apply extends_refl].
    apply andb_true_iff in Eguard as [Hno%bool_decide_eq_true _].
    destruct (bool_decide (eval_deps_status w self = ERROR)
              || bool_decide (parents_of w self = [])).
    { rewrite mark_waiting_and_schedule. by apply extends_schedule_written. }
    destruct (bool_decide (eval_deps_status w self = DONE)).
    { rewrite update_status_with_accepted by done. cbn [terminal negb status_in].
      eapply extends_trans; [by apply (extends_completion_notified self DONE)|].
      apply hand_over_extends. intros c w'. apply IH. }
    apply extends_for_each; [|apply extends_refl].
    intros dep w'. apply IH.
Qed.

(** *** No assertion fails inside [prepare] *)

Lemma only_attribute_error_bind {A B} (m : M A) (k : A -> M B) (w : World) :
  only_attribute_error (fst (m w)) ->
  (forall x w', only_attribute_error (fst (k x w'))) ->
  only_attribute_error (fst (bind m k w)).
Proof.
  intros Hm Hk. unfold bind. destruct (m w) as [[x|e|] w']; cbn in *; auto.
Qed.

Lemma only_attribute_error_for_each {X} (l : list X) (body : X -> M unit)
    (w : World) :
  (forall x w', only_attribute_error (fst (body x w'))) ->
  only_attribute_error (fst (for_each l body w)).
Proof.
  intros Hbody. revert w. induction l as [|x l IH]; intros w; simpl; [done|].
  apply only_attribute_error_bind; auto.
Qed.

Lemma only_attribute_error_hand_over (prep : aid -> M unit) (self : aid)
    (w : World) :
  (forall c w', only_attribute_error (fst (prep c w'))) ->
  only_attribute_error (fst (hand_over prep self w)).
Proof.
  intros Hprep. unfold hand_over.
  apply only_attribute_error_bind; [done|]. intros deps w2.
  destruct deps as [|d ds].
  - apply only_attribute_error_bind; [done|]. intros svc w3.
    apply only_attribute_error_bind; [done|]. intros st w4.
    by destruct svc.
  - unfold trigger_children. apply only_attribute_error_for_each.
    intros dep w3. apply only_attribute_error_bind; [done|].
    intros [] w4; [|done].
    apply only_attribute_error_bind; [done|]. intros _ w5. apply Hprep.
Qed.

Lemma prepare_only_attribute_error (fuel : nat) (self : aid) (w : World) :
  only_attribute_error (fst (prepare fuel self w)).
Proof.
  revert self w. induction fuel as [|fuel IH]; intros self w; [done|].
  rewrite prepare_S.
  destruct (_ && _); [|done].
  destruct (_ || _).
  { rewrite mark_waiting_and_schedule.
    by destruct (schedule_run self true (status_written self WAITING_STATUS w))
      as (w' & -> & _). }
  destruct (bool_decide _).
  { rewrite update_status_with_accepted by done.
    apply only_attribute_error_hand_over. intros c w'. apply IH. }
  apply only_attribute_error_for_each. intros dep w'. apply IH.
Qed.

(** *** Termination on a well-formed graph *)

Lemma well_formed_extends dom rank bound (w w' : World) :
  extends w w' -> well_formed dom rank bound w -> well_formed dom rank bound w'.
Proof.
  intros Hext Hwf. split.
  - intros x d Hx. rewrite (extends_parents w w' x Hext). by apply (wf_parents _ _ _ _ Hwf).
  - intros x d Hx. rewrite (extends_children w w' x Hext). by apply (wf_children _ _ _ _ Hwf).
  - intros x d Hx. rewrite (extends_parents w w' x Hext). by apply (wf_rank _ _ _ _ Hwf).
  - apply (wf_bound _ _ _ _ Hwf).
  - intros x Hx. rewrite (extends_service w w' x Hext). by apply (wf_service _ _ _ _ Hwf).
Qed.

Lemma well_formed_completion_notified dom rank bound (self : aid) (s : Status)
    (w : World) :
  well_formed dom rank bound w ->
  well_formed dom rank bound (completion_notified self s w).
Proof.
  intros Hwf.
  assert (forall x, parents_of (completion_notified self s w) x = parents_of w x) as Hp.
  { intros x. destruct (written_frame self s w x) as (s' & t & E).
    unfold parents_of. rewrite actions_completion_notified, E. done. }
  assert (forall x, children_of (completion_notified self s w) x = children_of w x) as Hc.
  { intros x. destruct (written_frame self s w x) as (s' & t & E).
    unfold children_of. rewrite actions_completion_notified, E. done. }
  split.
  - intros x d Hx. rewrite Hp. by apply (wf_parents _ _ _ _ Hwf).
  - intros x d Hx. rewrite Hc. by apply (wf_children _ _ _ _ Hwf).
  - intros x d Hx. rewrite Hp. by apply (wf_rank _ _ _ _ Hwf).
  - apply (wf_bound _ _ _ _ Hwf).
  - intros x Hx. destruct (written_frame self s w x) as (s' & t & E).
    rewrite actions_completion_notified, E. by apply (wf_service _ _ _ _ Hwf).
Qed.

Lemma filter_length_le (P Q : aid -> Prop) `{!forall x, Decision (P x)}
    `{!forall x, Decision (Q x)} (l : list aid) :
  (forall x, x ∈ l -> Q x -> P x) ->
  length (filter Q l) <= length (filter P l).
Proof.
  induction l as [|y l IH]; intros Himp; [done|].
  rewrite !filter_cons.
  assert (length (filter Q l) <= length (filter P l)) as Hle.
  { apply IH. intros x Hx. apply Himp. by right. }
  destruct (decide (Q y)) as [Hq|Hq].
  - rewrite decide_True by (apply Himp; [by left|done]). simpl. lia.
  - destruct (decide (P y)); simpl; lia.
Qed.

Lemma filter_length_lt (P Q : aid -> Prop) `{!forall x, Decision (P x)}
    `{!forall x, Decision (Q x)} (l : list aid) (z : aid) :
  (forall x, x ∈ l -> Q x -> P x) ->
  z ∈ l -> P z -> ~ Q z ->
  length (filter Q l) < length (filter P l).
Proof.
  induction l as [|y l IH]; intros Himp Hz HP HQ.
  - by apply elem_of_nil in Hz.
  - rewrite !filter_cons.
    assert (length (filter Q l) <= length (filter P l)) as Hle.
    { apply filter_length_le. intros x Hx. apply Himp. by right. }
    apply elem_of_cons in Hz as [<-|Hz].
    + destruct (decide (Q z)); [done|]. destruct (decide (P z)); [|done].
      simpl. lia.
    + assert (length (filter Q l) < length (filter P l)) as Hlt.
      { apply IH; try done. intros x Hx. apply Himp. by right. }
      destruct (decide (Q y)) as [Hq|Hq].
      * rewrite decide_True by (apply Himp; [by left|done]). simpl. lia.
      * destruct (decide (P y)); simpl; lia.
Qed.

Lemma pending_extends dom (w w' : World) :
  extends w w' -> pending dom w' <= pending dom w.
Proof.
  intros Hext. unfold pending. apply filter_length_le.
  intros x _. by apply extends_no_status.
Qed.

Lemma pending_completion_notified_lt dom (self : aid) (s : Status) (w : World) :
  self ∈ dom -> status_of w self = NO_STATUS -> s <> NO_STATUS ->
  pending dom (completion_notified self s w) < pending dom w.
Proof.
  intros Hin Hno Hs. unfold pending. apply filter_length_lt with (z := self); try done.
  - intros x _. rewrite status_of_completion_notified.
    destruct (decide (x = self)) as [->|Hne]; [done|].
    by rewrite status_of_written_ne.
  - by rewrite status_of_completion_notified, status_of_written_eq.
Qed.

Lemma pending_completion_notified_le dom (self : aid) (s : Status) (w : World) :
  s <> NO_STATUS ->
  pending dom (completion_notified self s w) <= pending dom w.
Proof.
  intros Hs. unfold pending. apply filter_length_le.
  intros x _. rewrite status_of_completion_notified.
  destruct (decide (x = self)) as [->|Hne].
  - by rewrite status_of_written_eq.
  - by rewrite status_of_written_ne.
Qed.

Lemma for_each_returns {X} (l : list X) (body : X -> M unit)
    (P : X -> Prop) (w0 w : World) :
  (forall x w', P x -> extends w0 w' ->
     fst (body x w') = Ret tt /\ extends w' (snd (body x w'))) ->
  (forall x, x ∈ l -> P x) ->
  extends w0 w ->
  fst (for_each l body w) = Ret tt.
Proof.
  intros Hbody. revert w. induction l as [|x l IH]; intros w Hl Hw; simpl; [done|].
  destruct (Hbody x w) as [Hr He]; [apply Hl; by left|done|].
  unfold bind. destruct (body x w) as [r w1]. cbn [fst snd] in *. subst r.
  apply IH.
  - intros y Hy. apply Hl. by right.
  - by eapply extends_trans.
Qed.

Lemma hand_over_returns (prep : aid -> M unit) dom rank bound (self : aid)
    (w : World) :
  well_formed dom rank bound w -> self ∈ dom ->
  (forall c w', c ∈ dom -> extends w w' ->
     fst (prep c w') = Ret tt /\ extends w' (snd (prep c w'))) ->
  fst (hand_over prep self w) = Ret tt.
Proof.
  intros Hwf Hin Hprep. unfold hand_over, bind, call, read. cbn [fst snd].
  fold (children_of w self).
  destruct (children_of w self) as [|d ds] eqn:Ec.
  - destruct (wf_service _ _ _ _ Hwf self Hin) as [s ->]. done.
  - unfold trigger_children.
    apply for_each_returns
      with (P := fun dep : string * Dependency => target (snd dep) ∈ dom) (w0 := w).
    + intros dep w' Hdep Hw'. unfold bind. cbn [fst snd].
      destruct (is_ready w' (target (snd dep))) eqn:Er; [|split; [done|apply extends_refl]].
      unfold call. cbn [fst snd].
      set (w2 := with_trace _ w').
      assert (extends w' w2) as H2.
      { apply (extends_call (notify_dep self (target (snd dep)) EV_TRIGGER_DEP) w').
        - intros x c [= <- <-]. done.
        - not_dispatch.
        - intros x ev H. done. }
      destruct (Hprep (target (snd dep)) w2) as [Hr He]; [done| |].
      { by eapply extends_trans. }
      split; [done|]. by eapply extends_trans.
    + intros dep Hdep. apply (wf_children _ _ _ _ Hwf self); [done|].
      by rewrite Ec.
    + apply extends_refl.
Qed.

(** With fuel for the actions still without a status and for the height of
    the graph, [prepare] returns. *)
Lemma prepare_returns dom rank bound (fuel : nat) (self : aid) (w : World) :
  well_formed dom rank bound w -> self ∈ dom ->
  enough dom bound w (rank self) <= fuel ->
  fst (prepare fuel self w) = Ret tt.
Proof.
  revert self w. induction fuel as [|fuel IH]; intros self w Hwf Hin Hfuel.
  { unfold enough in Hfuel. lia. }
  rewrite prepare_S.
  destruct (bool_decide (status_of w self = NO_STATUS)
            && negb (bool_decide (eval_deps_status w self = WAITING_STATUS)))
    eqn:Eguard; [|done].
  apply andb_true_iff in Eguard as [Hno%bool_decide_eq_true _].
  pose proof (wf_bound _ _ _ _ Hwf self Hin) as Hb.
  destruct (bool_decide (eval_deps_status w self = ERROR)
            || bool_decide (parents_of w self = [])).
  { rewrite mark_waiting_and_schedule.
    by destruct (schedule_run self true (status_written self WAITING_STATUS w))
      as (w' & -> & _). }
  destruct (bool_decide (eval_deps_status w self = DONE)).
  { rewrite update_status_with_accepted by done. cbn [terminal negb status_in].
    assert (pending dom (completion_notified self DONE w) < pending dom w) as Hlt
      by (by apply pending_completion_notified_lt).
    apply (hand_over_returns _ dom rank bound);
      [by apply well_formed_completion_notified|done|].
    intros c w' Hc Hw'. split; [|apply prepare_extends].
    apply IH; [eapply well_formed_extends; [exact Hw'|];
               by apply well_formed_completion_notified|done|].
    pose proof (pending_extends dom _ _ Hw') as Hle.
    pose proof (wf_bound _ _ _ _ Hwf c Hc) as Hbc.
    unfold enough in *. nia. }
  apply for_each_returns
    with (P := fun dep : string * Dependency =>
                 target (snd dep) ∈ dom /\ rank (target (snd dep)) < rank self)
         (w0 := w).
  - intros dep w' [Hd Hr] Hw'. split; [|apply prepare_extends].
    apply IH; [by eapply well_formed_extends|done|].
    pose proof (pending_extends dom _ _ Hw') as Hle.
    unfold enough in *. nia.
  - intros dep Hdep. unfold search_deps in Hdep.
    apply list_elem_of_filter in Hdep as [_ Hdep].
    split; [by eapply (wf_parents _ _ _ _ Hwf self)|by eapply (wf_rank _ _ _ _ Hwf self)].
  - apply extends_refl.
Qed.

(** [update_status] with an accepted status returns as well. *)
Lemma update_status_returns dom rank bound (fuel : nat) (self : aid)
    (s : Status) (w : World) :
  well_formed dom rank bound w -> self ∈ dom -> accepted s = true ->
  enough dom bound w bound <= fuel ->
  fst (update_status fuel self s w) = Ret tt.
Proof.
  intros Hwf Hin Hs Hfuel. unfold update_status.
  rewrite update_status_with_accepted by done.
  destruct (terminal s) eqn:Et; [|done].
  assert (s <> NO_STATUS) as Hne by (intros ->; done).
  apply (hand_over_returns _ dom rank bound);
    [by apply well_formed_completion_notified|done|].
  intros c w' Hc Hw'. split; [|apply prepare_extends].
  apply (prepare_returns dom rank bound);
    [eapply well_formed_extends; [exact Hw'|];
     by apply well_formed_completion_notified|done|].
  pose proof (pending_extends dom _ _ Hw') as Hle.
  pose proof (pending_completion_notified_le dom self s w Hne) as Hle2.
  pose proof (wf_bound _ _ _ _ Hwf c Hc) as Hbc.
  unfold enough in *. nia.
Qed.

(** ** The case analysis of [prepare] *)


Lemma hand_over_keeps_status (fuel : nat) (self : aid) (s : Status) (w : World) :
  s <> NO_STATUS ->
  status_of (snd (hand_over (prepare fuel) self (completion_notified self s w))) self = s.
Proof.
  intros Hs.
  pose proof (hand_over_extends (prepare fuel) self (completion_notified self s w)
                (fun c w' => prepare_extends fuel c w')) as Hext.
  rewrite (ext_sticky _ _ Hext); rewrite status_of_completion_notified,
    status_of_written_eq; done.
Qed.

Lemma hand_over_trace (fuel : nat) (self : aid) (s : Status) (w : World) :
  s <> NO_STATUS ->
  exists new,
    trace (snd (hand_over (prepare fuel) self (completion_notified self s w))) =
      trace w ++ notify self EV_STATUS_CHANGED :: notify self EV_COMPLETE :: new /\
    (forall x c, notify_dep x c EV_TRIGGER_DEP ∈ new ->
       is_ready (snd (hand_over (prepare fuel) self (completion_notified self s w))) c = true) /\
    (forall e, e ∈ new -> ~ is_dispatch_of self e) /\
    (forall ev, notify self ev ∉ new).
Proof.
  intros Hs.
  pose proof (hand_over_extends (prepare fuel) self (completion_notified self s w)
                (fun c w' => prepare_extends fuel c w')) as Hext.
  destruct (ext_trace _ _ Hext) as (new & Htr & Ha & Hb & Hc).
  exists new. split.
  { rewrite Htr. unfold completion_notified. cbn [trace with_trace].
    by rewrite <- app_assoc. }
  split; [exact Ha|]. split.
  - intros e Hin Hd. specialize (Hb self e Hin Hd).
    rewrite status_of_completion_notified, status_of_written_eq in Hb. done.
  - intros ev Hin. specialize (Hc self ev Hin).
    rewrite status_of_completion_notified, status_of_written_eq in Hc. done.
Qed.


(** ** The guard and the notifications of [update_status] *)

Lemma accepted_iff (s : Status) :
  accepted s = true <->
  s ∈ [NO_STATUS; WAITING_STATUS; DONE; TIMED_OUT; TOO_MANY_ERRORS].
Proof.
  unfold accepted, status_in. rewrite bool_decide_eq_true.
  rewrite !elem_of_cons, !elem_of_nil. tauto.
Qed.

Lemma update_status_final_status (fuel : nat) (self : aid) (s : Status) (w : World) :
  accepted s = true ->
  status_of (snd (update_status fuel self s w)) self = s.
Proof.
  intros Hs. unfold update_status. rewrite update_status_with_accepted by done.
  destruct (terminal s) eqn:Et.
  - apply hand_over_keeps_status. by intros ->.
  - apply status_of_written_eq.
Qed.

Lemma update_status_only_attribute_error (fuel : nat) (self : aid) (s : Status)
    (w : World) :
  accepted s = true ->
  only_attribute_error (fst (update_status fuel self s w)).
Proof.
  intros Hs. unfold update_status. rewrite update_status_with_accepted by done.
  destruct (terminal s); [|done].
  apply only_attribute_error_hand_over. intros c w'.
  apply prepare_only_attribute_error.
Qed.

(** C5, as the code has it: [update_status] accepts NO_STATUS,
    WAITING_STATUS, DONE, TIMED_OUT and TOO_MANY_ERRORS: the status of the
    action is then the one given, no assertion fails, the call returns at once
    for NO_STATUS and WAITING_STATUS, and returns for the terminal ones on a
    well-formed graph with enough fuel.  For ERROR and for any other value
    the assertion fails and the store is left as it was. *)
Theorem C5_update_status_guard (fuel : nat) (self : aid) (s : Status) (w : World) :
  (s ∈ [NO_STATUS; WAITING_STATUS; DONE; TIMED_OUT; TOO_MANY_ERRORS] ->
     status_of (snd (update_status fuel self s w)) self = s /\
     only_attribute_error (fst (update_status fuel self s w)) /\
     (s = NO_STATUS \/ s = WAITING_STATUS ->
        update_status fuel self s w = (Ret tt, status_written self s w)) /\
     (forall dom rank bound,
        well_formed dom rank bound w -> self ∈ dom ->
        enough dom bound w bound <= fuel ->
        fst (update_status fuel self s w) = Ret tt)) /\
  (s ∉ [NO_STATUS; WAITING_STATUS; DONE; TIMED_OUT; TOO_MANY_ERRORS] ->
     update_status fuel self s w = (Raise (AssertionError "Bad action status"), w)).
Proof.
  split.
  - intros Hs%accepted_iff. split; [by apply update_status_final_status|].
    split; [by apply update_status_only_attribute_error|]. split.
    + intros Hnt. unfold update_status.
      rewrite update_status_with_accepted by done.
      by destruct Hnt as [-> | ->].
    + intros dom rank bound Hwf Hin Hfuel.
      by apply (update_status_returns dom rank bound).
  - intros Hs. unfold update_status. apply update_status_with_rejected.
    destruct (accepted s) eqn:E; [|done]. by apply accepted_iff in E.
Qed.

Lemma trigger_children_cons (prep : aid -> M unit) (self : aid)
    (d : string * Dependency) (ds : list (string * Dependency)) (w : World) :
  trigger_children prep self (d :: ds) w =
    if is_ready w (target (snd d))
    then (call (notify_dep self (target (snd d)) EV_TRIGGER_DEP) ;;
          prep (target (snd d)) ;;
          trigger_children prep self ds)%py w
    else trigger_children prep self ds w.
Proof.
  unfold trigger_children. cbn [for_each]. unfold bind at 1 2. cbn [fst snd].
  destruct (is_ready w (target (snd d))); [|done].
  unfold bind, call. cbn [fst snd].
  by destruct (prep _ _) as [[[]|e|] w'].
Qed.

(** C6: a call of [update_status] with an accepted status logs the
    STATUS_CHANGED notification of the action first; for a terminal status
    the COMPLETE notification of the action comes next, and everything else,
    the TRIGGER_DEP notifications among it, comes after these two, which are
    not repeated; every TRIGGER_DEP notification is for a successor that is
    ready; the loop over the successors skips a successor that is not ready,
    and for a ready one notifies TRIGGER_DEP and then calls its [prepare];
    with no successor the status goes to [update_status] of the owning
    service instead. *)
Theorem C6_update_status_order (fuel : nat) (self : aid) (s : Status) (w : World) :
  accepted s = true ->
  (terminal s = false ->
     update_status fuel self s w = (Ret tt, status_written self s w) /\
     trace (status_written self s w) = trace w ++ [notify self EV_STATUS_CHANGED]) /\
  (terminal s = true ->
     (exists new,
        trace (snd (update_status fuel self s w)) =
          trace w ++ notify self EV_STATUS_CHANGED :: notify self EV_COMPLETE :: new /\
        (forall ev, notify self ev ∉ new) /\
        (forall x c, notify_dep x c EV_TRIGGER_DEP ∈ new ->
           is_ready (snd (update_status fuel self s w)) c = true)) /\
     (children_of w self <> [] ->
        update_status fuel self s w =
          trigger_children (prepare fuel) self (children_of w self)
                           (completion_notified self s w)) /\
     (children_of w self = [] ->
        update_status fuel self s w =
          match service (actions w self) with
          | Some svc =>
              (Ret tt,
               with_trace (trace w ++ [notify self EV_STATUS_CHANGED;
                                       notify self EV_COMPLETE;
                                       service_update_status svc s])
                          (completion_notified self s w))
          | None => (Raise AttributeError, completion_notified self s w)
          end)) /\
  (forall prep d ds w',
     trigger_children prep self (d :: ds) w' =
       if is_ready w' (target (snd d))
       then (call (notify_dep self (target (snd d)) EV_TRIGGER_DEP) ;;
             prep (target (snd d)) ;;
             trigger_children prep self ds)%py w'
       else trigger_children prep self ds w').
Proof.
  intros Hs. unfold update_status. rewrite update_status_with_accepted by done.
  split; [|split].
  - intros ->. done.
  - intros Ht. rewrite Ht.
    assert (s <> NO_STATUS) as Hne by (intros ->; done).
    split; [|split].
    + destruct (hand_over_trace fuel self s w Hne) as (new & Htr & Hr & _ & Hn).
      exists new. done.
    + intros Hc. unfold hand_over, bind, read. cbn [fst snd].
      assert (children (base (actions (completion_notified self s w) self))
              = children_of w self) as ->.
      { destruct (written_frame self s w self) as (s' & t & E).
        unfold children_of. rewrite actions_completion_notified, E. done. }
      by destruct (children_of w self).
    + intros Hc. unfold hand_over, bind, read, call, raise. cbn [fst snd].
      assert (children (base (actions (completion_notified self s w) self))
              = children_of w self) as ->.
      { destruct (written_frame self s w self) as (s' & t & E).
        unfold children_of. rewrite actions_completion_notified, E. done. }
      rewrite Hc.
      rewrite actions_completion_notified, actions_written_eq.
      cbn [service with_status action_status base status base_with_status].
      destruct (service (actions w self)); [|done].
      f_equal. unfold completion_notified at 1. cbn [trace with_trace].
      by rewrite <- app_assoc.
  - intros prep d ds w'. apply trigger_children_cons.
Qed.

(** ** The close event *)

Lemma actions_closed_eq (self : aid) (wk : Worker) (w : World) :
  actions (closed self wk w) self =
    with_worker (Some wk) (with_stop_time (Some (now w)) (actions w self)).
Proof.
  unfold closed. cbn zeta. cbn [actions with_actions]. by rewrite fn_lookup_insert.
Qed.

Lemma actions_closed_ne (self x : aid) (wk : Worker) (w : World) :
  x <> self -> actions (closed self wk w) x = actions w x.
Proof.
  intros H. unfold closed. cbn zeta. cbn [actions with_actions].
  by rewrite !fn_lookup_insert_ne.
Qed.

Lemma base_closed (self x : aid) (wk : Worker) (w : World) :
  base (actions (closed self wk w) x) = base (actions w x) /\
  service (actions (closed self wk w) x) = service (actions w x).
Proof.
  destruct (decide (x = self)) as [->|Hne].
  - by rewrite actions_closed_eq.
  - by rewrite actions_closed_ne.
Qed.

Lemma status_of_closed (self x : aid) (wk : Worker) (w : World) :
  status_of (closed self wk w) x = status_of w x.
Proof.
  unfold status_of, action_status. by rewrite (proj1 (base_closed self x wk w)).
Qed.



(** [ev_close] after its first four statements. *)
Lemma ev_close_unfold (fuel : nat) (self : aid) (wk : Worker) (w : World) :
  ev_close fuel self wk w =
    let error := classified_error (actions w self) wk in
    let timed_out := classified_timed_out wk in
    let retry := _retry (actions w self) in
    if (error || timed_out) && (retry >? 0)%Z then
      (set_retry self (retry - 1)%Z ;; schedule self true)%py (closed self wk w)
    else if error then update_status fuel self TOO_MANY_ERRORS (closed self wk w)
    else if timed_out then update_status fuel self TIMED_OUT (closed self wk w)
    else update_status fuel self DONE (closed self wk w).
Proof.
  unfold ev_close, bind at 1 2 3 4, datetime_now, update, call. cbn [fst snd].
  cbn [actions with_actions with_trace trace now].
  set (w0 := with_actions _ _).
  assert (w0 = closed self wk w) as ->.
  { unfold w0, closed. cbn zeta.
    cbn [actions with_actions with_trace]. by rewrite fn_lookup_insert. }
  unfold bind at 1, has_too_many_errors, bind at 1 2, read, ret. cbn [fst snd].
  rewrite actions_closed_eq. cbn [worker with_worker base with_stop_time].
  unfold bind at 1, has_timed_out, bind at 1, read, ret. cbn [fst snd].
  rewrite actions_closed_eq. cbn [worker with_worker].
  unfold bind at 1, get_retry, read. cbn [fst snd].
  rewrite actions_closed_eq. cbn [_retry with_worker with_stop_time].
  fold (classified_error (actions w self) wk). fold (classified_timed_out wk).
  cbn zeta.
  destruct ((classified_error (actions w self) wk || classified_timed_out wk)
            && (_retry (actions w self) >? 0)%Z);
    [|destruct (classified_error (actions w self) wk); [done|];
      by destruct (classified_timed_out wk)].
  unfold bind at 1. cbn [fst snd]. rewrite actions_closed_eq.
  cbn [_retry with_worker with_stop_time]. done.
Qed.

(** *** The invariant of the retry counter *)

Lemma retry_invariant_init (b : BaseEntity) (cmd : option string) (t d : Q)
    (w : World) :
  retry_invariant (with_actions (fun _ => Action_init b cmd t d) w).
Proof. intros x [H|H]; cbn in H; lia. Qed.

Lemma retry_invariant_same (w w' : World) :
  (forall x, _retry (actions w' x) = _retry (actions w x) /\
             _retry_backup (actions w' x) = _retry_backup (actions w x) /\
             delay (actions w' x) = delay (actions w x)) ->
  retry_invariant w -> retry_invariant w'.
Proof.
  intros Hsame Hinv x. destruct (Hsame x) as (-> & -> & ->). apply Hinv.
Qed.

Lemma retry_invariant_extends (w w' : World) :
  extends w w' -> retry_invariant w -> retry_invariant w'.
Proof.
  intros Hext. apply retry_invariant_same. intros x.
  destruct (ext_frame _ _ Hext x) as (s & t & ->). done.
Qed.

Lemma retry_invariant_written (self : aid) (s : Status) (w : World) :
  retry_invariant w -> retry_invariant (completion_notified self s w) /\
                       retry_invariant (status_written self s w).
Proof.
  intros Hinv. split; (eapply retry_invariant_same; [|exact Hinv]); intros x;
    rewrite ?actions_completion_notified;
    destruct (written_frame self s w x) as (s' & t & ->); done.
Qed.

Lemma retry_invariant_closed (self : aid) (wk : Worker) (w : World) :
  retry_invariant w -> retry_invariant (closed self wk w).
Proof.
  apply retry_invariant_same. intros x.
  destruct (decide (x = self)) as [->|Hne].
  - by rewrite actions_closed_eq.
  - by rewrite actions_closed_ne.
Qed.

Lemma retry_invariant_set_retry (self : aid) (v : Z) (w : World) :
  retry_invariant w -> retry_invariant (snd (set_retry self v w)).
Proof.
  intros Hinv.
  destruct (Qlt_le_dec 0 (delay (actions w self))) as [Hd|Hd].
  - destruct (Z_lt_le_dec v 0) as [Hv|Hv].
    + destruct (set_retry_rejected w self v (or_intror Hv)) as (msg & ->). done.
    + destruct (set_retry_accepted w self v Hd Hv)
        as (w' & -> & _ & Hother & Hdelay & _). cbn [snd].
      intros x. destruct (decide (x = self)) as [->|Hne].
      * intros _. by rewrite Hdelay.
      * rewrite (Hother x Hne). apply Hinv.
  - destruct (set_retry_rejected w self v (or_introl Hd)) as (msg & ->). done.
Qed.

Lemma retry_invariant_schedule (self : aid) (allow_delay : bool) (w : World) :
  retry_invariant w -> retry_invariant (snd (schedule self allow_delay w)).
Proof.
  destruct (schedule_run self allow_delay w)
    as (w' & -> & _ & _ & _ & Hother & Hself & _). cbn [snd].
  apply retry_invariant_same. intros x.
  destruct (decide (x = self)) as [->|Hne].
  - by rewrite Hself.
  - by rewrite (Hother x Hne).
Qed.

Lemma retry_invariant_prepare (fuel : nat) (self : aid) (w : World) :
  retry_invariant w -> retry_invariant (snd (prepare fuel self w)).
Proof. apply retry_invariant_extends, prepare_extends. Qed.

Lemma retry_invariant_update_status (fuel : nat) (self : aid) (s : Status)
    (w : World) :
  retry_invariant w -> retry_invariant (snd (update_status fuel self s w)).
Proof.
  intros Hinv. unfold update_status.
  destruct (accepted s) eqn:Es.
  - rewrite update_status_with_accepted by done.
    destruct (retry_invariant_written self s w Hinv) as [Hc Hw].
    destruct (terminal s); [|done].
    eapply retry_invariant_extends; [|exact Hc].
    apply hand_over_extends. intros c w'. apply prepare_extends.
  - by rewrite update_status_with_rejected.
Qed.

Lemma retry_invariant_reset (self : aid) (w : World) :
  retry_invariant w -> retry_invariant (snd (reset self w)).
Proof.
  intros Hinv.
  destruct (reset_run w self) as (w' & Hrun & _ & Hother & Hr & Hb & _).
  rewrite Hrun. cbn [snd]. intros x.
  destruct (decide (x = self)) as [->|Hne].
  - rewrite Hr, Hb. intros H.
    assert (delay (actions w' self) = delay (actions w self)) as ->.
    { revert Hrun. unfold reset, BaseEntity_reset, bind, read, update, ret.
      intros [= <-]. cbn [actions with_actions]. by rewrite !fn_lookup_insert. }
    apply Hinv. right. tauto.
  - rewrite (Hother x Hne). apply Hinv.
Qed.

Lemma retry_invariant_ev_close (fuel : nat) (self : aid) (wk : Worker) (w : World) :
  retry_invariant w -> retry_invariant (snd (ev_close fuel self wk w)).
Proof.
  intros Hinv. rewrite ev_close_unfold. cbn zeta.
  pose proof (retry_invariant_closed self wk w Hinv) as Hc.
  destruct ((_ || _) && _).
  - unfold bind.
    pose proof (retry_invariant_set_retry self (_retry (actions w self) - 1)
                  (closed self wk w) Hc) as Hs.
    destruct (set_retry _ _ _) as [[[]|e|] w1]; cbn [snd] in *; try done.
    by apply retry_invariant_schedule.
  - destruct (classified_error _ _); [by apply retry_invariant_update_status|].
    destruct (classified_timed_out _); by apply retry_invariant_update_status.
Qed.


(** ** The fan-out of the Action Manager *)

Section ManagerFacts.

Variable fan : aid -> option Z.

Lemma effective_fanout_is_min (l : list aid) :
  ActionManager.min_of_set_fanouts fan l (ActionManager.effective_fanout fan l).
Proof.
  induction l as [|a l IH]; simpl.
  - intros a Ha. by apply elem_of_nil in Ha.
  - destruct (fan a) as [x|] eqn:Ea;
      destruct (ActionManager.effective_fanout fan l) as [y|] eqn:El; simpl in *.
    + destruct IH as [(b & Hb & Eb) Hmin]. split.
      * destruct (Z.min_spec x y) as [[_ ->]|[_ ->]].
        -- exists a. split; [by left|done].
        -- exists b. split; [by right|done].
      * intros c j [->|Hc]%elem_of_cons Ec.
        -- assert (j = x) as -> by congruence. lia.
        -- specialize (Hmin c j Hc Ec). lia.
    + split.
      * exists a. split; [by left|done].
      * intros c j [->|Hc]%elem_of_cons Ec.
        -- assert (j = x) as -> by congruence. lia.
        -- rewrite (IH c Hc) in Ec. done.
    + destruct IH as [(b & Hb & Eb) Hmin]. split.
      * exists b. split; [by right|done].
      * intros c j [->|Hc]%elem_of_cons Ec; [congruence|].
        by apply (Hmin c j).
    + intros c [->|Hc]%elem_of_cons; [done|]. by apply IH.
Qed.

Lemma run_recomputed (ops : list ActionManager.Op) (m : ActionManager.Manager) :
  ActionManager.fanout m = ActionManager.effective_fanout fan (ActionManager.running m) ->
  ActionManager.fanout (fold_left (ActionManager.step fan) ops m)
  = ActionManager.effective_fanout fan
      (ActionManager.running (fold_left (ActionManager.step fan) ops m)).
Proof.
  revert m. induction ops as [|o ops IH]; intros m Hm; simpl; [done|].
  apply IH. by destruct o.
Qed.

(** C3: after [add_task] and after [remove_task], from any state of the
    manager, and so after any sequence of them from the initial state, the
    fan-out of the manager is the minimum of the fan-outs that the running
    actions have set, actions without one being passed over, and is unset
    when no running action has one; [add_task] adds the action to the
    running set and [remove_task] takes it out; once the running set is
    empty the fan-out is unset. *)
Theorem C3_effective_fanout (m : ActionManager.Manager) (a : aid)
    (ops : list ActionManager.Op) :
  ActionManager.min_of_set_fanouts fan
    (ActionManager.running (ActionManager.add_task fan a m))
    (ActionManager.fanout (ActionManager.add_task fan a m)) /\
  ActionManager.min_of_set_fanouts fan
    (ActionManager.running (ActionManager.remove_task fan a m))
    (ActionManager.fanout (ActionManager.remove_task fan a m)) /\
  ActionManager.min_of_set_fanouts fan
    (ActionManager.running (ActionManager.run fan ops))
    (ActionManager.fanout (ActionManager.run fan ops)) /\
  (forall b, b ∈ ActionManager.running (ActionManager.add_task fan a m)
             <-> b = a \/ b ∈ ActionManager.running m) /\
  (forall b, b ∈ ActionManager.running (ActionManager.remove_task fan a m)
             <-> b <> a /\ b ∈ ActionManager.running m) /\
  (ActionManager.running (ActionManager.remove_task fan a m) = [] ->
     ActionManager.fanout (ActionManager.remove_task fan a m) = None) /\
  (ActionManager.running (ActionManager.run fan ops) = [] ->
     ActionManager.fanout (ActionManager.run fan ops) = None).
Proof.
  split; [apply effective_fanout_is_min|].
  split; [apply effective_fanout_is_min|].
  assert (ActionManager.fanout (ActionManager.run fan ops)
          = ActionManager.effective_fanout fan
              (ActionManager.running (ActionManager.run fan ops))) as Hrun
    by (by apply run_recomputed).
  split; [rewrite Hrun; apply effective_fanout_is_min|].
  split; [|split; [|split]].
  - intros b. unfold ActionManager.add_task, ActionManager.is_running_task.
    cbn [ActionManager.running].
    destruct (bool_decide (a ∈ ActionManager.running m)) eqn:E.
    + apply bool_decide_eq_true in E. split; [auto|]. by intros [->|].
    + rewrite elem_of_app, list_elem_of_singleton. tauto.
  - intros b. unfold ActionManager.remove_task. cbn [ActionManager.running].
    rewrite list_elem_of_filter. tauto.
  - unfold ActionManager.remove_task. cbn [ActionManager.running ActionManager.fanout].
    by intros ->.
  - intros E. rewrite Hrun, E. done.
Qed.

End ManagerFacts.

(** The fan-outs that [ActionManagerTest] expects. *)
Example test_add_task :
  ActionManager.fanout
    (ActionManager.run fan_test_add_task
       [ActionManager.Add 1; ActionManager.Add 2; ActionManager.Add 3;
        ActionManager.Add 3]) = Some 12%Z /\
  ActionManager.fanout
    (ActionManager.run fan_test_add_task
       [ActionManager.Add 1; ActionManager.Add 2; ActionManager.Add 3;
        ActionManager.Add 3; ActionManager.Add 4]) = Some 3%Z.
Proof. split; reflexivity. Qed.

Example test_add_task_weird_values :
  ActionManager.fanout
    (ActionManager.run fan_test_weird_values
       [ActionManager.Add 1; ActionManager.Add 2; ActionManager.Add 3])
  = Some 50%Z.
Proof. reflexivity. Qed.

Example test_remove_task :
  let added := [ActionManager.Add 1; ActionManager.Add 2; ActionManager.Add 3;
                ActionManager.Add 4] in
  ActionManager.fanout
    (ActionManager.run fan_test_remove_task (added ++ [ActionManager.Remove 2]))
    = Some 85%Z /\
  ActionManager.fanout
    (ActionManager.run fan_test_remove_task
       (added ++ [ActionManager.Remove 2; ActionManager.Remove 3]))
    = Some 148%Z /\
  ActionManager.fanout
    (ActionManager.run fan_test_remove_task
       (added ++ [ActionManager.Remove 2; ActionManager.Remove 3;
                  ActionManager.Remove 4]))
    = Some 260%Z /\
  ActionManager.fanout
    (ActionManager.run fan_test_remove_task
       (added ++ [ActionManager.Remove 2; ActionManager.Remove 3;
                  ActionManager.Remove 4; ActionManager.Remove 1]))
    = None.
Proof. repeat split; vm_compute; reflexivity. Qed.

(** ** The command resolver *)

Module ResolverFacts.
Import Resolver.

(** *** Strings *)

Lemma append_cons (c : ascii) (s t : string) : String c s +:+ t = String c (s +:+ t).
Proof. reflexivity. Qed.

Lemma append_empty_l (t : string) : EmptyString +:+ t = t.
Proof. reflexivity. Qed.

Lemma append_empty_r (s : string) : s +:+ EmptyString = s.
Proof. induction s as [|c s IH]; [done|]. by rewrite append_cons, IH. Qed.

Lemma append_assoc (a b c : string) : (a +:+ b) +:+ c = a +:+ (b +:+ c).
Proof. induction a as [|x a IH]; [done|]. by rewrite !append_cons, IH. Qed.

Lemma is_dollar_eq (c : ascii) : is_dollar c = true -> c = "$"%char.
Proof. apply Ascii.eqb_eq. Qed.

Lemma is_word_not_dollar (c : ascii) : is_word c = true -> is_dollar c = false.
Proof.
  intros Hw. destruct (is_dollar c) eqn:E; [|done].
  apply is_dollar_eq in E. subst c. done.
Qed.

Lemma all_word_no_dollar (n : string) : all_word n = true -> has_dollar n = false.
Proof.
  induction n as [|c n IH]; [done|]. simpl.
  intros [Hc Hn]%andb_true_iff. by rewrite (is_word_not_dollar c Hc), IH.
Qed.

Lemma word_split (s : string) : s = word_prefix s +:+ word_rest s.
Proof.
  induction s as [|c s IH]; [done|]. simpl.
  destruct (is_word c); [|done]. by rewrite append_cons, <- IH.
Qed.

Lemma word_prefix_all_word (s : string) : all_word (word_prefix s) = true.
Proof.
  induction s as [|c s IH]; [done|]. simpl.
  destruct (is_word c) eqn:E; [|done]. simpl. by rewrite E.
Qed.

Lemma word_rest_head (s : string) :
  match word_rest s with
  | String c _ => is_word c = false
  | EmptyString => True
  end.
Proof.
  induction s as [|c s IH]; [done|]. simpl.
  destruct (is_word c) eqn:E; [done|]. done.
Qed.

Lemma word_rest_length (s : string) : String.length (word_rest s) <= String.length s.
Proof.
  induction s as [|c s IH]; [done|]. simpl.
  destruct (is_word c); simpl; lia.
Qed.

Lemma word_prefix_empty_head (s : string) :
  word_prefix s = EmptyString ->
  match s with
  | String c _ => is_word c = false
  | EmptyString => True
  end.
Proof. destruct s as [|c s]; [done|]. simpl. by destruct (is_word c). Qed.

(** *** [findall] *)

Lemma findall_dollar (s : string) :
  findall (String "$" s) =
    match word_prefix s with
    | EmptyString => findall s
    | String c n => String "$" (String c n) :: findall s
    end.
Proof. reflexivity. Qed.

Lemma findall_other (c : ascii) (s : string) :
  is_dollar c = false -> findall (String c s) = findall s.
Proof. intros H. simpl. by rewrite H. Qed.

Lemma findall_word_app (m r : string) :
  all_word m = true -> findall (m +:+ r) = findall r.
Proof.
  induction m as [|c m IH]; [done|]. cbn [all_word].
  intros [Hc Hm]%andb_true_iff. rewrite append_cons.
  rewrite findall_other by (by apply is_word_not_dollar). by apply IH.
Qed.

Lemma findall_tokens (s : string) (t : string) :
  t ∈ findall s -> exists n, t = String "$" n /\ is_name n /\ lstrip "$" t = n.
Proof.
  induction s as [|c s IH]; simpl.
  - intros H. by apply elem_of_nil in H.
  - destruct (is_dollar c) eqn:Ec; [|done].
    apply is_dollar_eq in Ec. subst c.
    destruct (word_prefix s) as [|x n] eqn:Ew; [done|].
    intros [->|Hin]%elem_of_cons; [|by apply IH].
    exists (String x n). split; [done|].
    pose proof (word_prefix_all_word s) as Hall. rewrite Ew in Hall.
    split; [split; [done|done]|].
    simpl in Hall. apply andb_true_iff in Hall as [Hx _].
    apply is_word_not_dollar in Hx. unfold is_dollar in Hx.
    simpl. by rewrite Hx.
Qed.

(** *** [sub] on the text of a token *)

Lemma starts_with_app (p r : string) : starts_with p (p +:+ r) = true.
Proof.
  induction p as [|c p IH]; [done|]. rewrite append_cons. cbn [starts_with].
  by rewrite Ascii.eqb_refl, IH.
Qed.

Lemma starts_with_app_inv (n m x : string) :
  starts_with n (m +:+ x) = true ->
  starts_with n m = true \/ starts_with m n = true.
Proof.
  revert m. induction n as [|c n IH]; intros m; [by left|].
  destruct m as [|d m]; [by right|].
  rewrite append_cons. cbn [starts_with].
  intros [Hc Hn]%andb_true_iff. apply Ascii.eqb_eq in Hc. subst d.
  rewrite Ascii.eqb_refl. cbn [andb]. by apply IH.
Qed.

Lemma sub_literal_skip (pat v p r : string) :
  sub_literal pat v (String.length p) (p +:+ r) = sub_literal pat v 0 r.
Proof. induction p as [|c p IH]; [done|]. rewrite append_cons. cbn. apply IH. Qed.

Lemma sub_literal_no_dollar (n v u r : string) :
  has_dollar u = false ->
  sub_literal (String "$" n) v 0 (u +:+ r) = u +:+ sub_literal (String "$" n) v 0 r.
Proof.
  induction u as [|c u IH]; [done|]. cbn [has_dollar].
  intros [Hc Hu]%orb_false_iff. rewrite !append_cons. cbn [sub_literal starts_with].
  unfold is_dollar in Hc. rewrite Ascii.eqb_sym in Hc. rewrite Hc. cbn [andb].
  by rewrite IH.
Qed.

Lemma sub_literal_match (n v r : string) :
  sub_literal (String "$" n) v 0 (String "$" n +:+ r)
  = v +:+ sub_literal (String "$" n) v 0 r.
Proof.
  rewrite append_cons. cbn [sub_literal].
  change (String "$" (n +:+ r)) with (String "$" n +:+ r).
  rewrite starts_with_app. cbn [String.length]. rewrite Nat.sub_1_r. cbn [Nat.pred].
  by rewrite sub_literal_skip.
Qed.

Lemma sub_literal_miss (pat v : string) (c : ascii) (s : string) :
  starts_with pat (String c s) = false ->
  sub_literal pat v 0 (String c s) = String c (sub_literal pat v 0 s).
Proof. intros H. cbn [sub_literal]. by rewrite H. Qed.

(** *** The passes *)

Lemma expand_partial_skip (f : string -> option string) (p r : string) :
  expand_partial f (String.length p) (p +:+ r) = expand_partial f 0 r.
Proof. induction p as [|c p IH]; [done|]. rewrite append_cons. cbn. apply IH. Qed.

Lemma expand_partial_word (f : string -> option string) (m r : string) :
  all_word m = true -> expand_partial f 0 (m +:+ r) = m +:+ expand_partial f 0 r.
Proof.
  induction m as [|c m IH]; [done|]. cbn [all_word].
  intros [Hc Hm]%andb_true_iff. rewrite !append_cons. cbn [expand_partial].
  rewrite (is_word_not_dollar c Hc). by rewrite IH.
Qed.

Lemma expand_tokens_skip (value : string -> string) (p r : string) :
  expand_tokens value (String.length p) (p +:+ r) = expand_tokens value 0 r.
Proof. induction p as [|c p IH]; [done|]. rewrite append_cons. cbn. apply IH. Qed.

Lemma expand_partial_other (f : string -> option string) (c : ascii) (s : string) :
  is_dollar c = false ->
  expand_partial f 0 (String c s) = String c (expand_partial f 0 s).
Proof. intros H. cbn [expand_partial]. by rewrite H. Qed.

Lemma expand_partial_stray (f : string -> option string) (s : string) :
  word_prefix s = EmptyString ->
  expand_partial f 0 (String "$" s) = String "$" (expand_partial f 0 s).
Proof. intros H. cbn [expand_partial]. rewrite H. done. Qed.

Lemma expand_partial_token (f : string -> option string) (s : string)
    (x : ascii) (m : string) :
  word_prefix s = String x m ->
  expand_partial f 0 (String "$" s) =
    match f (String x m) with
    | Some u => u +:+ expand_partial f 0 (word_rest s)
    | None => String "$" (String x m +:+ expand_partial f 0 (word_rest s))
    end.
Proof.
  intros H. cbn [expand_partial]. rewrite H.
  change (is_dollar "$") with true. cbn match.
  pose proof (word_split s) as Hs. rewrite H in Hs.
  pose proof (word_prefix_all_word s) as Hall. rewrite H in Hall.
  destruct (f (String x m)) as [u|].
  - rewrite Hs at 1. by rewrite expand_partial_skip.
  - rewrite Hs at 1. by rewrite expand_partial_word.
Qed.

Lemma expand_tokens_other (value : string -> string) (c : ascii) (s : string) :
  is_dollar c = false ->
  expand_tokens value 0 (String c s) = String c (expand_tokens value 0 s).
Proof. intros H. cbn [expand_tokens]. by rewrite H. Qed.

Lemma expand_tokens_stray (value : string -> string) (s : string) :
  word_prefix s = EmptyString ->
  expand_tokens value 0 (String "$" s) = String "$" (expand_tokens value 0 s).
Proof. intros H. cbn [expand_tokens]. rewrite H. done. Qed.

Lemma expand_tokens_token (value : string -> string) (s : string)
    (x : ascii) (m : string) :
  word_prefix s = String x m ->
  expand_tokens value 0 (String "$" s) =
    value (String x m) +:+ expand_tokens value 0 (word_rest s).
Proof.
  intros H. cbn [expand_tokens]. rewrite H.
  change (is_dollar "$") with true. cbn match.
  pose proof (word_split s) as Hs. rewrite H in Hs.
  rewrite Hs at 1. by rewrite expand_tokens_skip.
Qed.

Lemma expand_partial_ext (f g : string -> option string) (k : nat) (s : string) :
  (forall m, f m = g m) -> expand_partial f k s = expand_partial g k s.
Proof.
  intros Hfg. revert k. induction s as [|c s IH]; intros k; [done|].
  cbn [expand_partial]. destruct k as [|k]; [|apply IH].
  destruct (is_dollar c); [|by rewrite IH].
  destruct (word_prefix s) as [|x m]; [by rewrite IH|].
  rewrite Hfg. destruct (g (String x m)); by rewrite ?IH.
Qed.

Lemma expand_partial_none (s : string) : expand_partial (fun _ => None) 0 s = s.
Proof.
  induction s as [|c s IH]; [done|]. cbn [expand_partial].
  destruct (is_dollar c); [|by rewrite IH].
  destruct (word_prefix s); by rewrite IH.
Qed.

Lemma no_double_dollar_tail (c : ascii) (s : string) :
  no_double_dollar (String c s) = true -> no_double_dollar s = true.
Proof. cbn [no_double_dollar]. by intros [_ H]%andb_true_iff. Qed.

Lemma no_double_dollar_app_r (m r : string) :
  no_double_dollar (m +:+ r) = true -> no_double_dollar r = true.
Proof.
  induction m as [|c m IH]; [done|]. rewrite append_cons.
  intros H%no_double_dollar_tail. by apply IH.
Qed.

Lemma no_double_dollar_head (s : string) :
  no_double_dollar (String "$" s) = true ->
  match s with
  | String c _ => is_dollar c = false
  | EmptyString => True
  end.
Proof.
  cbn [no_double_dollar]. change (is_dollar "$") with true. cbn match.
  destruct s as [|c s]; [done|].
  intros [H _]%andb_true_iff. by apply negb_true_iff in H.
Qed.

Lemma starts_with_name_other (n : string) (c : ascii) (s : string) :
  is_name n -> is_word c = false -> starts_with n (String c s) = false.
Proof.
  intros [Hne Hall] Hc. destruct n as [|x n]; [done|].
  cbn [all_word] in Hall. apply andb_true_iff in Hall as [Hx _].
  cbn [starts_with]. destruct (Ascii.eqb x c) eqn:E; [|done].
  apply Ascii.eqb_eq in E. congruence.
Qed.

Lemma starts_with_dollar (n s : string) :
  starts_with (String "$" n) (String "$" s) = starts_with n s.
Proof. reflexivity. Qed.

Lemma starts_with_dollar_other (n : string) (c : ascii) (s : string) :
  is_dollar c = false -> starts_with (String "$" n) (String c s) = false.
Proof.
  intros H. cbn [starts_with]. unfold is_dollar in H.
  rewrite Ascii.eqb_sym in H. by rewrite H.
Qed.

(** One substitution of [resolved_command] on a command in which the names
    of [f] have their values already: the name [n] gets its value too. *)
Lemma sub_expand_partial (n v : string) (f : string -> option string) :
  is_name n -> has_dollar v = false ->
  (forall m u, f m = Some u -> has_dollar u = false) ->
  (f n = None \/ f n = Some v) ->
  forall s,
    no_double_dollar s = true ->
    (forall t, t ∈ findall s -> t <> String "$" n ->
       starts_with (String "$" n) t = false /\ starts_with t (String "$" n) = false) ->
    sub_literal (String "$" n) v 0 (expand_partial f 0 s) =
    expand_partial (fun m => if bool_decide (m = n) then Some v else f m) 0 s.
Proof.
  intros Hname Hv Hf Hfn s.
  remember (String.length s) as k eqn:Hk. revert s Hk.
  induction k as [k IH] using lt_wf_ind. intros s Hk Hdd Hapart.
  destruct s as [|c s]; [done|].
  destruct (is_dollar c) eqn:Ec.
  2:{ rewrite !expand_partial_other by done.
      rewrite sub_literal_miss by (by apply starts_with_dollar_other).
      f_equal. apply (IH (String.length s)); [subst k; simpl; lia|done| |].
      - by eapply no_double_dollar_tail.
      - intros t Ht. apply Hapart. by rewrite findall_other. }
  apply is_dollar_eq in Ec. subst c.
  destruct (word_prefix s) as [|x m] eqn:Ew.
  - rewrite !expand_partial_stray by done.
    rewrite sub_literal_miss.
    + f_equal. apply (IH (String.length s)); [subst k; simpl; lia|done| |].
      * by eapply no_double_dollar_tail.
      * intros t Ht. apply Hapart. by rewrite findall_dollar, Ew.
    + rewrite starts_with_dollar.
      pose proof (word_prefix_empty_head s Ew) as Hhead.
      pose proof (no_double_dollar_head s Hdd) as Hnd.
      destruct s as [|c' s'].
      * destruct Hname as [Hne _]. by destruct n.
      * rewrite expand_partial_other by done.
        by apply starts_with_name_other.
  - pose proof (word_split s) as Hs. rewrite Ew in Hs.
    pose proof (word_prefix_all_word s) as Hall. rewrite Ew in Hall.
    pose proof (word_rest_length s) as Hlen.
    assert (no_double_dollar (word_rest s) = true) as Hddr.
    { apply (no_double_dollar_app_r (String x m)). rewrite <- Hs.
      by eapply no_double_dollar_tail. }
    assert (findall (String "$" s) = String "$" (String x m) :: findall (word_rest s))
      as Hfind.
    { rewrite findall_dollar, Ew. f_equal.
      rewrite Hs at 1. by apply findall_word_app. }
    assert (forall t, t ∈ findall (word_rest s) -> t <> String "$" n ->
              starts_with (String "$" n) t = false
              /\ starts_with t (String "$" n) = false) as Hapart'.
    { intros t Ht. apply Hapart. rewrite Hfind. by right. }
    assert (sub_literal (String "$" n) v 0 (expand_partial f 0 (word_rest s)) =
            expand_partial (fun m0 => if bool_decide (m0 = n) then Some v else f m0)
                           0 (word_rest s)) as Hrest.
    { apply (IH (String.length (word_rest s))); [subst k; simpl; lia|done|done|done]. }
    rewrite !(expand_partial_token _ s x m Ew).
    destruct (decide (String x m = n)) as [Heq|Hneq].
    + rewrite (bool_decide_eq_true_2 _ Heq). rewrite Heq.
      destruct Hfn as [Hnone|Hsome].
      * rewrite Hnone.
        change (String "$" (n +:+ expand_partial f 0 (word_rest s)))
          with (String "$" n +:+ expand_partial f 0 (word_rest s)).
        by rewrite sub_literal_match, Hrest.
      * rewrite Hsome. by rewrite sub_literal_no_dollar, Hrest.
    + rewrite (bool_decide_eq_false_2 _ Hneq).
      destruct (f (String x m)) as [u|] eqn:Efm.
      * rewrite sub_literal_no_dollar by (by eapply Hf). by rewrite Hrest.
      * destruct (Hapart (String "$" (String x m))) as [Hns Hsn].
        { rewrite Hfind. by left. }
        { congruence. }
        rewrite sub_literal_miss.
        -- f_equal. rewrite sub_literal_no_dollar by (by apply all_word_no_dollar).
           by rewrite Hrest.
        -- rewrite starts_with_dollar.
           destruct (starts_with n (String x m +:+ expand_partial f 0 (word_rest s)))
             eqn:E; [|done].
           apply starts_with_app_inv in E as [E|E].
           ++ rewrite starts_with_dollar in Hns. congruence.
           ++ rewrite starts_with_dollar in Hsn. congruence.
Qed.

(** With a value for every token, the partial pass is the single pass. *)
Lemma expand_partial_all (f : string -> option string) (value : string -> string) :
  forall s,
    (forall m, String "$" m ∈ findall s -> f m = Some (value m)) ->
    expand_partial f 0 s = expand_tokens value 0 s.
Proof.
  intros s. remember (String.length s) as k eqn:Hk. revert s Hk.
  induction k as [k IH] using lt_wf_ind. intros s Hk Hall.
  destruct s as [|c s]; [done|].
  destruct (is_dollar c) eqn:Ec.
  2:{ rewrite expand_partial_other, expand_tokens_other by done. f_equal.
      apply (IH (String.length s)); [subst k; simpl; lia|done|].
      intros m Hm. apply Hall. by rewrite findall_other. }
  apply is_dollar_eq in Ec. subst c.
  destruct (word_prefix s) as [|x m] eqn:Ew.
  - rewrite expand_partial_stray, expand_tokens_stray by done. f_equal.
    apply (IH (String.length s)); [subst k; simpl; lia|done|].
    intros m Hm. apply Hall. by rewrite findall_dollar, Ew.
  - pose proof (word_split s) as Hs. rewrite Ew in Hs.
    pose proof (word_prefix_all_word s) as Hword. rewrite Ew in Hword.
    pose proof (word_rest_length s) as Hlen.
    assert (findall (String "$" s) = String "$" (String x m) :: findall (word_rest s))
      as Hfind.
    { rewrite findall_dollar, Ew. f_equal.
      rewrite Hs at 1. by apply findall_word_app. }
    rewrite (expand_partial_token _ s x m Ew), (expand_tokens_token _ s x m Ew).
    rewrite (Hall (String x m)) by (rewrite Hfind; by left).
    f_equal. apply (IH (String.length (word_rest s))); [subst k; simpl; lia|done|].
    intros m' Hm'. apply Hall. rewrite Hfind. by right.
Qed.

Lemma symbol_value_lookup (w : World) (a : Action) (n v : string) :
  symbol_value w a n = Some v ->
  lookup_symbol w a n = Some (PyStr v) /\ has_backslash v = false.
Proof.
  unfold symbol_value. destruct (lookup_symbol w a n) as [[u|]|]; try done.
  destruct (has_backslash u) eqn:E; [done|]. by intros [= ->].
Qed.

Lemma values_of_cons (w : World) (a : Action) (n v : string) (seen : list string) :
  symbol_value w a n = Some v ->
  forall m,
    (if bool_decide (m = n) then Some v else values_of w a seen m)
    = values_of w a (n :: seen) m.
Proof.
  intros Hv m. unfold values_of.
  destruct (decide (m = n)) as [->|Hne].
  - rewrite (bool_decide_eq_true_2 (n = n)) by done.
    rewrite (bool_decide_eq_true_2 (n ∈ n :: seen)) by (by left). done.
  - rewrite (bool_decide_eq_false_2 (m = n)) by done.
    destruct (decide (m ∈ seen)) as [Hin|Hnin].
    + rewrite !bool_decide_eq_true_2; [done|by right|done].
    + rewrite !bool_decide_eq_false_2; [done| |done].
      by intros [?|?]%elem_of_cons.
Qed.

(** The loop of [resolved_command], started on a command in which the names
    [seen] have their values, ends on the command in which the names of
    the remaining symbols have theirs too. *)
Lemma resolve_symbols_expand (w : World) (a : Action) (cmd : string) :
  no_double_dollar cmd = true ->
  (forall t1 t2, t1 ∈ findall cmd -> t2 ∈ findall cmd ->
     starts_with t1 t2 = true -> t1 = t2) ->
  (forall t, t ∈ findall cmd ->
     exists v, symbol_value w a (lstrip "$" t) = Some v /\ has_dollar v = false) ->
  forall syms seen,
    (forall t, t ∈ syms -> t ∈ findall cmd) ->
    (forall m, m ∈ seen -> String "$" m ∈ findall cmd) ->
    resolve_symbols w a cmd syms (expand_partial (values_of w a seen) 0 cmd) =
    Returns (expand_partial
               (values_of w a (rev (map (lstrip "$") syms) ++ seen)) 0 cmd).
Proof.
  intros Hdd Hfree Hvals syms.
  induction syms as [|sym rest IH]; intros seen Hsyms Hseen; [done|].
  assert (sym ∈ findall cmd) as Hsym by (apply Hsyms; by left).
  destruct (findall_tokens cmd sym Hsym) as (n & -> & Hname & Hstrip).
  destruct (Hvals _ Hsym) as (v & Hv & Hvd). rewrite Hstrip in Hv.
  destruct (symbol_value_lookup w a n v Hv) as [Hlook Hbs].
  cbn [resolve_symbols]. rewrite Hstrip, Hlook. unfold sub. rewrite Hbs.
  rewrite (sub_expand_partial n v (values_of w a seen)); try done.
  - rewrite (expand_partial_ext _ (values_of w a (n :: seen)))
      by (by apply values_of_cons).
    rewrite IH.
    + cbn [map rev]. rewrite Hstrip. by rewrite <- List.app_assoc.
    + intros t Ht. apply Hsyms. by right.
    + intros m [->|Hm]%elem_of_cons; [done|by apply Hseen].
  - intros m u. unfold values_of.
    destruct (bool_decide (m ∈ seen)) eqn:E; [|done].
    apply bool_decide_eq_true in E. intros Hm.
    destruct (Hvals _ (Hseen m E)) as (u' & Hu' & Hud).
    destruct (findall_tokens cmd _ (Hseen m E)) as (m' & [= <-] & _ & Hstrip').
    rewrite Hstrip' in Hu'. congruence.
  - unfold values_of. destruct (bool_decide (n ∈ seen)); [by right|by left].
  - intros t Ht Hne. split.
    + destruct (starts_with (String "$" n) t) eqn:E; [|done].
      exfalso. apply Hne. symmetry. by apply Hfree.
    + destruct (starts_with t (String "$" n)) eqn:E; [|done].
      exfalso. apply Hne. by apply Hfree.
Qed.

(** *** The order of the lookups and the undefined variable *)

Lemma lookup_symbol_first_match (w : World) (a : Action) (n : string) :
  lookup_symbol w a n = first_match (scopes w a n).
Proof.
  unfold lookup_symbol, scopes. cbn [first_match].
  destruct (getattr_action a (lower n)); [done|].
  destruct (variables (base a) !! n); [done|].
  destruct (getattr_service w a (lower n)); [done|].
  destruct (service_variable w a n); [done|].
  destruct (mgr_attrs (service_manager w) (lower n)); [done|].
  by destruct (mgr_variables (service_manager w) !! n).
Qed.

Lemma word_prefix_name (n : string) : all_word n = true -> word_prefix n = n.
Proof.
  induction n as [|c n IH]; [done|]. cbn [all_word word_prefix].
  intros [Hc Hn]%andb_true_iff. by rewrite Hc, IH.
Qed.

Lemma findall_name (n : string) : all_word n = true -> findall n = [].
Proof.
  intros H. rewrite <- (append_empty_r n). by rewrite findall_word_app.
Qed.

Lemma findall_one_token (n : string) :
  is_name n -> findall (String "$" n) = [String "$" n].
Proof.
  intros [Hne Hall]. rewrite findall_dollar, word_prefix_name, findall_name by done.
  by destruct n.
Qed.

Lemma lstrip_token (n : string) : is_name n -> lstrip "$" (String "$" n) = n.
Proof.
  intros Hn.
  destruct (findall_tokens (String "$" n) (String "$" n)) as (m & [= <-] & _ & H);
    [|done].
  rewrite findall_one_token by done. by left.
Qed.

Lemma resolve_symbols_undefined (w : World) (a : Action) (cmd : string)
    (pre : list string) (sym : string) (post : list string) (final_cmd : string) :
  (forall t, t ∈ pre ->
     exists v, lookup_symbol w a (lstrip "$" t) = Some (PyStr v)
               /\ has_backslash v = false) ->
  lookup_symbol w a (lstrip "$" sym) = None ->
  resolve_symbols w a cmd (pre ++ sym :: post) final_cmd =
    Raises (undefined_variable (lstrip "$" sym) cmd).
Proof.
  revert final_cmd. induction pre as [|t pre IH]; intros final_cmd Hpre Hsym.
  - cbn [app resolve_symbols]. by rewrite Hsym.
  - cbn [app resolve_symbols].
    destruct (Hpre t) as (v & -> & Hbs); [by left|].
    unfold sub. rewrite Hbs. apply IH; [|done].
    intros t' Ht'. apply Hpre. by right.
Qed.

Lemma resolve_symbols_defined (w : World) (a : Action) (cmd : string)
    (syms : list string) (final_cmd : string) :
  (forall t, t ∈ syms ->
     exists v, lookup_symbol w a (lstrip "$" t) = Some (PyStr v)
               /\ has_backslash v = false) ->
  exists s, resolve_symbols w a cmd syms final_cmd = Returns s.
Proof.
  revert final_cmd. induction syms as [|t syms IH]; intros final_cmd Hsyms.
  - by eexists.
  - cbn [resolve_symbols].
    destruct (Hsyms t) as (v & -> & Hbs); [by left|].
    unfold sub. rewrite Hbs. apply IH.
    intros t' Ht'. apply Hsyms. by right.
Qed.

(** C4: each token of the command is [$] followed by a name; the value of a
    name is the first answer among the attribute of the Action under the
    lowercased name, the variables of the Action, the attribute of the owning
    Service, the variables of the Service, the attribute of the Service
    Manager and the variables of the Service Manager; a command made of one
    token resolves to that value; and at the first token for which none
    answers, [resolved_command] raises the undefined-variable error whose
    message holds the name and the original command; when every token has an
    answer no error is raised. *)
Theorem C4_resolution_order (w : World) (self : aid) :
  (forall n, lookup_symbol w (actions w self) n
             = first_match (scopes w (actions w self) n)) /\
  (forall cmd t, t ∈ findall cmd ->
     exists n, t = String "$" n /\ is_name n /\ lstrip "$" t = n) /\
  (forall n v,
     is_name n ->
     command (actions w self) = Some (String "$" n) ->
     first_match (scopes w (actions w self) n) = Some (PyStr v) ->
     has_backslash v = false ->
     resolved_command w self = Returns v) /\
  (forall cmd pre sym post,
     command (actions w self) = Some cmd ->
     findall cmd = pre ++ sym :: post ->
     (forall t, t ∈ pre ->
        exists v, first_match (scopes w (actions w self) (lstrip "$" t))
                  = Some (PyStr v) /\ has_backslash v = false) ->
     first_match (scopes w (actions w self) (lstrip "$" sym)) = None ->
     resolved_command w self =
       Raises (UndefinedVariableError
                 ("Variable [" +:+ lstrip "$" sym +:+ "] undefined in ["
                  +:+ cmd +:+ "]"))) /\
  (forall cmd,
     command (actions w self) = Some cmd ->
     (forall t, t ∈ findall cmd ->
        exists v, first_match (scopes w (actions w self) (lstrip "$" t))
                  = Some (PyStr v) /\ has_backslash v = false) ->
     exists s, resolved_command w self = Returns s).
Proof.
  split; [intros n; apply lookup_symbol_first_match|].
  split; [apply findall_tokens|].
  split; [|split].
  - intros n v Hn Hcmd Hv Hbs. unfold resolved_command. rewrite Hcmd.
    rewrite findall_one_token by done. cbn [resolve_symbols].
    rewrite lstrip_token by done.
    rewrite lookup_symbol_first_match, Hv. unfold sub. rewrite Hbs.
    rewrite <- (append_empty_r (String "$" n)) at 2.
    by rewrite sub_literal_match, append_empty_r.
  - intros cmd pre sym post Hcmd Hfind Hpre Hsym.
    unfold resolved_command. rewrite Hcmd, Hfind.
    apply resolve_symbols_undefined.
    + intros t Ht. rewrite lookup_symbol_first_match. by apply Hpre.
    + by rewrite lookup_symbol_first_match.
  - intros cmd Hcmd Hall. unfold resolved_command. rewrite Hcmd.
    apply resolve_symbols_defined.
    intros t Ht. rewrite lookup_symbol_first_match. by apply Hall.
Qed.



End ResolverFacts.

(** ** The properties at work on the sample configurations *)

(** The sample configuration is a well-formed graph. *)
Lemma sample_well_formed : well_formed [0; 1] (fun x => x) 1 sample_world.
Proof.
  split.
  - intros x d Hx Hd.
    apply elem_of_cons in Hx as [->|Hx]; [by apply elem_of_nil in Hd|].
    apply list_elem_of_singleton in Hx as ->.
    apply list_elem_of_singleton in Hd as ->.
    cbn. rewrite !elem_of_cons. auto.
  - intros x d Hx Hd.
    apply elem_of_cons in Hx as [->|Hx].
    + apply list_elem_of_singleton in Hd as ->.
      cbn. rewrite !elem_of_cons. auto.
    + apply list_elem_of_singleton in Hx as ->. by apply elem_of_nil in Hd.
  - intros x d Hx Hd.
    apply elem_of_cons in Hx as [->|Hx]; [by apply elem_of_nil in Hd|].
    apply list_elem_of_singleton in Hx as ->.
    apply list_elem_of_singleton in Hd as ->. simpl. lia.
  - intros x Hx.
    apply elem_of_cons in Hx as [->|Hx]; [lia|].
    apply list_elem_of_singleton in Hx as ->. lia.
  - intros x Hx.
    apply elem_of_cons in Hx as [->|Hx]; [by eexists|].
    apply list_elem_of_singleton in Hx as ->. by eexists.
Qed.

Lemma sample_retry_invariant : retry_invariant sample_world.
Proof.
  intros x [H|H]; destruct x as [|[|x]]; cbn in H; lia.
Qed.




(** C3 on the fan-outs of [test_remove_task]: the last task leaves. *)
Lemma C3_witness :
  ActionManager.fanout
    (ActionManager.remove_task fan_test_remove_task 1
       (ActionManager.run fan_test_remove_task [ActionManager.Add 1])) = None /\
  ActionManager.fanout
    (ActionManager.run fan_test_remove_task
       [ActionManager.Add 1; ActionManager.Remove 1]) = None.
Proof.
  split.
  - destruct (C3_effective_fanout fan_test_remove_task
                (ActionManager.run fan_test_remove_task [ActionManager.Add 1]) 1 [])
      as (_ & _ & _ & _ & _ & H & _).
    apply H. reflexivity.
  - destruct (C3_effective_fanout fan_test_remove_task ActionManager.initial 1
                [ActionManager.Add 1; ActionManager.Remove 1])
      as (_ & _ & _ & _ & _ & _ & H).
    apply H. reflexivity.
Defined.

(** C5 on the sample configuration: DONE, WAITING_STATUS and a value that
    is no status. *)
Lemma C5_witness :
  status_of (snd (update_status 6 0 DONE sample_world)) 0 = DONE /\
  fst (update_status 6 0 DONE sample_world) = Ret tt /\
  update_status 6 0 WAITING_STATUS sample_world
    = (Ret tt, status_written 0 WAITING_STATUS sample_world) /\
  update_status 6 0 (OTHER_VALUE 7) sample_world
    = (Raise (AssertionError "Bad action status"), sample_world).
Proof.
  assert (DONE ∈ [NO_STATUS; WAITING_STATUS; DONE; TIMED_OUT; TOO_MANY_ERRORS])
    as Hdone by (rewrite !elem_of_cons; auto).
  assert (WAITING_STATUS ∈ [NO_STATUS; WAITING_STATUS; DONE; TIMED_OUT; TOO_MANY_ERRORS])
    as Hwait by (rewrite !elem_of_cons; auto).
  split; [|split; [|split]].
  - destruct (C5_update_status_guard 6 0 DONE sample_world) as (H & _).
    by destruct (H Hdone) as (Hst & _).
  - destruct (C5_update_status_guard 6 0 DONE sample_world) as (H & _).
    destruct (H Hdone) as (_ & _ & _ & Hret).
    apply Hret with (dom := [0; 1]) (rank := fun x => x) (bound := 1).
    + apply sample_well_formed.
    + rewrite !elem_of_cons. auto.
    + vm_compute. lia.
  - destruct (C5_update_status_guard 6 0 WAITING_STATUS sample_world) as (H & _).
    destruct (H Hwait) as (_ & _ & Hnow & _).
    apply Hnow. by right.
  - destruct (C5_update_status_guard 6 0 (OTHER_VALUE 7) sample_world) as (_ & H).
    apply H.
    intros Hin. repeat (apply elem_of_cons in Hin as [Hin|Hin]; [discriminate|]).
    by apply elem_of_nil in Hin.
Defined.

(** C6 on the sample configuration: the first action becomes DONE. *)
Lemma C6_witness :
  exists new,
    trace (snd (update_status 6 0 DONE sample_world)) =
      notify 0 EV_STATUS_CHANGED :: notify 0 EV_COMPLETE :: new /\
    (forall ev, notify 0 ev ∉ new) /\
    (forall x c, notify_dep x c EV_TRIGGER_DEP ∈ new ->
       is_ready (snd (update_status 6 0 DONE sample_world)) c = true).
Proof.
  destruct (C6_update_status_order 6 0 DONE sample_world eq_refl) as (_ & H & _).
  destruct (H eq_refl) as (Htr & _). exact Htr.
Defined.

(** C7 on the first sample action, closed with a worker that has one
    failed node. *)
Lemma C7_witness :
  exists b : bool,
    has_too_many_errors 0 (closed 0 sample_worker sample_world)
      = (Ret b, closed 0 sample_worker sample_world) /\
    (b = true <->
       (errors (base (actions (closed 0%nat sample_worker sample_world) 0%nat))
        < worker_error_nodes (actions (closed 0%nat sample_worker sample_world) 0%nat))%Z) /\
    (worker (actions (closed 0 sample_worker sample_world) 0) = None -> b = false) /\
    (worker_nodes (actions (closed 0 sample_worker sample_world) 0) = 0 -> b = false).
Proof.
  apply (C7_has_too_many_errors (closed 0 sample_worker sample_world) 0).
  vm_compute. discriminate.
Defined.

(** C8 on the sample configuration: the first action has no delay, the
    second has one. *)
Lemma C8_witness :
  (exists msg, set_retry 0 2 sample_world = (Raise (AssertionError msg), sample_world)) /\
  (exists w',
     set_retry 1 2 sample_world = (Ret tt, w') /\
     _retry (actions w' 1) = 2%Z /\
     _retry_backup (actions w' 1) = 2%Z) /\
  _retry_backup (actions (assignments 1 [(-1)%Z; 3%Z; 5%Z] sample_world) 1) = 3%Z.
Proof.
  split; [|split].
  - destruct (C8_set_retry sample_world 0 2) as (H & _).
    apply H. left. vm_compute. discriminate.
  - destruct (C8_set_retry sample_world 1 2) as (_ & H & _).
    apply H.
    + reflexivity.
    + lia.
  - destruct (C8_set_retry sample_world 1 0) as (_ & _ & H).
    apply (H eq_refl eq_refl [(-1)%Z; 3%Z; 5%Z]).
Defined.

(** C10 on the first sample action, whose [retry] was never assigned. *)
Lemma C10_witness :
  exists w',
    reset 0 sample_world = (Ret tt, w') /\
    get_retry 0 w' = (Ret (-1)%Z, w') /\
    (_retry (actions w' 0%nat) < 0)%Z /\
    start_time (actions w' 0) = None /\
    stop_time (actions w' 0) = None /\
    worker (actions w' 0) = None.
Proof.
  destruct (C10_reset_without_retry sample_world 0) as (_ & _ & H).
  apply H. reflexivity.
Defined.

(** [update_status(ERROR)] on the first sample action: ERROR is one of the
    six declared statuses, and the call does not return. *)
Lemma C5_counterexample_error_status :
  ERROR ∈ [NO_STATUS; WAITING_STATUS; DONE; TIMED_OUT; TOO_MANY_ERRORS; ERROR] /\
  ~ (exists fuel w',
       update_status fuel 0 ERROR sample_world = (Ret tt, w')
       /\ status_of w' 0 = ERROR).
Proof.
  split; [rewrite !elem_of_cons; tauto|].
  intros (fuel & w' & Hrun & _). unfold update_status in Hrun.
  rewrite update_status_with_rejected in Hrun by reflexivity. discriminate.
Qed.

(** C4 on three commands: a name that the Action, the Service and the
    Service Manager all define, a name that nothing defines, and two names
    of the Action. *)
Lemma C4_witness :
  Resolver.resolved_command layered_world 0 = Resolver.Returns "from action" /\
  Resolver.resolved_command dangling_world 0 =
    Resolver.Raises (UndefinedVariableError
                       "Variable [NOPE] undefined in [echo $A $NOPE]") /\
  exists s, Resolver.resolved_command plain_world 0 = Resolver.Returns s.
Proof.
  split; [|split].
  - destruct (ResolverFacts.C4_resolution_order layered_world 0)
      as (_ & _ & H & _).
    apply H with (n := "X").
    + split; [discriminate|reflexivity].
    + reflexivity.
    + reflexivity.
    + reflexivity.
  - destruct (ResolverFacts.C4_resolution_order dangling_world 0)
      as (_ & _ & _ & H & _).
    apply (H "echo $A $NOPE" ["$A"] "$NOPE" []).
    + reflexivity.
    + reflexivity.
    + intros t Ht. apply list_elem_of_singleton in Ht as ->.
      exists "x". split; reflexivity.
    + reflexivity.
  - destruct (ResolverFacts.C4_resolution_order plain_world 0)
      as (_ & _ & _ & _ & H).
    apply (H "ssh -p $PORT $HOST").
    + reflexivity.
    + intros t Ht.
      apply elem_of_cons in Ht as [->|Ht]; [exists "22"; split; reflexivity|].
      apply list_elem_of_singleton in Ht as ->. exists "n1". split; reflexivity.
Defined.


(** Scenario 8 of the specification: with two retries, an action whose
    attempts all fail is closed three times and ends TOO_MANY_ERRORS, the
    counter at 0; the first two closes send it back through the delay. *)
Example retry_consumes_budget :
  let w0 := snd (update_status 6 1 WAITING_STATUS (snd (set_retry 1 2 sample_world))) in
  let w1 := snd (ev_close 6 1 sample_worker w0) in
  let w2 := snd (ev_close 6 1 sample_worker w1) in
  let w3 := snd (ev_close 6 1 sample_worker w2) in
  (_retry (actions w1 1), status_of w1 1) = (1%Z, WAITING_STATUS) /\
  (_retry (actions w2 1), status_of w2 1) = (0%Z, WAITING_STATUS) /\
  (_retry (actions w3 1), status_of w3 1) = (0%Z, TOO_MANY_ERRORS) /\
  trace w3 =
    [notify 1 EV_STATUS_CHANGED;
     remove_task 1; notify 1 EV_DELAYED; perform_delayed_action 1;
     remove_task 1; notify 1 EV_DELAYED; perform_delayed_action 1;
     remove_task 1; notify 1 EV_STATUS_CHANGED; notify 1 EV_COMPLETE;
     service_update_status 0 TOO_MANY_ERRORS].
Proof. repeat split; vm_compute; reflexivity. Qed.

(** The levels of the resolver, one after the other: the variables of the
    Action come before those of its Service, which come before those of the
    Service Manager. *)
Example resolution_levels :
  Resolver.resolved_command layered_world 0 = Resolver.Returns "from action" /\
  Resolver.resolved_command layered_world_service 0 = Resolver.Returns "from service" /\
  Resolver.resolved_command layered_world_manager 0 = Resolver.Returns "from manager".
Proof. repeat split; vm_compute; reflexivity. Qed.

(** A token that is the beginning of another: [sub] rewrites both. *)
Example token_inside_token :
  Resolver.sub "$A" "x" "$A $AB" = Some "x xB".
Proof. reflexivity. Qed.

(** * Further properties of the module *)

(** ** What a run of [prepare] hands to the action manager *)

Lemma performed_app (x : aid) (l1 l2 : list Effect) :
  performed x (l1 ++ l2) = performed x l1 + performed x l2.
Proof. unfold performed. by rewrite filter_app, length_app. Qed.

Lemma performed_cons (x : aid) (e : Effect) (l : list Effect) :
  performed x (e :: l) = (if decide (is_perform x e) then 1 else 0) + performed x l.
Proof.
  unfold performed. rewrite filter_cons. by destruct (decide (is_perform x e)).
Qed.

Lemma is_perform_notify (x y : aid) (ev : EvKind) : ~ is_perform x (notify y ev).
Proof. intros [H|H]; discriminate. Qed.

Lemma is_perform_schedule (x self : aid) (b : bool) :
  performed x (if b then [notify self EV_DELAYED; perform_delayed_action self]
               else [notify self EV_STARTED; perform_action self])
  = if decide (x = self) then 1 else 0.
Proof.
  destruct b; rewrite !performed_cons;
    (destruct (decide (is_perform x (notify self _))) as [H|_];
     [by apply is_perform_notify in H|]);
    destruct (decide (x = self)) as [->|Hne].
  - rewrite decide_True; [done|by right].
  - rewrite decide_False; [done|]. intros [H|H]; congruence.
  - rewrite decide_True; [done|by left].
  - rewrite decide_False; [done|]. intros [H|H]; congruence.
Qed.

Lemma advances_refl (w : World) : advances w w.
Proof.
  split.
  - apply extends_refl.
  - done.
  - intros x. by left.
  - exists []. split; [by rewrite app_nil_r|].
    intros x. split; [unfold performed; simpl; lia|].
    split; [done|]. intros [H1 H2]. congruence.
Qed.

Lemma advances_trans (w1 w2 w3 : World) :
  advances w1 w2 -> advances w2 w3 -> advances w1 w3.
Proof.
  intros H12 H23.
  pose proof (adv_extends _ _ H12) as E12.
  pose proof (adv_extends _ _ H23) as E23.
  split.
  - by eapply extends_trans.
  - intros x t Ht. apply (adv_start _ _ H23), (adv_start _ _ H12), Ht.
  - intros x.
    destruct (decide (status_of w2 x = NO_STATUS)) as [E2|N2].
    + rewrite (extends_no_status _ _ x E12 E2), <- E2.
      apply (adv_status _ _ H23).
    + rewrite (ext_sticky _ _ E23 x N2). apply (adv_status _ _ H12).
  - destruct (adv_once _ _ H12) as (n1 & T1 & P1).
    destruct (adv_once _ _ H23) as (n2 & T2 & P2).
    exists (n1 ++ n2). split; [by rewrite T2, T1, app_assoc|].
    intros x. rewrite performed_app.
    destruct (P1 x) as [L1 I1]. destruct (P2 x) as [L2 I2].
    destruct (decide (status_of w2 x = NO_STATUS)) as [E2|N2].
    + pose proof (extends_no_status _ _ x E12 E2) as E1.
      assert (performed x n1 = 0) as ->.
      { destruct (decide (performed x n1 = 1)) as [H|H]; [|lia].
        apply I1 in H as [_ H]. congruence. }
      split; [lia|]. cbn [Nat.add]. rewrite I2. tauto.
    + assert (performed x n2 = 0) as ->.
      { destruct (decide (performed x n2 = 1)) as [H|H]; [|lia].
        apply I2 in H as [H _]. congruence. }
      rewrite Nat.add_0_r, (ext_sticky _ _ E23 x N2). done.
Qed.

Lemma advances_call (e : Effect) (w : World) :
  (forall x c, e = notify_dep x c EV_TRIGGER_DEP -> is_ready w c = true) ->
  (forall x, is_dispatch_of x e -> status_of w x = NO_STATUS) ->
  (forall x ev, e = notify x ev -> status_of w x = NO_STATUS) ->
  (forall x, ~ is_perform x e) ->
  advances w (snd (call e w)).
Proof.
  intros Ha Hb Hc Hd. split.
  - by apply extends_call.
  - done.
  - intros x. by left.
  - exists [e]. split; [done|]. intros x.
    rewrite performed_cons, decide_False by apply Hd.
    unfold performed. simpl. split; [lia|].
    split; [done|]. intros [H1 H2].
    change (status_of w x = WAITING_STATUS) in H2. congruence.
Qed.

Lemma advances_completion_notified (self : aid) (w : World) :
  status_of w self = NO_STATUS -> advances w (completion_notified self DONE w).
Proof.
  intros Hno. split.
  - by apply extends_completion_notified.
  - intros x t Ht. rewrite actions_completion_notified.
    destruct (decide (x = self)) as [->|Hne].
    + by rewrite actions_written_eq.
    + by rewrite actions_written_ne.
  - intros x. rewrite status_of_completion_notified.
    destruct (decide (x = self)) as [->|Hne].
    + right. right. apply status_of_written_eq.
    + left. by apply status_of_written_ne.
  - eexists. split; [reflexivity|]. intros x.
    rewrite !performed_cons.
    rewrite !decide_False by apply is_perform_notify.
    unfold performed. simpl. split; [lia|].
    split; [done|]. intros [H1 H2].
    rewrite status_of_completion_notified in H2.
    destruct (decide (x = self)) as [->|Hne].
    + rewrite status_of_written_eq in H2. done.
    + rewrite status_of_written_ne in H2 by done. congruence.
Qed.

Lemma advances_schedule_written (self : aid) (w : World) :
  status_of w self = NO_STATUS ->
  advances w (snd (schedule self true (status_written self WAITING_STATUS w))).
Proof.
  intros Hno.
  pose proof (extends_schedule_written self w Hno) as Hext.
  destruct (schedule_run self true (status_written self WAITING_STATUS w))
    as (w' & Hrun & Hs & Hm & Hn & Hother & Hself & Htr).
  rewrite Hrun in *. cbn [snd] in *.
  assert (forall x, x <> self -> status_of w' x = status_of w x) as Hst.
  { intros x Hne. unfold status_of. by rewrite Hother, actions_written_ne. }
  assert (status_of w' self = WAITING_STATUS) as Hw.
  { unfold status_of. by rewrite Hself, actions_written_eq. }
  split.
  - done.
  - intros x t Ht. destruct (decide (x = self)) as [->|Hne].
    + rewrite Hself, actions_written_eq. cbn. by rewrite Ht.
    + by rewrite Hother, actions_written_ne.
  - intros x. destruct (decide (x = self)) as [->|Hne]; [by right; left|].
    left. by apply Hst.
  - eexists. split.
    { rewrite Htr. unfold status_written at 1. cbn [trace with_trace].
      rewrite <- app_assoc. reflexivity. }
    intros x. rewrite performed_app, performed_cons.
    rewrite decide_False by apply is_perform_notify.
    rewrite is_perform_schedule.
    unfold performed at 1. cbn [filter length list_filter Nat.add].
    destruct (decide (x = self)) as [->|Hne].
    + split; [simpl; lia|]. simpl. tauto.
    + split; [simpl; lia|]. simpl. split; [done|].
      intros [H1 H2]. rewrite (Hst x Hne) in H2. congruence.
Qed.

Section Runs.

(** A relation between stores that every step of a method keeps. *)
Variable R : World -> World -> Prop.
Hypothesis R_trans : forall w1 w2 w3, R w1 w2 -> R w2 w3 -> R w1 w3.

Lemma run_bind {A B} (m : M A) (k : A -> M B) (w0 w : World) :
  R w0 (snd (m w)) ->
  (forall x w', R w0 w' -> R w0 (snd (k x w'))) ->
  R w0 (snd (bind m k w)).
Proof.
  intros Hm Hk. unfold bind. destruct (m w) as [[x|e|] w']; cbn [snd] in *; auto.
Qed.

Lemma run_for_each {X} (l : list X) (body : X -> M unit) (w0 w : World) :
  (forall x w', R w' (snd (body x w'))) ->
  R w0 w -> R w0 (snd (for_each l body w)).
Proof.
  intros Hbody. revert w. induction l as [|x l IH]; intros w Hw; simpl.
  - done.
  - apply run_bind.
    + eapply R_trans; [exact Hw|]. apply Hbody.
    + intros _ w' Hw'. by apply IH.
Qed.

End Runs.

Lemma trigger_children_advances (prep : aid -> M unit) (self : aid)
    (deps : list (string * Dependency)) (w : World) :
  (forall c w', advances w' (snd (prep c w'))) ->
  advances w (snd (trigger_children prep self deps w)).
Proof.
  intros Hprep. unfold trigger_children.
  apply (run_for_each advances advances_trans); [|apply advances_refl].
  intros dep w'. unfold bind. cbn [fst snd].
  destruct (is_ready w' (target (snd dep))) eqn:Er; [|apply advances_refl].
  unfold call. cbn [fst snd].
  eapply advances_trans; [|apply Hprep].
  apply (advances_call (notify_dep self (target (snd dep)) EV_TRIGGER_DEP) w').
  - intros x c [= <- <-]. done.
  - not_dispatch.
  - intros x ev H. done.
  - intros x [H|H]; done.
Qed.

Lemma hand_over_advances (prep : aid -> M unit) (self : aid) (w : World) :
  (forall c w', advances w' (snd (prep c w'))) ->
  advances w (snd (hand_over prep self w)).
Proof.
  intros Hprep. unfold hand_over, bind, read. cbn [fst snd].
  destruct (children (base (actions w self))) as [|d ds] eqn:Ec.
  - destruct (service (actions w self)) as [s|]; [|apply advances_refl].
    apply advances_call; intros; try done.
    + destruct H as [H|[H|[H|H]]]; done.
    + intros [H|H]; done.
  - by apply trigger_children_advances.
Qed.

(** Every run of [prepare], whatever its fuel and its outcome. *)
Lemma prepare_advances (fuel : nat) (self : aid) (w : World) :
  advances w (snd (prepare fuel self w)).
Proof.
  revert self w. induction fuel as [|fuel IH]; intros self w.
  - apply advances_refl.
  - rewrite prepare_S.
    destruct (bool_decide (status_of w self = NO_STATUS)
              && negb (bool_decide (eval_deps_status w self = WAITING_STATUS)))
      eqn:Eguard; [|apply advances_refl].
    apply andb_true_iff in Eguard as [Hno%bool_decide_eq_true _].
    destruct (bool_decide (eval_deps_status w self = ERROR)
              || bool_decide (parents_of w self = [])).
    { rewrite mark_waiting_and_schedule. by apply advances_schedule_written. }
    destruct (bool_decide (eval_deps_status w self = DONE)).
    { rewrite update_status_with_accepted by done. cbn [terminal negb status_in].
      eapply advances_trans; [by apply advances_completion_notified|].
      apply hand_over_advances. intros c w'. apply IH. }
    apply (run_for_each advances advances_trans); [|apply advances_refl].
    intros dep w'. apply IH.
Qed.

(** X1: a run of [prepare], whatever its fuel and outcome, leaves every
    action that has a status with that status; a status only changes to
    WAITING_STATUS or DONE; a start time that is set stays; of an action only
    the status and the start time are written; the log only grows, and the
    clock, the services and the manager are not written. *)
Theorem X1_prepare_moves_forward (fuel : nat) (self : aid) (w : World) (x : aid) :
  (status_of w x <> NO_STATUS ->
     status_of (snd (prepare fuel self w)) x = status_of w x) /\
  (status_of (snd (prepare fuel self w)) x = status_of w x \/
   status_of (snd (prepare fuel self w)) x = WAITING_STATUS \/
   status_of (snd (prepare fuel self w)) x = DONE) /\
  (forall t, start_time (actions w x) = Some t ->
     start_time (actions (snd (prepare fuel self w)) x) = Some t) /\
  (exists s t, actions (snd (prepare fuel self w)) x
               = with_status s (with_start_time t (actions w x))) /\
  (exists new, trace (snd (prepare fuel self w)) = trace w ++ new) /\
  now (snd (prepare fuel self w)) = now w /\
  services (snd (prepare fuel self w)) = services w /\
  service_manager (snd (prepare fuel self w)) = service_manager w.
Proof.
  pose proof (prepare_advances fuel self w) as Hadv.
  pose proof (adv_extends _ _ Hadv) as Hext.
  split; [apply (ext_sticky _ _ Hext)|].
  split; [apply (adv_status _ _ Hadv)|].
  split; [intros t; apply (adv_start _ _ Hadv)|].
  split; [apply (ext_frame _ _ Hext)|].
  split; [destruct (ext_trace _ _ Hext) as (new & Htr & _); by exists new|].
  split; [apply (ext_now _ _ Hext)|].
  split; [apply (ext_services _ _ Hext)|apply (ext_manager _ _ Hext)].
Qed.

(** X2: in the calls that a run of [prepare] adds to the log, no action is
    handed to the action manager twice, and the actions handed over are
    exactly those that had no status before the run and are in
    WAITING_STATUS after it. *)
Theorem X2_prepare_performs_once (fuel : nat) (self : aid) (w : World) :
  exists new,
    trace (snd (prepare fuel self w)) = trace w ++ new /\
    forall x,
      performed x new <= 1 /\
      (performed x new = 1 <->
         status_of w x = NO_STATUS /\
         status_of (snd (prepare fuel self w)) x = WAITING_STATUS).
Proof. apply (adv_once _ _ (prepare_advances fuel self w)). Qed.

(** X3: [update_status] with a terminal status never hands the action itself
    to the action manager; after its two notifications it hands over each
    other action at most once, and exactly those that had no status and end
    in WAITING_STATUS. *)
Theorem X3_update_status_performs_once (fuel : nat) (self : aid) (s : Status)
    (w : World) :
  accepted s = true -> terminal s = true ->
  exists new,
    trace (snd (update_status fuel self s w)) =
      trace w ++ notify self EV_STATUS_CHANGED :: notify self EV_COMPLETE :: new /\
    performed self new = 0 /\
    forall x,
      performed x new <= 1 /\
      (performed x new = 1 <->
         x <> self /\ status_of w x = NO_STATUS /\
         status_of (snd (update_status fuel self s w)) x = WAITING_STATUS).
Proof.
  intros Hs Ht. unfold update_status.
  rewrite update_status_with_accepted by done. rewrite Ht.
  assert (s <> NO_STATUS) as Hne by (intros ->; done).
  pose proof (hand_over_advances (prepare fuel) self (completion_notified self s w)
                (fun c w' => prepare_advances fuel c w')) as Hadv.
  destruct (adv_once _ _ Hadv) as (new & Htr & Hp).
  assert (status_of (completion_notified self s w) self = s) as Hself.
  { by rewrite status_of_completion_notified, status_of_written_eq. }
  exists new. split.
  { rewrite Htr. unfold completion_notified. cbn [trace with_trace].
    by rewrite <- app_assoc. }
  split.
  - destruct (Hp self) as [Hle Hiff].
    destruct (decide (performed self new = 1)) as [H|H]; [|lia].
    apply Hiff in H as [H _]. congruence.
  - intros x. destruct (Hp x) as [Hle Hiff]. split; [done|].
    rewrite Hiff. destruct (decide (x = self)) as [->|Hx].
    + rewrite Hself. tauto.
    + rewrite status_of_completion_notified, status_of_written_ne by done. tauto.
Qed.

(** ** Dependency cycles *)

(** X4: on a set of actions without status in which every member has, as its
    first parent without status, another member (a cycle of dependencies
    among them), and whose dependencies are neither waiting, in error nor
    done, [prepare] changes nothing and never returns: no fuel is enough. *)
Theorem X4_prepare_cycle_never_returns (C : aid -> Prop) (w : World) :
  (forall x, C x ->
     status_of w x = NO_STATUS /\
     (eval_deps_status w x ∉ [WAITING_STATUS; ERROR; DONE]) /\
     exists d ds, search_deps w x [NO_STATUS] = d :: ds /\ C (target (snd d))) ->
  forall fuel x, C x -> prepare fuel x w = (OutOfFuel, w).
Proof.
  intros Hcycle fuel. induction fuel as [|fuel IH]; intros x Hx; [done|].
  destruct (Hcycle x Hx) as (Hno & Hdeps & d & ds & Hsearch & Hd).
  rewrite prepare_S.
  rewrite (bool_decide_eq_true_2 _ Hno).
  rewrite !bool_decide_eq_false_2.
  - cbn [andb negb orb]. rewrite Hsearch. cbn [for_each]. unfold bind.
    by rewrite (IH _ Hd).
  - intros E. apply Hdeps. rewrite E, !elem_of_cons. auto.
  - intros E. unfold search_deps in Hsearch. fold (parents_of w x) in Hsearch.
    rewrite E in Hsearch. done.
  - intros E. apply Hdeps. rewrite E, !elem_of_cons. auto.
  - intros E. apply Hdeps. rewrite E, !elem_of_cons. auto.
Qed.

(** ** The close event, the retry budget and reset *)

Lemma frame_settings (a : Action) (s : Status) (t : option Z) :
  settings (with_status s (with_start_time t a)) = settings a /\
  attempt (with_status s (with_start_time t a)) = attempt a.
Proof. done. Qed.

Lemma set_retry_result (w : World) (self : aid) (v : Z) :
  (0 < delay (actions w self))%Q -> (0 <= v)%Z ->
  exists w',
    set_retry self v w = (Ret tt, w') /\
    trace w' = trace w /\ now w' = now w /\
    (forall x, x <> self -> actions w' x = actions w x) /\
    actions w' self =
      with_retry_backup
        (if (_retry_backup (actions w self) =? -1)%Z then v
         else _retry_backup (actions w self))
        (with_retry v (actions w self)).
Proof.
  intros Hd Hv. unfold set_retry, bind, read, assert, ret, raise, update.
  apply delay_positive_iff in Hd. rewrite Hd.
  assert ((0 <=? v)%Z = true) as -> by (apply Z.leb_le; lia).
  cbn [actions with_actions]. rewrite !fn_lookup_insert.
  cbn [_retry_backup with_retry].
  destruct (_retry_backup (actions w self) =? -1)%Z eqn:Eb.
  - eexists. split; [reflexivity|].
    cbn [actions with_actions trace now]. rewrite !fn_lookup_insert.
    repeat split; try done.
    intros x Hx. by rewrite !fn_lookup_insert_ne.
  - eexists. split; [reflexivity|].
    cbn [actions with_actions trace now]. rewrite !fn_lookup_insert.
    repeat split; try done; try (by destruct (actions w self)).
    intros x Hx. by rewrite !fn_lookup_insert_ne.
Qed.

(** What [update_status] writes, whatever the status it is given. *)
Lemma update_status_frame (fuel : nat) (self : aid) (s : Status) (w : World)
    (x : aid) :
  (exists s' t, actions (snd (update_status fuel self s w)) x
                = with_status s' (with_start_time t (actions w x))) /\
  (forall t, start_time (actions w x) = Some t ->
     start_time (actions (snd (update_status fuel self s w)) x) = Some t) /\
  now (snd (update_status fuel self s w)) = now w /\
  (exists new, trace (snd (update_status fuel self s w)) = trace w ++ new).
Proof.
  unfold update_status. destruct (accepted s) eqn:Es.
  - rewrite update_status_with_accepted by done.
    assert (forall t, start_time (actions w x) = Some t ->
              start_time (actions (status_written self s w) x) = Some t) as Hstart.
    { intros t Ht. destruct (decide (x = self)) as [->|Hne].
      - by rewrite actions_written_eq.
      - by rewrite actions_written_ne. }
    destruct (written_frame self s w x) as (s2 & t2 & E2).
    destruct (terminal s).
    + pose proof (hand_over_advances (prepare fuel) self (completion_notified self s w)
                    (fun c w' => prepare_advances fuel c w')) as Hadv.
      pose proof (adv_extends _ _ Hadv) as Hext.
      split; [|split; [|split]].
      * destruct (ext_frame _ _ Hext x) as (s1 & t1 & E1).
        exists s1, t1. rewrite E1, actions_completion_notified, E2.
        by destruct (actions w x) as [[] ? ? ? ? ? ? ? ? ?].
      * intros t Ht. apply (adv_start _ _ Hadv).
        rewrite actions_completion_notified. by apply Hstart.
      * by rewrite (ext_now _ _ Hext).
      * destruct (ext_trace _ _ Hext) as (new & Htr & _).
        eexists. rewrite Htr. unfold completion_notified. cbn [trace with_trace].
        rewrite <- app_assoc. reflexivity.
    + cbn [snd]. split; [by exists s2, t2|]. split; [done|]. split; [done|].
      by eexists.
  - rewrite update_status_with_rejected by done. cbn [snd].
    split; [|split; [done|split; [done|exists []; by rewrite app_nil_r]]].
    exists (status_of w x), (start_time (actions w x)). symmetry. apply action_eta.
Qed.

(** A failed attempt when a retry is left and the delay is positive. *)
Lemma ev_close_retry_step (fuel : nat) (self : aid) (wk : Worker) (w : World) :
  (0 < delay (actions w self))%Q ->
  failed (actions w self) wk = true ->
  (0 < _retry (actions w self))%Z ->
  exists w',
    ev_close fuel self wk w = (Ret tt, w') /\
    trace w' = trace w ++ retry_log self /\
    now w' = now w /\
    (forall x, x <> self -> actions w' x = actions w x) /\
    actions w' self =
      with_start_time
        (match start_time (actions w self) with
         | None => Some (now w)
         | Some t => Some t
         end)
        (with_retry_backup
           (if (_retry_backup (actions w self) =? -1)%Z
            then (_retry (actions w self) - 1)%Z
            else _retry_backup (actions w self))
           (with_retry (_retry (actions w self) - 1)
              (with_worker (Some wk)
                 (with_stop_time (Some (now w)) (actions w self))))).
Proof.
  intros Hd Hf Hr. rewrite ev_close_unfold. cbn zeta.
  unfold failed in Hf. rewrite Hf.
  assert ((_retry (actions w self) >? 0)%Z = true) as -> by (apply Z.gtb_lt; lia).
  cbn [andb].
  destruct (set_retry_result (closed self wk w) self (_retry (actions w self) - 1)%Z)
    as (w1 & Hrun & Htr1 & Hn1 & Hother1 & Hself1).
  { by rewrite actions_closed_eq. }
  { lia. }
  unfold bind. rewrite Hrun.
  destruct (schedule_run self true w1)
    as (w2 & -> & _ & _ & Hn2 & Hother2 & Hself2 & Htr2).
  exists w2. split; [done|].
  rewrite actions_closed_eq in Hself1.
  cbn [_retry_backup with_worker with_stop_time] in Hself1.
  split; [|split; [|split]].
  - rewrite Htr2, Htr1.
    assert (delay_positive (actions w1 self) = true) as ->.
    { apply delay_positive_iff. by rewrite Hself1. }
    unfold closed, retry_log. cbn zeta. cbn [trace with_trace with_actions andb].
    by rewrite <- app_assoc.
  - by rewrite Hn2, Hn1.
  - intros x Hx. by rewrite Hother2, Hother1, actions_closed_ne.
  - rewrite Hself2, Hself1, Hn1. done.
Qed.

(** What [ev_close] writes, whatever the worker and the branch taken. *)
Lemma ev_close_frame (fuel : nat) (self : aid) (wk : Worker) (w : World) (x : aid) :
  settings (actions (snd (ev_close fuel self wk w)) x) = settings (actions w x) /\
  (forall t, start_time (actions w x) = Some t ->
     start_time (actions (snd (ev_close fuel self wk w)) x) = Some t) /\
  (x <> self ->
     attempt (actions (snd (ev_close fuel self wk w)) x) = attempt (actions w x)) /\
  worker (actions (snd (ev_close fuel self wk w)) self) = Some wk /\
  stop_time (actions (snd (ev_close fuel self wk w)) self) = Some (now w) /\
  (_retry_backup (actions w self) <> (-1)%Z ->
     _retry_backup (actions (snd (ev_close fuel self wk w)) self)
     = _retry_backup (actions w self)) /\
  now (snd (ev_close fuel self wk w)) = now w /\
  (exists rest,
     trace (snd (ev_close fuel self wk w)) = trace w ++ remove_task self :: rest).
Proof.
  assert (forall s,
    let w' := snd (update_status fuel self s (closed self wk w)) in
    settings (actions w' x) = settings (actions w x) /\
    (forall t, start_time (actions w x) = Some t -> start_time (actions w' x) = Some t) /\
    (x <> self -> attempt (actions w' x) = attempt (actions w x)) /\
    worker (actions w' self) = Some wk /\
    stop_time (actions w' self) = Some (now w) /\
    (_retry_backup (actions w self) <> (-1)%Z ->
       _retry_backup (actions w' self) = _retry_backup (actions w self)) /\
    now w' = now w /\
    (exists rest, trace w' = trace w ++ remove_task self :: rest)) as Hterminal.
  { intros s w'. subst w'.
    destruct (update_status_frame fuel self s (closed self wk w) x)
      as ((s1 & t1 & E1) & Hst & Hnow & new & Htr).
    destruct (update_status_frame fuel self s (closed self wk w) self)
      as ((s2 & t2 & E2) & _).
    split; [|split; [|split; [|split; [|split; [|split; [|split]]]]]].
    - rewrite E1. destruct (decide (x = self)) as [->|Hne].
      + by rewrite actions_closed_eq.
      + by rewrite actions_closed_ne.
    - intros t Ht. apply Hst. destruct (decide (x = self)) as [->|Hne].
      + by rewrite actions_closed_eq.
      + by rewrite actions_closed_ne.
    - intros Hne. by rewrite E1, actions_closed_ne.
    - by rewrite E2, actions_closed_eq.
    - by rewrite E2, actions_closed_eq.
    - intros _. by rewrite E2, actions_closed_eq.
    - by rewrite Hnow.
    - exists new. rewrite Htr. unfold closed. cbn zeta.
      cbn [trace with_trace with_actions]. by rewrite <- app_assoc. }
  rewrite ev_close_unfold. cbn zeta.
  destruct ((classified_error (actions w self) wk || classified_timed_out wk)
            && (_retry (actions w self) >? 0)%Z) eqn:Eguard.
  - apply andb_true_iff in Eguard as [Hf Hr%Z.gtb_lt].
    destruct (Qlt_le_dec 0 (delay (actions w self))) as [Hd|Hd].
    + destruct (ev_close_retry_step fuel self wk w Hd Hf ltac:(lia))
        as (w' & Hrun & Htr & Hn & Hother & Hself).
      rewrite ev_close_unfold in Hrun. cbn zeta in Hrun.
      unfold failed in Hf. rewrite Hf in Hrun.
      assert ((_retry (actions w self) >? 0)%Z = true) as E by (apply Z.gtb_lt; lia).
      rewrite E in Hrun. cbn [andb] in Hrun. rewrite Hrun. cbn [snd].
      split; [|split; [|split; [|split; [|split; [|split; [|split]]]]]].
      * destruct (decide (x = self)) as [->|Hne]; [by rewrite Hself|by rewrite Hother].
      * intros t Ht. destruct (decide (x = self)) as [->|Hne].
        -- rewrite Hself. cbn. by rewrite Ht.
        -- by rewrite Hother.
      * intros Hne. by rewrite Hother.
      * by rewrite Hself.
      * by rewrite Hself.
      * intros Hb. rewrite Hself. cbn.
        destruct (_retry_backup (actions w self) =? -1)%Z eqn:Eb; [|done].
        by apply Z.eqb_eq in Eb.
      * done.
      * exists [notify self EV_DELAYED; perform_delayed_action self]. by rewrite Htr.
    + destruct (set_retry_rejected (closed self wk w) self
                  (_retry (actions w self) - 1)%Z) as (msg & Hrun).
      { left. by rewrite actions_closed_eq. }
      unfold bind. rewrite Hrun. cbn [snd].
      split; [|split; [|split; [|split; [|split; [|split; [|split]]]]]].
      * destruct (decide (x = self)) as [->|Hne];
          [by rewrite actions_closed_eq|by rewrite actions_closed_ne].
      * intros t Ht. destruct (decide (x = self)) as [->|Hne];
          [by rewrite actions_closed_eq|by rewrite actions_closed_ne].
      * intros Hne. by rewrite actions_closed_ne.
      * by rewrite actions_closed_eq.
      * by rewrite actions_closed_eq.
      * intros _. by rewrite actions_closed_eq.
      * done.
      * exists []. done.
  - destruct (classified_error (actions w self) wk); [apply Hterminal|].
    destruct (classified_timed_out wk); apply Hterminal.
Qed.

Lemma failed_base (a a' : Action) (wk : Worker) :
  base a = base a' -> failed a wk = failed a' wk.
Proof. intros H. unfold failed, classified_error. by rewrite H. Qed.

Lemma closes_retry (fuel : nat) (self : aid) (wks : list Worker) (w : World) :
  (0 < delay (actions w self))%Q ->
  Forall (fun wk => failed (actions w self) wk = true) wks ->
  (Z.of_nat (length wks) <= _retry (actions w self))%Z ->
  _retry (actions (closes fuel self wks w) self)
    = (_retry (actions w self) - Z.of_nat (length wks))%Z /\
  base (actions (closes fuel self wks w) self) = base (actions w self) /\
  trace (closes fuel self wks w)
    = trace w ++ concat (map (fun _ => retry_log self) wks).
Proof.
  revert w. induction wks as [|wk wks IH]; intros w Hd Hall Hlen.
  - cbn. rewrite app_nil_r. split; [lia|done].
  - apply Forall_cons_1 in Hall as [Hwk Hall].
    cbn [length] in Hlen.
    destruct (ev_close_retry_step fuel self wk w Hd Hwk ltac:(lia))
      as (w1 & Hrun & Htr & _ & _ & Hself).
    unfold closes. cbn [fold_left]. rewrite Hrun. cbn [snd].
    fold (closes fuel self wks w1).
    assert (base (actions w1 self) = base (actions w self)) as Hbase
      by (by rewrite Hself).
    assert (_retry (actions w1 self) = (_retry (actions w self) - 1)%Z) as Hr
      by (by rewrite Hself).
    destruct (IH w1) as (IH1 & IH2 & IH3).
    + by rewrite Hself.
    + eapply Forall_impl; [exact Hall|]. intros k Hk. cbn beta in *.
      by rewrite (failed_base _ _ k Hbase).
    + lia.
    + split; [rewrite IH1; cbn [length]; lia|].
      split; [by rewrite IH2|].
      rewrite IH3, Htr. cbn [map concat]. by rewrite <- app_assoc.
Qed.

Lemma closes_backup (fuel : nat) (self : aid) (wks : list Worker) (w : World) :
  _retry_backup (actions w self) <> (-1)%Z ->
  _retry_backup (actions (closes fuel self wks w) self)
  = _retry_backup (actions w self).
Proof.
  revert w. induction wks as [|wk wks IH]; intros w Hb; [done|].
  unfold closes. cbn [fold_left]. fold (closes fuel self wks (snd (ev_close fuel self wk w))).
  destruct (ev_close_frame fuel self wk w self) as (_ & _ & _ & _ & _ & Hkeep & _).
  rewrite IH; rewrite (Hkeep Hb); done.
Qed.

(** X5: with a positive delay, failed attempts of one action, no more of
    them than its retry counter, take one retry each: the counter goes down
    by their number, the status stays as it was, and each attempt logs the
    removal from the manager and a delayed dispatch, nothing else.  Once the
    counter is used up, the next failed attempt gives the terminal status:
    TOO_MANY_ERRORS when it has too many errors, TIMED_OUT otherwise. *)
Theorem X5_retry_budget (fuel : nat) (self : aid) (wks : list Worker) (w : World) :
  (0 < delay (actions w self))%Q ->
  Forall (fun wk => failed (actions w self) wk = true) wks ->
  (Z.of_nat (length wks) <= _retry (actions w self))%Z ->
  _retry (actions (closes fuel self wks w) self)
    = (_retry (actions w self) - Z.of_nat (length wks))%Z /\
  status_of (closes fuel self wks w) self = status_of w self /\
  trace (closes fuel self wks w)
    = trace w ++ concat (map (fun _ => retry_log self) wks) /\
  (forall wk,
     failed (actions w self) wk = true ->
     Z.of_nat (length wks) = _retry (actions w self) ->
     status_of (snd (ev_close fuel self wk (closes fuel self wks w))) self
     = if classified_error (actions w self) wk then TOO_MANY_ERRORS else TIMED_OUT).
Proof.
  intros Hd Hall Hlen.
  destruct (closes_retry fuel self wks w Hd Hall Hlen) as (Hr & Hbase & Htr).
  split; [done|]. split; [unfold status_of, action_status; by rewrite Hbase|].
  split; [done|].
  intros wk Hwk Hzero. rewrite ev_close_unfold. cbn zeta.
  rewrite Hr.
  assert ((_retry (actions w self) - Z.of_nat (length wks) >? 0)%Z = false) as ->.
  { rewrite Z.gtb_ltb. apply Z.ltb_ge. lia. }
  rewrite andb_false_r.
  assert (classified_error (actions (closes fuel self wks w) self) wk
          = classified_error (actions w self) wk) as ->.
  { unfold classified_error. by rewrite Hbase. }
  unfold failed in Hwk.
  destruct (classified_error (actions w self) wk).
  - by apply update_status_final_status.
  - cbn [orb] in Hwk. rewrite Hwk. by apply update_status_final_status.
Qed.

(** X6: [reset] gives the retry counter the value that the first accepted
    assignment of [retry] gave it, whatever the close events in between: the
    shadow, once it is not -1, is changed neither by [ev_close] nor by
    [reset]. *)
Theorem X6_reset_restores_retry (fuel : nat) (self : aid) (wks : list Worker)
    (w : World) :
  (_retry_backup (actions w self) <> (-1)%Z ->
     _retry (actions (snd (reset self (closes fuel self wks w))) self)
       = _retry_backup (actions w self) /\
     _retry_backup (actions (snd (reset self (closes fuel self wks w))) self)
       = _retry_backup (actions w self)) /\
  (forall n,
     (0 < delay (actions w self))%Q -> (0 <= n)%Z ->
     _retry_backup (actions w self) = (-1)%Z ->
     _retry (actions (snd (reset self (closes fuel self wks
                                         (snd (set_retry self n w))))) self) = n).
Proof.
  assert (forall w0, _retry_backup (actions w0 self) <> (-1)%Z ->
     _retry (actions (snd (reset self (closes fuel self wks w0))) self)
       = _retry_backup (actions w0 self) /\
     _retry_backup (actions (snd (reset self (closes fuel self wks w0))) self)
       = _retry_backup (actions w0 self)) as Hgen.
  { intros w0 Hb.
    destruct (reset_run (closes fuel self wks w0) self)
      as (w' & -> & _ & _ & Hr & Hb' & _).
    cbn [snd]. rewrite Hr, Hb'. by rewrite closes_backup. }
  split; [apply Hgen|].
  intros n Hd Hn Hb.
  destruct (set_retry_result w self n Hd Hn) as (w1 & Hrun & _ & _ & _ & Hself).
  rewrite Hrun. cbn [snd].
  assert (_retry_backup (actions w1 self) = n) as Hb1.
  { rewrite Hself, Hb. done. }
  destruct (Hgen w1) as [H _]; [lia|]. by rewrite H.
Qed.

(** X7: whatever the worker and the branch it takes, [ev_close] stores the
    worker in the action, stamps its stop time with the clock, and logs the
    removal from the action manager before any other call; it leaves the
    clock, the settings of every action and the attempt records of the other
    actions as they were, keeps a start time that is set, and keeps a shadow
    of the retry counter that is not -1. *)
Theorem X7_ev_close_bookkeeping (fuel : nat) (self : aid) (wk : Worker)
    (w : World) (x : aid) :
  settings (actions (snd (ev_close fuel self wk w)) x) = settings (actions w x) /\
  (forall t, start_time (actions w x) = Some t ->
     start_time (actions (snd (ev_close fuel self wk w)) x) = Some t) /\
  (x <> self ->
     attempt (actions (snd (ev_close fuel self wk w)) x) = attempt (actions w x)) /\
  worker (actions (snd (ev_close fuel self wk w)) self) = Some wk /\
  stop_time (actions (snd (ev_close fuel self wk w)) self) = Some (now w) /\
  (_retry_backup (actions w self) <> (-1)%Z ->
     _retry_backup (actions (snd (ev_close fuel self wk w)) self)
     = _retry_backup (actions w self)) /\
  now (snd (ev_close fuel self wk w)) = now w /\
  (exists rest,
     trace (snd (ev_close fuel self wk w)) = trace w ++ remove_task self :: rest).
Proof. apply ev_close_frame. Qed.

(** X8: a failed attempt of an action whose retry counter is above zero
    while its delay is not positive ends in the assertion error of the retry
    setter: the worker and the stop time are stored and the removal from the
    manager is logged, but the counter and the status stay as they were and
    the action is not scheduled again. *)
Theorem X8_close_with_retry_without_delay (fuel : nat) (self : aid) (wk : Worker)
    (w : World) :
  (delay (actions w self) <= 0)%Q ->
  failed (actions w self) wk = true ->
  (0 < _retry (actions w self))%Z ->
  ev_close fuel self wk w =
    (Raise (AssertionError "No way to specify retry without a delay"),
     closed self wk w) /\
  _retry (actions (closed self wk w) self) = _retry (actions w self) /\
  status_of (closed self wk w) self = status_of w self /\
  trace (closed self wk w) = trace w ++ [remove_task self].
Proof.
  intros Hd Hf Hr. rewrite ev_close_unfold. cbn zeta.
  unfold failed in Hf. rewrite Hf.
  assert ((_retry (actions w self) >? 0)%Z = true) as -> by (apply Z.gtb_lt; lia).
  cbn [andb]. split; [|split; [|split]].
  - unfold bind at 1. unfold set_retry, bind at 1 2, read, assert, raise.
    assert (delay_positive (actions (closed self wk w) self) = false) as ->.
    { apply delay_positive_false. by rewrite actions_closed_eq. }
    done.
  - by rewrite actions_closed_eq.
  - apply status_of_closed.
  - done.
Qed.

(** ** Scheduling, the timer event and the duration *)

(** X9: [schedule] stamps the start time only when none is set: after the
    call the start time is the one the action had, or else the clock; a later
    call, whatever the clock shows then, leaves it.  The call writes nothing
    else: statuses, settings and attempt records stay.  With
    [allow_delay=False] the action is started at once whatever its delay;
    otherwise it goes through the delay timer exactly when its delay is
    positive. *)
Theorem X9_schedule_stamps_once (self : aid) (allow_delay : bool) (w : World) :
  fst (schedule self allow_delay w) = Ret tt /\
  start_time (actions (snd (schedule self allow_delay w)) self)
    = Some (default (now w) (start_time (actions w self))) /\
  (forall t again,
     start_time (actions (snd (schedule self again
                                 (with_now t (snd (schedule self allow_delay w))))) self)
     = start_time (actions (snd (schedule self allow_delay w)) self)) /\
  (forall x,
     status_of (snd (schedule self allow_delay w)) x = status_of w x /\
     settings (actions (snd (schedule self allow_delay w)) x) = settings (actions w x) /\
     attempt (actions (snd (schedule self allow_delay w)) x) = attempt (actions w x)) /\
  trace (snd (schedule self allow_delay w)) =
    trace w ++
    (if delay_positive (actions w self) && allow_delay
     then [notify self EV_DELAYED; perform_delayed_action self]
     else [notify self EV_STARTED; perform_action self]).
Proof.
  destruct (schedule_run self allow_delay w)
    as (w1 & Hrun & _ & _ & Hn & Hother & Hself & Htr).
  rewrite Hrun. cbn [fst snd].
  assert (start_time (actions w1 self)
          = Some (default (now w) (start_time (actions w self)))) as Hstart.
  { rewrite Hself. cbn. by destruct (start_time (actions w self)). }
  split; [done|]. split; [done|]. split; [|split; [|done]].
  - intros t again.
    destruct (schedule_run self again (with_now t w1))
      as (w2 & -> & _ & _ & _ & _ & Hself2 & _).
    cbn [snd]. rewrite Hself2. cbn [actions with_now start_time with_start_time].
    by rewrite Hstart.
  - intros x. destruct (decide (x = self)) as [->|Hne].
    + unfold status_of. by rewrite Hself.
    + unfold status_of. by rewrite (Hother x Hne).
Qed.

Section TimerFacts.

Variable simulate : sid -> bool.
Variable service_eval_deps_status : sid -> Status.

(** X10: the timer event of an action without a service raises an attribute
    error and changes nothing.  When the service only simulates, the event
    passes the status of the dependencies of the service to the service and
    hands nothing to the action manager.  Otherwise it starts the action at
    once, whatever its delay, so that an action scheduled through its delay
    is handed over for delayed execution first and for execution when the
    timer fires, its start time being that of the scheduling. *)
Theorem X10_ev_timer (self : aid) (w : World) :
  (service (actions w self) = None ->
     ev_timer simulate service_eval_deps_status self w = (Raise AttributeError, w)) /\
  (forall s, service (actions w self) = Some s -> simulate s = true ->
     ev_timer simulate service_eval_deps_status self w =
       (Ret tt, with_trace (trace w ++ [service_update_status s
                                          (service_eval_deps_status s)]) w)) /\
  (forall s, service (actions w self) = Some s -> simulate s = false ->
     ev_timer simulate service_eval_deps_status self w = schedule self false w /\
     trace (snd (ev_timer simulate service_eval_deps_status self w))
       = trace w ++ [notify self EV_STARTED; perform_action self]) /\
  (forall s t,
     service (actions w self) = Some s -> simulate s = false ->
     (0 < delay (actions w self))%Q ->
     trace (snd (ev_timer simulate service_eval_deps_status self
                   (with_now t (snd (schedule self true w)))))
       = trace w ++ [notify self EV_DELAYED; perform_delayed_action self;
                     notify self EV_STARTED; perform_action self] /\
     start_time (actions (snd (ev_timer simulate service_eval_deps_status self
                                 (with_now t (snd (schedule self true w))))) self)
       = Some (default (now w) (start_time (actions w self)))).
Proof.
  split; [|split; [|split]].
  - intros Hs. unfold ev_timer, bind, read. by rewrite Hs.
  - intros s Hs Hsim. unfold ev_timer, bind, read. by rewrite Hs, Hsim.
  - intros s Hs Hsim.
    assert (ev_timer simulate service_eval_deps_status self w = schedule self false w)
      as -> by (unfold ev_timer, bind at 1, read; by rewrite Hs, Hsim).
    split; [done|].
    destruct (schedule_run self false w) as (w1 & -> & _ & _ & _ & _ & _ & Htr).
    cbn [snd]. rewrite Htr. by rewrite andb_false_r.
  - intros s t Hs Hsim Hd.
    destruct (schedule_run self true w)
      as (w1 & -> & _ & _ & _ & _ & Hself & Htr).
    cbn [snd].
    assert (ev_timer simulate service_eval_deps_status self (with_now t w1)
            = schedule self false (with_now t w1)) as ->.
    { unfold ev_timer, bind at 1, read. cbn [actions with_now fst snd].
      rewrite Hself. cbn [service with_start_time]. by rewrite Hs, Hsim. }
    destruct (schedule_run self false (with_now t w1))
      as (w2 & -> & _ & _ & _ & _ & Hself2 & Htr2).
    cbn [snd]. split.
    + rewrite Htr2. cbn [trace with_now]. rewrite Htr.
      apply delay_positive_iff in Hd. rewrite Hd, andb_false_r.
      cbn [andb]. by rewrite <- app_assoc.
    + rewrite Hself2. cbn [actions with_now start_time with_start_time].
      rewrite Hself. cbn. by destruct (start_time (actions w self)).
Qed.

End TimerFacts.

Lemma datetime_sub_days (stop start k : Z) :
  seconds (datetime_sub (stop + k * 86400000000) start) = seconds (datetime_sub stop start) /\
  microseconds (datetime_sub (stop + k * 86400000000) start)
  = microseconds (datetime_sub stop start).
Proof.
  unfold datetime_sub. cbn [seconds microseconds].
  replace (stop + k * 86400000000 - start)%Z
    with ((stop - start) + k * 86400000000)%Z by lia.
  split.
  - by rewrite Z_mod_plus_full.
  - replace ((stop - start) + k * 86400000000)%Z
      with ((stop - start) + (k * 86400) * 1000000)%Z by lia.
    by rewrite Z_mod_plus_full.
Qed.

(** X11: the duration is [None] exactly when the start time or the stop time
    is missing; it is read off the seconds and microseconds of the
    difference, so that whole days between the two times do not show in it;
    it is defined for an action that was scheduled and then closed, whatever
    the clock did in between, and it is [None] again after [reset]. *)
Theorem X11_duration (self : aid) (w : World) :
  (forall a, duration a = None <-> start_time a = None \/ stop_time a = None) /\
  (forall a stop k,
     duration (with_stop_time (Some (stop + k * 86400000000)%Z) a)
     = duration (with_stop_time (Some stop) a)) /\
  (forall fuel wk allow_delay t,
     is_Some (duration
       (actions (snd (ev_close fuel self wk
                        (with_now t (snd (schedule self allow_delay w))))) self))) /\
  duration (actions (snd (reset self w)) self) = None.
Proof.
  split; [|split; [|split]].
  - intros a. unfold duration.
    destruct (start_time a), (stop_time a); split; intros H;
      try done; try (destruct H; done); auto.
  - intros a stop k. unfold duration. cbn [start_time stop_time with_stop_time].
    destruct (start_time a) as [start|]; [|done].
    cbn zeta. by destruct (datetime_sub_days stop start k) as [-> ->].
  - intros fuel wk allow_delay t.
    destruct (schedule_run self allow_delay w)
      as (w1 & -> & _ & _ & _ & _ & Hself & _).
    cbn [snd].
    assert (exists t0, start_time (actions (with_now t w1) self) = Some t0) as [t0 Ht0].
    { cbn [actions with_now]. rewrite Hself. cbn.
      destruct (start_time (actions w self)); eauto. }
    destruct (ev_close_frame fuel self wk (with_now t w1) self)
      as (_ & Hstart & _ & _ & Hstop & _).
    unfold duration. rewrite (Hstart t0 Ht0), Hstop. by eexists.
  - destruct (reset_run w self) as (w' & -> & _ & _ & _ & _ & Hs & _).
    cbn [snd]. unfold duration. by rewrite Hs.
Qed.

Section DurationExamples.
Import PrimFloat.

(** An attempt of a second and a half; the same a day later; and one that
    stops a quarter of a second before it starts. *)
Example duration_values :
  let a start stop :=
    with_stop_time (Some stop) (with_start_time (Some start) (sample_actions 0)) in
  duration (a 0 1500000)%Z = Some 1.5%float /\
  duration (a 0 86401500000)%Z = Some 1.5%float /\
  duration (a 250000 0)%Z = Some 86399.75%float.
Proof. repeat split; vm_compute; reflexivity. Qed.

End DurationExamples.

(** ** The error count *)

Lemma error_nodes_app (g g' : list (Z * list string)) :
  error_nodes (g ++ g') = (error_nodes g + error_nodes g')%Z.
Proof.
  induction g as [|[rc nds] g IH]; [done|].
  cbn [app error_nodes]. rewrite IH. destruct (negb (rc =? 0)%Z); lia.
Qed.

Lemma has_error_group_app (g g' : list (Z * list string)) :
  has_error_group (g ++ g') = has_error_group g || has_error_group g'.
Proof. apply existsb_app. Qed.

Lemma error_nodes_perm (g g' : list (Z * list string)) :
  g ≡ₚ g' -> error_nodes g = error_nodes g'.
Proof.
  induction 1 as [|[rc nds] g g' _ IH|[rc1 n1] [rc2 n2] g|g1 g2 g3 _ IH1 _ IH2].
  - done.
  - cbn [error_nodes]. by rewrite IH.
  - cbn [error_nodes]. destruct (negb (rc1 =? 0)%Z), (negb (rc2 =? 0)%Z); lia.
  - congruence.
Qed.

Lemma has_error_group_perm (g g' : list (Z * list string)) :
  g ≡ₚ g' -> has_error_group g = has_error_group g'.
Proof.
  unfold has_error_group.
  induction 1 as [|x g g' _ IH|x y g|g1 g2 g3 _ IH1 _ IH2].
  - done.
  - cbn [existsb]. by rewrite IH.
  - cbn [existsb]. by destruct (negb (fst x =? 0)%Z), (negb (fst y =? 0)%Z).
  - congruence.
Qed.

Lemma error_nodes_filter (g : list (Z * list string)) :
  error_nodes (filter (fun grp => fst grp <> 0%Z) g) = error_nodes g /\
  has_error_group (filter (fun grp => fst grp <> 0%Z) g) = has_error_group g.
Proof.
  unfold has_error_group.
  induction g as [|[rc nds] g [IH1 IH2]]; [done|].
  rewrite filter_cons. cbn [fst].
  destruct (decide (rc <> 0%Z)) as [Hrc|Hrc].
  - cbn [error_nodes existsb fst]. by rewrite IH1, IH2.
  - assert (rc = 0%Z) as -> by lia. cbn [error_nodes existsb fst].
    by rewrite IH1, IH2.
Qed.

(** X12: the answer of the loop of [has_too_many_errors] does not depend on
    the order in which the worker yields its groups, nor on the groups whose
    return code is zero; further groups can turn the answer to true, never
    back to false; and an answer that is true for a tolerance is true for
    every lower one. *)
Theorem X12_too_many_errors_order (errs : Z) (g g' : list (Z * list string)) :
  (g ≡ₚ g' -> retcodes_loop errs g 0 false = retcodes_loop errs g' 0 false) /\
  retcodes_loop errs (filter (fun grp => fst grp <> 0%Z) g) 0 false
    = retcodes_loop errs g 0 false /\
  (retcodes_loop errs g 0 false = true ->
     retcodes_loop errs (g ++ g') 0 false = true /\
     retcodes_loop errs (g' ++ g) 0 false = true) /\
  (forall errs', (errs' <= errs)%Z ->
     retcodes_loop errs g 0 false = true -> retcodes_loop errs' g 0 false = true).
Proof.
  rewrite ?retcodes_loop_spec. cbn [orb Z.add].
  split; [|split; [|split]].
  - intros Hp. rewrite ?retcodes_loop_spec. cbn [orb Z.add].
    by rewrite (error_nodes_perm _ _ Hp), (has_error_group_perm _ _ Hp).
  - destruct (error_nodes_filter g) as [-> ->]. done.
  - intros [Hg Hlt%Z.ltb_lt]%andb_true_iff.
    pose proof (error_nodes_nonneg g') as Hpos.
    rewrite ?retcodes_loop_spec. cbn [orb Z.add].
    rewrite !has_error_group_app, !error_nodes_app, Hg, orb_true_r. cbn [orb andb].
    split; apply Z.ltb_lt; lia.
  - intros errs' Hle [Hg Hlt%Z.ltb_lt]%andb_true_iff.
    rewrite ?retcodes_loop_spec. cbn [orb Z.add]. rewrite Hg. cbn [andb].
    apply Z.ltb_lt. lia.
Qed.

(** ** Further properties of the resolver *)

Module ResolverMore.
Import Resolver ResolverNotions ResolverFacts.

Lemma no_token_findall (s : string) : no_token s = true <-> findall s = [].
Proof.
  induction s as [|c s IH]; [done|].
  cbn [no_token]. destruct (is_dollar c) eqn:Ec.
  - apply is_dollar_eq in Ec. subst c. rewrite findall_dollar.
    destruct s as [|c' s'].
    + done.
    + cbn [word_prefix]. destruct (is_word c'); cbn [negb andb].
      * split; done.
      * exact IH.
  - rewrite findall_other by done. cbn [andb]. exact IH.
Qed.

Lemma no_dollar_no_token (s : string) : has_dollar s = false -> no_token s = true.
Proof.
  induction s as [|c s IH]; [done|].
  cbn [has_dollar no_token]. intros [-> H]%orb_false_iff. cbn [andb]. by apply IH.
Qed.

(** X13: a command in which no [$] is followed by a word character (a
    command without [$], or with [$] only at its end or before punctuation,
    as in [${X}] and [$(...)]) holds no token, and [resolved_command] returns
    it as it is, whatever the variables; every other command holds at least
    one token. *)
Theorem X13_command_without_token (cmd : string) :
  (no_token cmd = true <-> findall cmd = []) /\
  (has_dollar cmd = false -> no_token cmd = true) /\
  (no_token cmd = true ->
   forall w self,
     command (actions w self) = Some cmd -> resolved_command w self = Returns cmd).
Proof.
  split; [apply no_token_findall|]. split; [apply no_dollar_no_token|].
  intros Hno w self Hcmd. unfold resolved_command. rewrite Hcmd.
  apply no_token_findall in Hno. by rewrite Hno.
Qed.

Lemma findall_no_dollar_app (u r : string) :
  has_dollar u = false -> findall (u +:+ r) = findall r.
Proof.
  induction u as [|c u IH]; [done|].
  cbn [has_dollar]. intros [Hc Hu]%orb_false_iff.
  rewrite append_cons, findall_other by done. by apply IH.
Qed.

(** The single pass leaves no token when the values hold no [$]. *)
Lemma findall_expand_tokens (value : string -> string) :
  forall s,
    no_double_dollar s = true ->
    (forall n, String "$" n ∈ findall s -> has_dollar (value n) = false) ->
    findall (expand_tokens value 0 s) = [].
Proof.
  intros s. remember (String.length s) as k eqn:Hk. revert s Hk.
  induction k as [k IH] using lt_wf_ind. intros s Hk Hdd Hval.
  destruct s as [|c s]; [done|].
  destruct (is_dollar c) eqn:Ec.
  2:{ rewrite expand_tokens_other, findall_other by done.
      apply (IH (String.length s)); [subst k; simpl; lia|done| |].
      - by eapply no_double_dollar_tail.
      - intros n Hn. apply Hval. by rewrite findall_other. }
  apply is_dollar_eq in Ec. subst c.
  destruct (word_prefix s) as [|x m] eqn:Ew.
  - rewrite expand_tokens_stray by done. rewrite findall_dollar.
    assert (word_prefix (expand_tokens value 0 s) = EmptyString) as ->.
    { pose proof (word_prefix_empty_head s Ew) as Hhead.
      pose proof (no_double_dollar_head s Hdd) as Hnd.
      destruct s as [|c' s']; [done|].
      rewrite expand_tokens_other by done. cbn [word_prefix]. by rewrite Hhead. }
    apply (IH (String.length s)); [subst k; simpl; lia|done| |].
    + by eapply no_double_dollar_tail.
    + intros n Hn. apply Hval. by rewrite findall_dollar, Ew.
  - pose proof (word_split s) as Hs. rewrite Ew in Hs.
    pose proof (word_prefix_all_word s) as Hword. rewrite Ew in Hword.
    pose proof (word_rest_length s) as Hlen.
    assert (findall (String "$" s) = String "$" (String x m) :: findall (word_rest s))
      as Hfind.
    { rewrite findall_dollar, Ew. f_equal.
      rewrite Hs at 1. by apply findall_word_app. }
    rewrite (expand_tokens_token _ s x m Ew).
    rewrite findall_no_dollar_app by (apply Hval; rewrite Hfind; by left).
    apply (IH (String.length (word_rest s))); [subst k; simpl; lia|done| |].
    + apply (no_double_dollar_app_r (String x m)). rewrite <- Hs.
      by eapply no_double_dollar_tail.
    + intros n Hn. apply Hval. rewrite Hfind. by right.
Qed.

(** The result of [resolved_command] under the conditions in which the
    substitutions do not meet. *)
Lemma resolved_command_expand (w : World) (self : aid) (cmd : string) :
  command (actions w self) = Some cmd ->
  no_double_dollar cmd = true ->
  (forall t1 t2, t1 ∈ findall cmd -> t2 ∈ findall cmd ->
     starts_with t1 t2 = true -> t1 = t2) ->
  (forall t, t ∈ findall cmd ->
     exists v, symbol_value w (actions w self) (lstrip "$" t) = Some v
               /\ has_dollar v = false) ->
  resolved_command w self =
    Returns (expand_tokens
               (fun n => default EmptyString (symbol_value w (actions w self) n))
               0 cmd).
Proof.
  intros Hcmd Hdd Hfree Hvals. unfold resolved_command. rewrite Hcmd.
  pose proof (resolve_symbols_expand w (actions w self) cmd Hdd Hfree Hvals
                (findall cmd) [] (fun t Ht => Ht)) as Hrun.
  rewrite (expand_partial_ext (values_of w (actions w self) []) (fun _ => None))
    in Hrun by done.
  rewrite expand_partial_none in Hrun. rewrite Hrun.
  - f_equal. apply expand_partial_all.
    intros m Hm. unfold values_of.
    destruct (Hvals _ Hm) as (v & Hv & _).
    destruct (findall_tokens cmd _ Hm) as (m' & [= <-] & _ & Hstrip).
    rewrite Hstrip in Hv. rewrite Hv. cbn [default].
    rewrite bool_decide_eq_true_2; [done|].
    rewrite app_nil_r. apply list_elem_of_In. rewrite <- in_rev.
    apply in_map_iff. exists (String "$" m).
    split; [done|by apply list_elem_of_In].
  - intros m Hm. by apply elem_of_nil in Hm.
Qed.

(** X14: when the command has no [$] right after a [$], no token of it is
    the beginning of another and every token has a value without [$], the
    command that [resolved_command] returns holds no token any more: an
    action that has it as its command gets it back unchanged, whatever its
    variables. *)
Theorem X14_resolved_command_settled (w : World) (self : aid) (cmd : string) :
  command (actions w self) = Some cmd ->
  no_double_dollar cmd = true ->
  (forall t1 t2, t1 ∈ findall cmd -> t2 ∈ findall cmd ->
     starts_with t1 t2 = true -> t1 = t2) ->
  (forall t, t ∈ findall cmd ->
     exists v, symbol_value w (actions w self) (lstrip "$" t) = Some v
               /\ has_dollar v = false) ->
  exists r,
    resolved_command w self = Returns r /\
    findall r = [] /\
    forall w' self',
      command (actions w' self') = Some r -> resolved_command w' self' = Returns r.
Proof.
  intros Hcmd Hdd Hfree Hvals.
  eexists. split; [by apply resolved_command_expand|].
  assert (findall (expand_tokens
            (fun n => default EmptyString (symbol_value w (actions w self) n))
            0 cmd) = []) as Hnone.
  { apply findall_expand_tokens; [done|].
    intros n Hn. destruct (Hvals _ Hn) as (v & Hv & Hd).
    destruct (findall_tokens cmd _ Hn) as (m' & [= <-] & _ & Hstrip).
    rewrite Hstrip in Hv. by rewrite Hv. }
  split; [done|].
  intros w' self' Hcmd'. unfold resolved_command. rewrite Hcmd'. by rewrite Hnone.
Qed.

(** X15: a name whose lowercase form is one of the names that [Action.py]
    gives to an Action is answered by the attribute of the Action: the
    variables of the action, the service and the service manager are not
    consulted for it, so that the value depends on the command of the action
    only, and a variable of that name cannot reach a command.  For [command]
    the value is the command itself, for the other names it is not a
    string. *)
Theorem X15_own_names_shadow_variables (w : World) (a : Action) (n : string) :
  lower n ∈ own_names ->
  lookup_symbol w a n = getattr_action a (lower n) /\
  (forall w' a', command a' = command a -> lookup_symbol w' a' n = lookup_symbol w a n) /\
  (lower n = "command" -> forall c, command a = Some c -> lookup_symbol w a n = Some (PyStr c)) /\
  (lower n <> "command" -> lookup_symbol w a n = Some PyOther).
Proof.
  intros Hin.
  assert (forall w0 a0, lookup_symbol w0 a0 n =
            if bool_decide (lower n = "command")
            then Some (match command a0 with Some c => PyStr c | None => PyOther end)
            else Some PyOther) as Hlook.
  { intros w0 a0. unfold lookup_symbol, getattr_action.
    destruct (bool_decide (lower n = "command")) eqn:E; [done|].
    apply bool_decide_eq_false in E.
    unfold own_names in Hin. apply elem_of_cons in Hin as [Hin|Hin]; [done|].
    by rewrite (bool_decide_eq_true_2 _ Hin). }
  split; [|split; [|split]].
  - rewrite Hlook. unfold getattr_action.
    destruct (bool_decide (lower n = "command")) eqn:E; [done|].
    apply bool_decide_eq_false in E.
    unfold own_names in Hin. apply elem_of_cons in Hin as [Hin|Hin]; [done|].
    by rewrite (bool_decide_eq_true_2 _ Hin).
  - intros w' a' Hc. by rewrite !Hlook, Hc.
  - intros E c Hc. by rewrite Hlook, (bool_decide_eq_true_2 _ E), Hc.
  - intros E. by rewrite Hlook, (bool_decide_eq_false_2 _ E).
Qed.

End ResolverMore.

(** ** The running set of the Action Manager *)

Section ManagerMore.

Variable fan : aid -> option Z.

Lemma add_task_running (a : aid) (m : ActionManager.Manager) :
  a ∈ ActionManager.running (ActionManager.add_task fan a m).
Proof.
  unfold ActionManager.add_task, ActionManager.is_running_task. cbn.
  destruct (bool_decide (a ∈ ActionManager.running m)) eqn:E.
  - by apply bool_decide_eq_true in E.
  - apply elem_of_app. right. by apply list_elem_of_singleton.
Qed.

Lemma filter_absent (a : aid) (l : list aid) :
  a ∉ l -> filter (fun b => b <> a) l = l.
Proof.
  induction l as [|b l IH]; intros Hnot; [done|].
  rewrite filter_cons. apply not_elem_of_cons in Hnot as [Hne Hnot].
  rewrite decide_True by done. by rewrite IH.
Qed.

Lemma step_no_dup (m : ActionManager.Manager) (o : ActionManager.Op) :
  NoDup (ActionManager.running m) ->
  NoDup (ActionManager.running (ActionManager.step fan m o)).
Proof.
  intros Hnd. destruct o as [a|a]; cbn.
  - unfold ActionManager.is_running_task.
    destruct (bool_decide (a ∈ ActionManager.running m)) eqn:E; [done|].
    apply bool_decide_eq_false in E.
    apply NoDup_app. split; [done|]. split.
    + intros x Hx ->%list_elem_of_singleton. done.
    + apply NoDup_singleton.
  - by apply NoDup_filter.
Qed.

Lemma run_no_dup (ops : list ActionManager.Op) (m : ActionManager.Manager) :
  NoDup (ActionManager.running m) ->
  NoDup (ActionManager.running (fold_left (ActionManager.step fan) ops m)).
Proof.
  revert m. induction ops as [|o ops IH]; intros m Hm; [done|].
  cbn [fold_left]. apply IH. by apply step_no_dup.
Qed.

(** X16: in the model of the Action Manager (written from the
    specification, its tests being the only source at hand): after any
    sequence of [add_task] and [remove_task] no action is in the running set
    twice; adding an action that is running changes nothing, so that an
    action added twice counts once; an action is running after it is added
    and not after it is removed, the membership of the others being left as
    it was; and removing an action that was added to a set that did not hold
    it gives that set back. *)
Theorem X16_manager_running_set (ops : list ActionManager.Op) (a : aid)
    (m : ActionManager.Manager) :
  NoDup (ActionManager.running (ActionManager.run fan ops)) /\
  ActionManager.add_task fan a (ActionManager.add_task fan a m)
    = ActionManager.add_task fan a m /\
  ActionManager.is_running_task a (ActionManager.add_task fan a m) = true /\
  ActionManager.is_running_task a (ActionManager.remove_task fan a m) = false /\
  (forall b, b <> a ->
     ActionManager.is_running_task b (ActionManager.add_task fan a m)
       = ActionManager.is_running_task b m /\
     ActionManager.is_running_task b (ActionManager.remove_task fan a m)
       = ActionManager.is_running_task b m) /\
  (a ∉ ActionManager.running m ->
     ActionManager.running (ActionManager.remove_task fan a (ActionManager.add_task fan a m))
       = ActionManager.running m).
Proof.
  split; [apply run_no_dup, NoDup_nil_2|].
  split.
  { assert (ActionManager.is_running_task a (ActionManager.add_task fan a m) = true)
      as E by apply bool_decide_eq_true_2, add_task_running.
    unfold ActionManager.add_task at 1. rewrite E. reflexivity. }
  split; [apply bool_decide_eq_true_2, add_task_running|].
  split.
  { apply bool_decide_eq_false_2. cbn. intros [H _]%list_elem_of_filter. by apply H. }
  split.
  - intros b Hb. unfold ActionManager.is_running_task. split.
    + apply bool_decide_ext. cbn. unfold ActionManager.is_running_task.
      destruct (bool_decide (a ∈ ActionManager.running m)); [done|].
      rewrite elem_of_app, list_elem_of_singleton. tauto.
    + apply bool_decide_ext. cbn. rewrite list_elem_of_filter. tauto.
  - intros Hnot. cbn. unfold ActionManager.is_running_task.
    rewrite (bool_decide_eq_false_2 _ Hnot).
    rewrite filter_app, (filter_absent a _ Hnot), filter_cons.
    rewrite decide_False by (intros H; by apply H).
    by rewrite filter_nil, app_nil_r.
Qed.

End ManagerMore.

(** ** The invariant of the retry counter *)

Lemma retry_invariant_closes (fuel : nat) (self : aid) (wks : list Worker)
    (w : World) :
  retry_invariant w -> retry_invariant (closes fuel self wks w).
Proof.
  revert w. induction wks as [|wk wks IH]; intros w Hinv; [done|].
  unfold closes. cbn [fold_left]. apply IH. by apply retry_invariant_ev_close.
Qed.

(** X17: the invariant of the data model (a retry counter, or its shadow,
    above zero goes with a positive delay) holds of the actions that
    [__init__] builds, and every method that writes an action keeps it:
    [set_retry] whether it succeeds or raises, [reset], [schedule],
    [prepare], [update_status], the timer event and any sequence of close
    events. *)
Theorem X17_retry_invariant_kept (self : aid) (w : World) :
  (forall b cmd t d, retry_invariant (with_actions (fun _ => Action_init b cmd t d) w)) /\
  (retry_invariant w ->
     (forall v, retry_invariant (snd (set_retry self v w))) /\
     retry_invariant (snd (reset self w)) /\
     (forall allow_delay, retry_invariant (snd (schedule self allow_delay w))) /\
     (forall fuel, retry_invariant (snd (prepare fuel self w))) /\
     (forall fuel s, retry_invariant (snd (update_status fuel self s w))) /\
     (forall simulate deps, retry_invariant (snd (ev_timer simulate deps self w))) /\
     (forall fuel wks, retry_invariant (closes fuel self wks w))).
Proof.
  split; [intros; apply retry_invariant_init|].
  intros Hinv.
  split; [intros v; by apply retry_invariant_set_retry|].
  split; [by apply retry_invariant_reset|].
  split; [intros b; by apply retry_invariant_schedule|].
  split; [intros fuel; by apply retry_invariant_prepare|].
  split; [intros fuel s; by apply retry_invariant_update_status|].
  split; [|intros fuel wks; by apply retry_invariant_closes].
  intros simulate deps. unfold ev_timer, bind, read. cbn [fst snd].
  destruct (service (actions w self)) as [s|]; [|done].
  destruct (simulate s); [done|]. by apply retry_invariant_schedule.
Qed.

(** ** The calls of [prepare] *)

Lemma calls_only_refl (P : Effect -> Prop) (w : World) : calls_only P w w.
Proof.
  exists []. split; [by rewrite app_nil_r|].
  intros e He. by apply elem_of_nil in He.
Qed.

Lemma calls_only_trans (P : Effect -> Prop) (w1 w2 w3 : World) :
  calls_only P w1 w2 -> calls_only P w2 w3 -> calls_only P w1 w3.
Proof.
  intros (n1 & T1 & H1) (n2 & T2 & H2). exists (n1 ++ n2).
  split; [by rewrite T2, T1, app_assoc|].
  intros e [He|He]%elem_of_app; auto.
Qed.

Lemma calls_only_call (P : Effect -> Prop) (e : Effect) (w : World) :
  P e -> calls_only P w (snd (call e w)).
Proof.
  intros He. exists [e]. split; [done|].
  by intros e' ->%list_elem_of_singleton.
Qed.

Lemma calls_only_list (P : Effect -> Prop) (l : list Effect) (w w' : World) :
  trace w' = trace w ++ l -> Forall P l -> calls_only P w w'.
Proof.
  intros Htr Hall. exists l. split; [done|].
  by apply Forall_forall.
Qed.

Lemma hand_over_calls (prep : aid -> M unit) (self : aid) (w : World) :
  status_of w self = DONE ->
  (forall c w', calls_only prepare_call w' (snd (prep c w'))) ->
  calls_only prepare_call w (snd (hand_over prep self w)).
Proof.
  intros Hdone Hprep. unfold hand_over, bind, read. cbn [fst snd].
  destruct (children (base (actions w self))) as [|d ds] eqn:Ec.
  - destruct (service (actions w self)) as [s|]; [|apply calls_only_refl].
    apply calls_only_call. exact Hdone.
  - unfold trigger_children.
    apply (run_for_each _ (calls_only_trans prepare_call));
      [|apply calls_only_refl].
    intros dep w'. unfold bind. cbn [fst snd].
    destruct (is_ready w' (target (snd dep))); [|apply calls_only_refl].
    eapply calls_only_trans; [|apply Hprep].
    by apply calls_only_call.
Qed.

Lemma prepare_calls (fuel : nat) (self : aid) (w : World) :
  calls_only prepare_call w (snd (prepare fuel self w)).
Proof.
  revert self w. induction fuel as [|fuel IH]; intros self w.
  - apply calls_only_refl.
  - rewrite prepare_S.
    destruct (bool_decide (status_of w self = NO_STATUS)
              && negb (bool_decide (eval_deps_status w self = WAITING_STATUS)));
      [|apply calls_only_refl].
    destruct (bool_decide (eval_deps_status w self = ERROR)
              || bool_decide (parents_of w self = [])).
    { rewrite mark_waiting_and_schedule.
      destruct (schedule_run self true (status_written self WAITING_STATUS w))
        as (w' & -> & _ & _ & _ & _ & _ & Htr).
      cbn [snd]. eapply calls_only_list.
      - rewrite Htr. unfold status_written at 1. cbn [trace with_trace].
        rewrite <- app_assoc. reflexivity.
      - destruct (delay_positive _ && true); repeat constructor; done. }
    destruct (bool_decide (eval_deps_status w self = DONE)).
    { rewrite update_status_with_accepted by done. cbn [terminal negb status_in].
      apply calls_only_trans with (w2 := completion_notified self DONE w).
      - apply (calls_only_list _ [notify self EV_STATUS_CHANGED; notify self EV_COMPLETE]);
          [done|repeat constructor; done].
      - apply hand_over_calls.
        + by rewrite status_of_completion_notified, status_of_written_eq.
        + intros c w'. apply IH. }
    apply (run_for_each _ (calls_only_trans prepare_call));
      [|apply calls_only_refl].
    intros dep w'. apply IH.
Qed.

(** X18: among the calls that a run of [prepare] adds to the log there is no
    removal from the action manager, and the only status passed to a service
    is DONE: [prepare] completes actions as DONE only, the other terminal
    statuses come from the close event. *)
Theorem X18_prepare_reports_done_only (fuel : nat) (self : aid) (w : World) :
  exists new,
    trace (snd (prepare fuel self w)) = trace w ++ new /\
    (forall a, remove_task a ∉ new) /\
    (forall svc st, service_update_status svc st ∈ new -> st = DONE) /\
    (forall x c ev, notify_dep x c ev ∈ new -> ev = EV_TRIGGER_DEP).
Proof.
  destruct (prepare_calls fuel self w) as (new & Htr & Hall).
  exists new. split; [done|]. split; [|split].
  - intros a Ha. apply (Hall _ Ha).
  - intros svc st Hin. apply (Hall _ Hin).
  - intros x c ev Hin. apply (Hall _ Hin).
Qed.

(** ** The further properties at work on the sample configurations *)

(** X1: the first action, dispatched and waiting, keeps its status while its
    successor is prepared. *)
Lemma X1_witness :
  status_of (snd (prepare 3 1 (snd (prepare 3 0 sample_world)))) 0
  = status_of (snd (prepare 3 0 sample_world)) 0.
Proof.
  destruct (X1_prepare_moves_forward 3 1 (snd (prepare 3 0 sample_world)) 0)
    as [H _].
  apply H. vm_compute. discriminate.
Defined.

(** X3: the first action is declared DONE, its successor is dispatched. *)
Lemma X3_witness :
  exists new,
    trace (snd (update_status 3 0 DONE sample_world)) =
      trace sample_world
      ++ notify 0 EV_STATUS_CHANGED :: notify 0 EV_COMPLETE :: new /\
    performed 0 new = 0 /\
    forall x,
      performed x new <= 1 /\
      (performed x new = 1 <->
         x <> 0 /\ status_of sample_world x = NO_STATUS /\
         status_of (snd (update_status 3 0 DONE sample_world)) x = WAITING_STATUS).
Proof. apply (X3_update_status_performs_once 3 0 DONE sample_world); reflexivity. Defined.

(** X4: two actions that depend on each other. *)
Lemma X4_witness : prepare 50 0 cyclic_world = (OutOfFuel, cyclic_world).
Proof.
  apply (X4_prepare_cycle_never_returns (fun _ => True) cyclic_world); [|exact I].
  intros x _. destruct x as [|x].
  - split; [reflexivity|]. split.
    + apply (bool_decide_unpack _). vm_compute. exact I.
    + eexists _, _. split; [vm_compute; reflexivity|exact I].
  - split; [reflexivity|]. split.
    + apply (bool_decide_unpack _). vm_compute. exact I.
    + eexists _, _. split; [vm_compute; reflexivity|exact I].
Defined.

(** X5: two retries, two failed attempts. *)
Lemma X5_witness :
  _retry (actions (closes 3 1 [sample_worker; sample_worker]
                     (snd (set_retry 1 2 sample_world))) 1)
  = 0%Z.
Proof.
  destruct (X5_retry_budget 3 1 [sample_worker; sample_worker]
              (snd (set_retry 1 2 sample_world))) as [H _].
  - vm_compute. reflexivity.
  - repeat constructor.
  - vm_compute. discriminate.
  - etransitivity; [exact H|reflexivity].
Defined.

(** X6: a retry of 2 is set, two attempts fail, and [reset] gives the 2
    back. *)
Lemma X6_witness :
  _retry (actions (snd (reset 1 (closes 3 1 [sample_worker; sample_worker]
                                   (snd (set_retry 1 2 sample_world))))) 1) = 2%Z.
Proof.
  destruct (X6_reset_restores_retry 3 1 [sample_worker; sample_worker] sample_world)
    as [_ H].
  apply H.
  - vm_compute. reflexivity.
  - lia.
  - reflexivity.
Defined.

(** X7: the shadow of a retry counter that was set survives a close event. *)
Lemma X7_witness :
  _retry_backup (actions (snd (ev_close 3 1 sample_worker
                                 (snd (set_retry 1 2 sample_world)))) 1)
  = _retry_backup (actions (snd (set_retry 1 2 sample_world)) 1).
Proof.
  destruct (X7_ev_close_bookkeeping 3 1 sample_worker
              (snd (set_retry 1 2 sample_world)) 1)
    as (_ & _ & _ & _ & _ & H & _).
  apply H. vm_compute. discriminate.
Defined.

(** X8: a retry counter of 2 on an action whose delay is 0. *)
Lemma X8_witness :
  ev_close 3 0 sample_worker stale_retry_world =
    (Raise (AssertionError "No way to specify retry without a delay"),
     closed 0 sample_worker stale_retry_world) /\
  _retry (actions (closed 0 sample_worker stale_retry_world) 0)
    = _retry (actions stale_retry_world 0) /\
  status_of (closed 0 sample_worker stale_retry_world) 0
    = status_of stale_retry_world 0 /\
  trace (closed 0 sample_worker stale_retry_world)
    = trace stale_retry_world ++ [remove_task 0].
Proof.
  apply (X8_close_with_retry_without_delay 3 0 sample_worker stale_retry_world).
  - vm_compute. discriminate.
  - reflexivity.
  - reflexivity.
Defined.

(** X10: the second action, whose delay is 1, is scheduled and its timer
    fires later. *)
Lemma X10_witness :
  trace (snd (ev_timer (fun _ => false) (fun _ => NO_STATUS) 1
                (with_now 5 (snd (schedule 1 true sample_world)))))
    = trace sample_world ++ [notify 1 EV_DELAYED; perform_delayed_action 1;
                             notify 1 EV_STARTED; perform_action 1] /\
  start_time (actions (snd (ev_timer (fun _ => false) (fun _ => NO_STATUS) 1
                              (with_now 5 (snd (schedule 1 true sample_world))))) 1)
    = Some (default (now sample_world) (start_time (actions sample_world 1))).
Proof.
  destruct (X10_ev_timer (fun _ => false) (fun _ => NO_STATUS) 1 sample_world)
    as (_ & _ & _ & H).
  apply (H 0 5%Z).
  - reflexivity.
  - reflexivity.
  - vm_compute. reflexivity.
Defined.

(** X12: one failed node is too many for a tolerance of 0, as it is for any
    tolerance below. *)
Lemma X12_witness :
  retcodes_loop (-1) (iter_retcodes sample_worker) 0 false = true.
Proof.
  destruct (X12_too_many_errors_order 0 (iter_retcodes sample_worker) [])
    as (_ & _ & _ & H).
  apply H; [lia|reflexivity].
Defined.

(** X13: shell text with [$] and no token. *)
Lemma X13_witness :
  Resolver.resolved_command shell_world 0
  = Resolver.Returns "echo ${HOME} $(date) $? $".
Proof.
  destruct (ResolverMore.X13_command_without_token "echo ${HOME} $(date) $? $")
    as (_ & _ & H).
  apply H; reflexivity.
Defined.

(** X14: the command of the sample action, once resolved. *)
Lemma X14_witness :
  exists r,
    Resolver.resolved_command plain_world 0 = Resolver.Returns r /\
    Resolver.findall r = [] /\
    forall w' self',
      command (actions w' self') = Some r ->
      Resolver.resolved_command w' self' = Resolver.Returns r.
Proof.
  apply (ResolverMore.X14_resolved_command_settled plain_world 0 "ssh -p $PORT $HOST").
  - reflexivity.
  - reflexivity.
  - intros t1 t2 H1 H2.
    apply elem_of_cons in H1 as [->|H1];
      [|apply list_elem_of_singleton in H1 as ->];
      (apply elem_of_cons in H2 as [->|H2];
       [|apply list_elem_of_singleton in H2 as ->]);
      vm_compute; congruence.
  - intros t Ht.
    apply elem_of_cons in Ht as [->|Ht]; [exists "22"; split; reflexivity|].
    apply list_elem_of_singleton in Ht as ->. exists "n1". split; reflexivity.
Defined.

(** X15: the variable [TIMEOUT] of the action is out of reach of its
    command. *)
Lemma X15_witness :
  Resolver.lookup_symbol sample_world shadowed_action "TIMEOUT" = Some PyOther.
Proof.
  destruct (ResolverMore.X15_own_names_shadow_variables
              sample_world shadowed_action "TIMEOUT") as (_ & _ & _ & H).
  - apply (bool_decide_unpack _). vm_compute. exact I.
  - apply H. vm_compute. discriminate.
Defined.

(** X16: on the tasks of [test_add_task], the third being added twice. *)
Lemma X16_witness :
  ActionManager.running
    (ActionManager.remove_task fan_test_add_task 4
       (ActionManager.add_task fan_test_add_task 4
          (ActionManager.run fan_test_add_task
             [ActionManager.Add 1; ActionManager.Add 2;
              ActionManager.Add 3; ActionManager.Add 3])))
  = ActionManager.running
      (ActionManager.run fan_test_add_task
         [ActionManager.Add 1; ActionManager.Add 2;
          ActionManager.Add 3; ActionManager.Add 3]).
Proof.
  destruct (X16_manager_running_set fan_test_add_task [] 4
              (ActionManager.run fan_test_add_task
                 [ActionManager.Add 1; ActionManager.Add 2;
                  ActionManager.Add 3; ActionManager.Add 3]))
    as (_ & _ & _ & _ & _ & H).
  apply H. apply (bool_decide_unpack _). vm_compute. exact I.
Defined.

(** X17: the sample configuration, after a retry is set and an attempt has
    failed. *)
Lemma X17_witness :
  retry_invariant (closes 3 1 [sample_worker] (snd (set_retry 1 2 sample_world))).
Proof.
  destruct (X17_retry_invariant_kept 1 (snd (set_retry 1 2 sample_world)))
    as [_ H].
  destruct H as (_ & _ & _ & _ & _ & _ & H).
  - apply retry_invariant_set_retry, sample_retry_invariant.
  - apply H.
Defined.

(** The tasks of [test_add_task]: five calls of [add_task], four tasks. *)
Example test_add_task_count :
  length (ActionManager.running
            (ActionManager.run fan_test_add_task
               [ActionManager.Add 1; ActionManager.Add 2; ActionManager.Add 3;
                ActionManager.Add 3; ActionManager.Add 4])) = 4.
Proof. reflexivity. Qed.
